(** * The frame renderer of Celestia (celengine/render.cpp)

    A shallow embedding of the parts of [Renderer::render] and its helpers
    that decide where a body goes in a frame: the render-list builder, the
    frustum culler's clip planes, the depth-bucket partitioner, the eclipse
    test, the orbit cache and the star batcher's brightness mapping.

    Numbers.  The C++ code computes in [float] and [double].  Here every
    such value is a rational ([Q]) and arithmetic is exact: comparisons,
    [min] and [max] behave as in the code, while rounding, infinities and
    NaN are outside the model.  Square root, cosine and the other helpers
    that live in headers outside render.cpp are parameters ([MathLib]). *)

From Stdlib Require Import QArith Qround Lqa ZArith Bool Lia.
From stdpp Require Import base option list strings.

Local Open Scope Q_scope.

(** ** Arithmetic on the model of [float] *)

Module Num.

(** [a < b] and [a <= b] as the C++ comparisons, with a boolean result. *)
Definition ltb (a b : Q) : bool := negb (Qle_bool b a).
Definition leb (a b : Q) : bool := Qle_bool a b.

(** [std::min (a, b)] is [(b < a) ? b : a]; [std::max (a, b)] is
    [(a < b) ? b : a]. *)
Definition min (a b : Q) : Q := if ltb b a then b else a.
Definition max (a b : Q) : Q := if ltb a b then b else a.

(** [square] of celmath/mathlib.h. *)
Definition square (x : Q) : Q := x * x.

(** The cast [(int) x] of a floating value: truncation toward zero. *)
Definition truncate (x : Q) : Z := Z.quot (Qnum x) (Zpos (Qden x)).

(** The cast [(int) x] with the range of a 32-bit [int] written out.  Out
    of range C++ leaves the result undefined; the value taken here is the
    one the conversion instruction of x86 gives, [INT_MIN]. *)
Definition INT_MIN : Z := - 2 ^ 31.
Definition INT_MAX : Z := 2 ^ 31 - 1.
Definition toInt (x : Q) : Z :=
  let z := truncate x in
  if (INT_MIN <=? z)%Z && (z <=? INT_MAX)%Z then z else INT_MIN.

End Num.

(** ** Points, vectors and the helpers render.cpp takes from other files *)

Record Point3 := mkPoint3 { p_x : Q; p_y : Q; p_z : Q }.
Record Vec3 := mkVec3 { v_x : Q; v_y : Q; v_z : Q }.

(** [a - b] of two points is a vector (celmath/vecmath.h). *)
Definition psub (a b : Point3) : Vec3 :=
  mkVec3 (p_x a - p_x b) (p_y a - p_y b) (p_z a - p_z b).

(** [Point3d (0, 0, 0)]. *)
Definition zeroPoint : Point3 := mkPoint3 0 0 0.

(** [Frustum::testSphere] answers one of these. *)
Inductive FrustumAspect := Outside | Inside | Intersect.

(** Functions render.cpp calls and does not define.  They are kept
    abstract; [ExactMath] below is an instance that is exact on the inputs
    the examples use. *)
Class MathLib := {
  (** [sqrt] of <math.h>. *)
  sqrt : Q -> Q;
  (** [cos (degToRad x)]: the cosine of an angle given in degrees. *)
  cosDeg : Q -> Q;
  (** [distance (p, Ray3d (o, d))] of celmath/distance.h: the distance from
      the point [p] to the ray that starts at [o] with direction [d]. *)
  distanceToRay : Point3 -> Point3 -> Vec3 -> Q;
  (** [astro::kilometersToAU]. *)
  kilometersToAU : Q -> Q
}.

Section VecMath.
Context `{MathLib}.

(** [Vec3::length] and [Point3::distanceFromOrigin]. *)
Definition vlength (v : Vec3) : Q :=
  sqrt (Num.square (v_x v) + Num.square (v_y v) + Num.square (v_z v)).
Definition distanceFromOrigin (p : Point3) : Q :=
  sqrt (Num.square (p_x p) + Num.square (p_y p) + Num.square (p_z p)).

(** [Vec3::normalize]. *)
Definition normalize (v : Vec3) : Vec3 :=
  let s := 1 / vlength v in mkVec3 (v_x v * s) (v_y v * s) (v_z v * s).
End VecMath.

(** ** Bodies, stars and orbits *)

(** [Body::Classification] (celengine/body.h). *)
Inductive Classification :=
  Planet | Moon | Asteroid | Comet | Spacecraft | Invisible | Unknown.

Definition Classification_eqb (a b : Classification) : bool :=
  match a, b with
  | Planet, Planet | Moon, Moon | Asteroid, Asteroid | Comet, Comet
  | Spacecraft, Spacecraft | Invisible, Invisible | Unknown, Unknown => true
  | _, _ => false
  end.

(** A [ResourceHandle] is an integer and [InvalidResource] the handle that
    stands for no resource (celutil/resmanager.h). *)
Definition ResourceHandle := Z.
Definition InvalidResource : ResourceHandle := (-1)%Z.

(** One sample handed to an [OrbitSampleProc]: the time and the position. *)
Record OrbitSample := mkOrbitSample { samp_t : Q; samp_pos : Point3 }.

(** The interface of [Orbit] (celengine/orbit.h) as far as the renderer
    uses it.  [sample start period n] is the sequence of samples the orbit
    passes to the sampling procedure, in order. *)
Record Orbit := mkOrbit {
  isPeriodic : bool;
  getPeriod : Q;
  getValidRange : Q * Q;
  orbitBoundingRadius : Q;
  positionAtTime : Q -> Point3;
  sample : Q -> Q -> Z -> list OrbitSample
}.

Record RingSystem := mkRingSystem { innerRadius : Q; outerRadius : Q }.
Record Atmosphere := mkAtmosphere { height : Q; cloudHeight : Q }.

Record Star := mkStar {
  starPosition : Point3;
  starRadius : Q;
  starAbsoluteMagnitude : Q
}.

(** A [Body] with the accessors the renderer calls.  [bodyAddr] stands for
    the address of the object: the renderer compares [Body*] pointers.
    [getSatellites] is the [PlanetarySystem*], [None] for a null pointer. *)
#[warnings="-register-all"]
Inductive Body := mkBody {
  bodyAddr : nat;
  getRadius : Q;
  getBoundingRadius : Q;
  getOblateness : Q;
  getClassification : Classification;
  getModel : ResourceHandle;
  getRings : option RingSystem;
  getAtmosphere : option Atmosphere;
  getOrbit : Orbit;
  extant : Q -> bool;
  getHeliocentricPosition : Q -> Point3;
  getApparentMagnitude : Star -> Vec3 -> Vec3 -> Q;
  systemStar : Star;
  getSatellites : option (list Body)
}.

(** A [SolarSystem]: its star and its planets ([None] for a null
    [PlanetarySystem*]). *)
Record SolarSystem := mkSolarSystem {
  getStar : Star;
  getPlanets : option (list Body)
}.

(** ** The render list *)

Record RenderListEntry := mkRenderListEntry {
  body : option Body;
  star : option Star;
  isCometTail : bool;
  position : Point3;
  sun : Vec3;
  distance : Q;
  radius : Q;
  discSizeInPixels : Q;
  appMag : Q;
  nearZ : Q;
  farZ : Q;
  depthBucket : Z
}.

Definition setNearZ (v : Q) (e : RenderListEntry) : RenderListEntry :=
  mkRenderListEntry (body e) (star e) (isCometTail e) (position e) (sun e)
    (distance e) (radius e) (discSizeInPixels e) (appMag e)
    v (farZ e) (depthBucket e).

Definition setFarZ (v : Q) (e : RenderListEntry) : RenderListEntry :=
  mkRenderListEntry (body e) (star e) (isCometTail e) (position e) (sun e)
    (distance e) (radius e) (discSizeInPixels e) (appMag e)
    (nearZ e) v (depthBucket e).

Definition setDepthBucket (b : Z) (e : RenderListEntry) : RenderListEntry :=
  mkRenderListEntry (body e) (star e) (isCometTail e) (position e) (sun e)
    (distance e) (radius e) (discSizeInPixels e) (appMag e)
    (nearZ e) (farZ e) b.

(** ** The depth partitioner ([Renderer::render], the bucket loop) *)

Module DepthBuckets.

(** The locals of the loop together with the render list it updates. *)
Record State := mkState {
  nDepthBuckets : Z;
  lastNear : Q;
  lastFar : Q;
  firstCoalesced : nat;
  renderList : list RenderListEntry
}.

(** [for (j = first; j <= i; j++) { l[j].farZ = far; l[j].nearZ = near; }] *)
Definition coalesce (first i : nat) (nearest farthest : Q)
    (l : list RenderListEntry) : list RenderListEntry :=
  foldl (fun l j => alter (fun e => setNearZ nearest (setFarZ farthest e)) j l)
        l (seq first (S i - first)).

(** The branch that opens a bucket: both places in the loop do the same. *)
Definition openBucket (i : nat) (e : RenderListEntry) (st : State) : State :=
  mkState (nDepthBuckets st + 1) (nearZ e) (farZ e) i (renderList st).

(** One iteration of the loop, at index [i]. *)
Definition step (maxFarNearRatio : Q) (st : State) (i : nat) : State :=
  match renderList st !! i with
  | None => st
  | Some e =>
    if Num.ltb 1 (discSizeInPixels e) then
      let st1 :=
        if (nDepthBuckets st =? 1)%Z || Num.leb (nearZ e) (lastFar st) then
          openBucket i e st
        else
          let farthest := Num.min (lastFar st) (farZ e) in
          let nearest := Num.max (lastNear st) (nearZ e) in
          if Num.ltb (farthest / nearest) maxFarNearRatio then
            mkState (nDepthBuckets st) (lastNear st) (lastFar st)
              (firstCoalesced st)
              (coalesce (firstCoalesced st) i nearest farthest (renderList st))
          else
            openBucket i e st in
      mkState (nDepthBuckets st1) (lastNear st1) (lastFar st1)
        (firstCoalesced st1)
        (alter (setDepthBucket (nDepthBuckets st1 - 1)) i (renderList st1))
    else st
  end.

Definition init (l : list RenderListEntry) : State := mkState 1 0 0 0%nat l.

(** The whole loop over [i = 0 .. nEntries - 1]. *)
Definition partition (maxFarNearRatio : Q) (l : list RenderListEntry) : State :=
  foldl (step maxFarNearRatio) (init l) (seq 0 (length l)).

(** The state before iteration [i]. *)
Definition stateBefore (maxFarNearRatio : Q) (l : list RenderListEntry)
    (i : nat) : State :=
  foldl (step maxFarNearRatio) (init l) (seq 0 i).

(** The far plane of the open bucket as the entries hold it: the far
    plane of the entry that opened the bucket, which every coalescing
    rewrites. *)
Definition bucketFar (st : State) : option Q :=
  farZ <$> renderList st !! firstCoalesced st.

(** The entry is found to overlap the open bucket: the test
    [nearZ <= lastFar] fails and the coalescing branch is entered. *)
Definition overlaps (st : State) (e : RenderListEntry) : bool :=
  Num.ltb (lastFar st) (nearZ e).

(** [check] holds of every entry larger than a pixel that the loop tests
    against an open bucket, in the state the loop is in when it gets
    there. *)
Definition everyTest (check : State -> RenderListEntry -> bool)
    (maxFarNearRatio : Q) (l : list RenderListEntry) : bool :=
  forallb (fun i =>
             let st := stateBefore maxFarNearRatio l i in
             match renderList st !! i with
             | Some e =>
               if Num.ltb 1 (discSizeInPixels e) && negb (nDepthBuckets st =? 1)%Z
               then check st e else true
             | None => true
             end) (seq 0 (length l)).

(** An entry that overlaps the open bucket passes the ratio test. *)
Definition ratioPasses (maxFarNearRatio : Q) (st : State) (e : RenderListEntry)
    : bool :=
  negb (overlaps st e)
  || Num.ltb (Num.min (lastFar st) (farZ e) / Num.max (lastNear st) (nearZ e))
       maxFarNearRatio.

(** The last entry larger than a pixel among the first [n] entries. *)
Fixpoint lastLargeBefore (n : nat) (l : list RenderListEntry)
    : option RenderListEntry :=
  match n with
  | O => None
  | S k =>
    match l !! k with
    | Some e =>
      if Num.ltb 1 (discSizeInPixels e) then Some e else lastLargeBefore k l
    | None => lastLargeBefore k l
    end
  end.

(** The far plane of the bucket before the open one: that of the last
    entry larger than a pixel before the entry that opened the open
    bucket. *)
Definition previousFar (st : State) : option Q :=
  farZ <$> lastLargeBefore (firstCoalesced st) (renderList st).

(** The bucket the entry joins or opens does not come nearer than the far
    plane of the bucket before it: for an entry that overlaps the open
    bucket, the near plane the coalescing gives that bucket is no nearer
    than the far plane of the bucket before; an entry that does not
    overlap [lastNear .. lastFar] starts no nearer than the far plane of
    the open bucket as coalesced. *)
Definition keepsBehind (st : State) (e : RenderListEntry) : bool :=
  if overlaps st e then
    match previousFar st with
    | Some far => Num.leb (Num.max (lastNear st) (nearZ e)) far
    | None => true
    end
  else
    match bucketFar st with
    | Some far => Num.leb (nearZ e) far
    | None => true
    end.

End DepthBuckets.

(** [MaxFarNearRatio] and [MinNearPlaneDistance] of render.cpp. *)
Definition MaxFarNearRatio : Q := 2000.
Definition MinNearPlaneDistance : Q := 1 # 10000.
Definition CoronaHeight : Q := 2 # 10.

(** ** The frustum culler ([Renderer::render], the loop before the sort) *)

Module Culler.
Section Culler.
Context `{MathLib}.

(** The window, the field of view in degrees, the map
    [p |-> p * viewMat] into camera space and the frustum's sphere test. *)
Variables (windowWidth windowHeight fov : Q).
Variable viewMat : Point3 -> Point3.
Variable testSphere : Point3 -> Q -> FrustumAspect.

(** [convex], [radius], [cullRadius] and [cloudHeight] as the first part
    of the loop body leaves them. *)
Definition bounds (e : RenderListEntry) : bool * Q * Q * Q :=
  match body e with
  | Some b =>
    let radius := getBoundingRadius b in
    let '(radius, convex) :=
      match getRings b with
      | Some rings => (outerRadius rings, false)
      | None => (radius, true)
      end in
    let convex := if (getModel b =? InvalidResource)%Z then convex else false in
    match getAtmosphere b with
    | Some atm => (convex, radius, radius + height atm, cloudHeight atm)
    | None => (convex, radius, radius, 0)
    end
  | None =>
    match star e with
    | Some s => (true, starRadius s, starRadius s * (1 + CoronaHeight), 0)
    | None => (true, 1, 1, 0)
    end
  end.

(** The near and far planes of an entry that passed the sphere test. *)
Definition clipEntry (e : RenderListEntry) : RenderListEntry :=
  let center := viewMat (position e) in
  let '(convex, radius, _, cloudHeight) := bounds e in
  let nearZ0 := distanceFromOrigin center - radius in
  let maxSpan := sqrt (Num.square windowWidth + Num.square windowHeight) in
  let nearZ1 := - nearZ0 * cosDeg (fov / 2) * (windowHeight / maxSpan) in
  let e1 :=
    if Num.ltb (- MinNearPlaneDistance) nearZ1
    then setNearZ (- MinNearPlaneDistance) e
    else setNearZ nearZ1 e in
  if negb convex then
    let e2 := setFarZ (p_z center - radius) e1 in
    if Num.ltb MaxFarNearRatio (farZ e2 / nearZ e2)
    then setNearZ (farZ e2 / MaxFarNearRatio) e2
    else e2
  else
    let d := distanceFromOrigin center in
    let eradius :=
      match body e with
      | Some b => radius * (1 - getOblateness b)
      | None => radius
      end in
    let e2 :=
      if Num.ltb eradius d
      then setFarZ (sqrt (Num.square d - Num.square eradius) * - (11 # 10)) e1
      else setFarZ (nearZ e1 * 2) e1 in
    if Num.ltb 0 cloudHeight && Num.ltb d (eradius + cloudHeight) then
      let cloudLayerRadius := eradius + cloudHeight in
      setFarZ (farZ e2 - sqrt (Num.square cloudLayerRadius - Num.square eradius)) e2
    else e2.

(** One entry: dropped when its bounding sphere is outside the frustum,
    kept with its clip planes otherwise. *)
Definition cullEntry (e : RenderListEntry) : option RenderListEntry :=
  let center := viewMat (position e) in
  let '(_, _, cullRadius, _) := bounds e in
  match testSphere center cullRadius with
  | Outside => None
  | _ => Some (clipEntry e)
  end.

(** The loop compacts the survivors to the front of the vector in their
    order and [resize] cuts the rest off. *)
Definition cull (l : list RenderListEntry) : list RenderListEntry :=
  omap cullEntry l.

End Culler.
End Culler.

(** The planes [Renderer::render] hands to [gluPerspective] for an entry
    drawn as a mesh: [(nearPlaneDistance, farPlaneDistance)]. *)
Definition planeDistances (e : RenderListEntry) : Q * Q :=
  let nearPlaneDistance := nearZ e * - (9 # 10) in
  let farPlaneDistance := farZ e * - (15 # 10) in
  let nearPlaneDistance :=
    if Num.ltb nearPlaneDistance MinNearPlaneDistance
    then MinNearPlaneDistance else nearPlaneDistance in
  let farPlaneDistance :=
    if Num.ltb MaxFarNearRatio (farPlaneDistance / nearPlaneDistance)
    then nearPlaneDistance * MaxFarNearRatio else farPlaneDistance in
  (nearPlaneDistance, farPlaneDistance).

(** ** The render-list builder ([Renderer::renderPlanetarySystem]) *)

Module Builder.
Section Builder.
Context `{MathLib}.

(** Renderer fields the function reads, the sun, the heliocentric position
    of the observer and the time. *)
Variables (pixelSize faintestPlanetMag : Q) (showCometTails : bool).
Variables (theSun : Star) (observerPos : Point3) (now : Q).

(** [posd = bodyPos - observerPos] and its length. *)
Definition posd (b : Body) : Vec3 := psub (getHeliocentricPosition b now) observerPos.
Definition distanceFromObserver (b : Body) : Q := vlength (posd b).

Definition bodyAppMag (b : Body) : Q :=
  getApparentMagnitude b theSun (psub (getHeliocentricPosition b now) zeroPoint) (posd b).

(** [(radius / distance) / pixelSize]. *)
Definition discSizeOf (radius dist : Q) : Q := (radius / dist) / pixelSize.

(** The entry built for the body itself and the one for a comet's tail.
    The clip planes and the bucket are not set here; they read 0. *)
Definition bodyEntry (b : Body) : RenderListEntry :=
  let bodyPos := getHeliocentricPosition b now in
  mkRenderListEntry (Some b) None false
    (mkPoint3 (v_x (posd b)) (v_y (posd b)) (v_z (posd b)))
    (mkVec3 (- p_x bodyPos) (- p_y bodyPos) (- p_z bodyPos))
    (distanceFromObserver b) (getRadius b)
    (discSizeOf (getRadius b) (distanceFromObserver b)) (bodyAppMag b) 0 0 0.

Definition cometTailRadius : Q := 10000000.

Definition tailEntry (b : Body) : RenderListEntry :=
  let bodyPos := getHeliocentricPosition b now in
  mkRenderListEntry (Some b) None true
    (mkPoint3 (v_x (posd b)) (v_y (posd b)) (v_z (posd b)))
    (mkVec3 (- p_x bodyPos) (- p_y bodyPos) (- p_z bodyPos))
    (distanceFromObserver b) cometTailRadius
    (discSizeOf cometTailRadius (distanceFromObserver b)) (bodyAppMag b) 0 0 0.

(** The test that guards the first [renderList.insert]. *)
Definition included (b : Body) : bool :=
  (Num.ltb 1 (discSizeOf (getRadius b) (distanceFromObserver b))
   || Num.ltb (bodyAppMag b) faintestPlanetMag)
  && negb (Classification_eqb (getClassification b) Invisible).

Definition hasTail (b : Body) : bool :=
  Classification_eqb (getClassification b) Comet && showCometTails
  && Num.ltb 1 (discSizeOf cometTailRadius (distanceFromObserver b)).

(** The loop body for one body of the system, then its satellites.  The
    labels the function also emits go to another list and are left out. *)
Fixpoint renderBody (b : Body) (renderList : list RenderListEntry)
    : list RenderListEntry :=
  if negb (extant b now) then renderList else
  let renderList :=
    if included b then renderList ++ [bodyEntry b] else renderList in
  let renderList :=
    if hasTail b then renderList ++ [tailEntry b] else renderList in
  if Num.ltb (bodyAppMag b) faintestPlanetMag then
    match getSatellites b with
    | Some satellites =>
      (fix loop (l : list Body) (renderList : list RenderListEntry) :=
         match l with
         | [] => renderList
         | s :: rest => loop rest (renderBody s renderList)
         end) satellites renderList
    | None => renderList
    end
  else renderList.

Definition renderPlanetarySystem (solSystem : list Body)
    (renderList : list RenderListEntry) : list RenderListEntry :=
  foldl (fun rl b => renderBody b rl) renderList solSystem.

End Builder.
End Builder.

(** ** The eclipse test ([Renderer::testEclipse]) *)

Module Eclipse.

Record EclipseShadow := mkEclipseShadow {
  origin : Point3;
  direction : Vec3;
  penumbraRadius : Q;
  umbraRadius : Q
}.

Section Eclipse.
Context `{MathLib}.

(** The guard of the outer [if]: the caster is at least 1% of the
    receiver, is not invisible and has no mesh. *)
Definition casterAccepted (receiver caster : Body) : bool :=
  Num.leb (getRadius receiver) (getRadius caster * 100)
  && negb (Classification_eqb (getClassification caster) Invisible)
  && (getModel caster =? InvalidResource)%Z.

Definition posReceiver (receiver : Body) (now : Q) := getHeliocentricPosition receiver now.
Definition posCaster (caster : Body) (now : Q) := getHeliocentricPosition caster now.

Definition appSunRadius (receiver : Body) (now : Q) : Q :=
  starRadius (systemStar receiver) / distanceFromOrigin (posReceiver receiver now).

Definition dir (receiver caster : Body) (now : Q) : Vec3 :=
  psub (posCaster caster now) (posReceiver receiver now).

Definition appOccluderRadius (receiver caster : Body) (now : Q) : Q :=
  getRadius caster / (vlength (dir receiver caster now) - getRadius receiver).

Definition shadowRadius (receiver caster : Body) (now : Q) : Q :=
  (1 + appSunRadius receiver now / appOccluderRadius receiver caster now)
  * getRadius caster.

(** [dist < R]: the receiver's centre is within [R] of the shadow axis. *)
Definition inShadow (receiver caster : Body) (now : Q) : bool :=
  let R := getRadius receiver + shadowRadius receiver caster now in
  let dist := distanceToRay (posReceiver receiver now) (posCaster caster now)
                (psub (posCaster caster now) zeroPoint) in
  Num.ltb dist R.

Definition shadowOf (receiver caster : Body) (now : Q) : EclipseShadow :=
  let d := dir receiver caster now in
  let sunDir := normalize (psub (posCaster caster now) zeroPoint) in
  mkEclipseShadow (mkPoint3 (v_x d) (v_y d) (v_z d)) sunDir
    (shadowRadius receiver caster now)
    (getRadius caster
     * (appOccluderRadius receiver caster now - appSunRadius receiver now)
     / appOccluderRadius receiver caster now).

(** The result and the list [eclipseShadows] after the call. *)
Definition testEclipse (receiver caster : Body) (now : Q)
    (eclipseShadows : list EclipseShadow) : bool * list EclipseShadow :=
  if casterAccepted receiver caster then
    if inShadow receiver caster now then
      (true, eclipseShadows ++ [shadowOf receiver caster now])
    else (false, eclipseShadows)
  else (false, eclipseShadows).

End Eclipse.
End Eclipse.

(** ** The orbit cache ([Renderer::renderOrbit], [renderOrbits] and the
       orbit part of [Renderer::render]) *)

Module OrbitCache.

(** A [CachedOrbit].  [body] is a [Body*]: the address of the body the
    trajectory belongs to, [None] for the null pointer. *)
Record CachedOrbit := mkCachedOrbit {
  body : option nat;
  trajectory : list OrbitSample;
  keep : bool
}.

Definition setKeep (k : bool) (c : CachedOrbit) : CachedOrbit :=
  mkCachedOrbit (body c) (trajectory c) k.
Definition setBody (b : option nat) (c : CachedOrbit) : CachedOrbit :=
  mkCachedOrbit b (trajectory c) (keep c).

(** What a call leaves behind besides the cache: the calls of
    [Orbit::sample] it made and the line it drew. *)
Inductive Event :=
| Sampled (addr : nat) (startTime period : Q) (nSamples : Z)
| Drew (addr : nat) (trajectory : list OrbitSample) (loop : bool)
       (vertices : list Point3).

Record Renderer := mkRenderer {
  orbitCache : list CachedOrbit;
  events : list Event
}.

Section OrbitCache.
Context `{MathLib}.

(** [detailOptions.orbitPathSamplePoints], the [ShowPartialTrajectories]
    bit of [renderFlags], [orbitMask], [minOrbitSize] and [pixelSize]. *)
Variables (orbitPathSamplePoints : Z) (showPartialTrajectories : bool).
Variables (orbitMask : Z) (minOrbitSize pixelSize : Q).
(** The value of a [Body::Classification] enumerator (celengine/body.h). *)
Variable classificationBits : Classification -> Z.

(** Start time and number of samples for a body that has to be sampled. *)
Definition samplingPlan (b : Body) (t : Q) : Q * Z :=
  let startTime := t in
  let nSamples := orbitPathSamplePoints in
  if negb (isPeriodic (getOrbit b)) then
    let '(begin, end_) := getValidRange (getOrbit b) in
    if negb (Qeq_bool begin end_) then
      (begin,
       Z.max (Z.min (Num.toInt (getPeriod (getOrbit b) * 100)) 1000) 100)
    else (startTime, nSamples)
  else (startTime, nSamples).

(** The first part of [renderOrbit]: find the trajectory of the body in
    the cache, or sample it into a recycled or a new entry.  Returns the
    cache, the trajectory to draw and the calls of [Orbit::sample]. *)
Definition cacheTrajectory (b : Body) (t : Q) (cache : list CachedOrbit)
    : list CachedOrbit * list OrbitSample * list Event :=
  match list_find (fun c => body c = Some (bodyAddr b)) cache with
  | Some (k, c) => (alter (setKeep true) k cache, trajectory c, [])
  | None =>
    let '(startTime, nSamples) := samplingPlan b t in
    let samples :=
      sample (getOrbit b) startTime (getPeriod (getOrbit b)) nSamples in
    let orbit := mkCachedOrbit (Some (bodyAddr b)) samples true in
    let call := Sampled (bodyAddr b) startTime (getPeriod (getOrbit b)) nSamples in
    match list_find (fun c => body c = None) cache with
    | Some (k, _) => (<[k := orbit]> cache, samples, [call])
    | None => (cache ++ [orbit], samples, [call])
    end
  end.

Definition vertexOf (p : Point3) : Point3 :=
  mkPoint3 (kilometersToAU (p_x p)) (kilometersToAU (p_y p)) (kilometersToAU (p_z p)).

(** The samples before time [t], and whether the walk stopped early. *)
Fixpoint travelled (t : Q) (l : list OrbitSample) : list OrbitSample * bool :=
  match l with
  | [] => ([], false)
  | p :: rest =>
    if Num.ltb (samp_t p) t
    then let '(done, midway) := travelled t rest in (p :: done, midway)
    else ([], true)
  end.

(** The second part of [renderOrbit]: the vertices between [glBegin] and
    [glEnd]. *)
Definition drawTrajectory (b : Body) (t : Q) (trajectory : list OrbitSample)
    : list Point3 :=
  if negb showPartialTrajectories || isPeriodic (getOrbit b) then
    map (fun p => vertexOf (samp_pos p)) trajectory
  else
    let '(done, midway) := travelled t trajectory in
    map (fun p => vertexOf (samp_pos p)) done
    ++ (if midway then [vertexOf (positionAtTime (getOrbit b) t)] else []).

Definition renderOrbit (b : Body) (t : Q) (r : Renderer) : Renderer :=
  let '(cache, trajectory, calls) := cacheTrajectory b t (orbitCache r) in
  mkRenderer cache
    (events r ++ calls
     ++ [Drew (bodyAddr b) trajectory (isPeriodic (getOrbit b))
           (drawTrajectory b t trajectory)]).

(** [renderOrbits] for one body of the system, then its satellites.  [sel]
    is the address of the selected body.  Colours and projection matrices
    are not part of the state kept here. *)
Fixpoint renderOrbitsBody (sel : option nat) (t : Q) (observerPos : Point3)
    (distance : Q) (b : Body) (r : Renderer) : Renderer :=
  if negb (Z.land (classificationBits (getClassification b)) orbitMask =? 0)%Z
     || bool_decide (Some (bodyAddr b) = sel) then
    let orbitRadiusInPixels :=
      orbitBoundingRadius (getOrbit b) / (distance * pixelSize) in
    if Num.ltb minOrbitSize orbitRadiusInPixels then
      let r := renderOrbit b t r in
      match getSatellites b with
      | Some satellites =>
        let distance' := vlength (psub (getHeliocentricPosition b t) observerPos) in
        (fix loop (l : list Body) (r : Renderer) :=
           match l with
           | [] => r
           | s :: rest =>
             loop rest (renderOrbitsBody sel t observerPos distance' s r)
           end) satellites r
      | None => r
      end
    else r
  else r.

Definition renderOrbits (planets : option (list Body)) (sel : option nat)
    (t : Q) (observerPos center : Point3) (r : Renderer) : Renderer :=
  match planets with
  | None => r
  | Some bodies =>
    let distance := vlength (psub center observerPos) in
    foldl (fun r b => renderOrbitsBody sel t observerPos distance b r) r bodies
  end.

(** The two passes of [Renderer::render] around the call of
    [renderOrbits]. *)
Definition clearKeep (cache : list CachedOrbit) : list CachedOrbit :=
  setKeep false <$> cache.
Definition recycleUnused (cache : list CachedOrbit) : list CachedOrbit :=
  (fun c => if keep c then c else setBody None c) <$> cache.

(** The orbit block of [Renderer::render]; [showOrbits] is the
    [ShowOrbits] bit of [renderFlags] and [obsPos] the heliocentric
    position of the observer. *)
Definition renderFrameOrbits (showOrbits : bool)
    (solarSystem : option SolarSystem) (sel : option nat) (now : Q)
    (obsPos : Point3) (r : Renderer) : Renderer :=
  match solarSystem with
  | Some system =>
    if showOrbits && negb (orbitMask =? 0)%Z then
      let r0 := mkRenderer (clearKeep (orbitCache r)) (events r) in
      let r1 := renderOrbits (getPlanets system) sel now obsPos zeroPoint r0 in
      mkRenderer (recycleUnused (orbitCache r1)) (events r1)
    else r
  | None => r
  end.

End OrbitCache.
End OrbitCache.

(** ** The star batcher ([StarRenderer::process] and the vertex buffer) *)

Module StarBatcher.

(** [RenderDistance] and [FOV] of render.cpp. *)
Definition RenderDistance : Q := 50.
Definition FOV : Q := 45.

Section StarBatcher.
Context `{MathLib}.

(** Colours are opaque here; [Color (c, alpha)] is kept as the pair. *)
Variable Color : Type.
Variable getApparentColor : Star -> Color.
(** [Math<float>::clamp] (celmath/mathlib.h) and the conversions of
    celengine/astro.h. *)
Variable clamp : Q -> Q.
Variables (kilometersToLightYears lightYearsToKilometers : Q -> Q).
Variable absToAppMag : Q -> Q -> Q.
(** [astro::heliocentricPosition (observer->getPosition (), starPos)]. *)
Variable heliocentricPosition : Point3 -> Point3.

(** One call of [addStar] and one glare particle. *)
Record StarVertex := mkStarVertex {
  sv_pos : Point3; sv_color : Color; sv_alpha : Q; sv_size : Q
}.
Record Particle := mkParticle {
  center : Point3; size_ : Q; color : Color; alpha_ : Q
}.

(** The vertex buffer: the stars waiting to be drawn and the batches
    already handed to [glDrawArrays]. *)
Record StarVertexBuffer := mkStarVertexBuffer {
  capacity : nat;
  pending : list StarVertex;
  drawn : list (list StarVertex)
}.

Definition addStar (v : StarVertex) (b : StarVertexBuffer) : StarVertexBuffer :=
  let b1 :=
    if (length (pending b) <? capacity b)%nat
    then mkStarVertexBuffer (capacity b) (pending b ++ [v]) (drawn b)
    else b in
  if (length (pending b1) =? capacity b1)%nat then
    match pending b1 with
    | [] => b1
    | _ => mkStarVertexBuffer (capacity b1) [] (drawn b1 ++ [pending b1])
    end
  else b1.

(** The fields of [StarRenderer]. *)
Record StarRenderer := mkStarRenderer {
  position : Point3;
  viewNormal : Vec3;
  glareParticles : list Particle;
  renderList : list RenderListEntry;
  starVertexBuffer : StarVertexBuffer;
  fov : Q;
  size : Q;
  pixelSize : Q;
  faintestMag : Q;
  saturationMag : Q;
  brightnessScale : Q;
  brightnessBias : Q;
  distanceLimit : Q;
  nRendered : Z;
  nClose : Z;
  nBright : Z;
  nProcessed : Z;
  useDiscs : bool;
  maxDiscSize : Q
}.

Definition dot (a b : Vec3) : Q := v_x a * v_x b + v_y a * v_y b + v_z a * v_z b.

(** The alpha and the size factor of a billboard: the two branches on
    [useDiscs] up to the call of [addStar]. *)
Definition billboard (sr : StarRenderer) (appMag : Q) : Q * Q :=
  let alpha := (faintestMag sr - appMag) * brightnessScale sr + brightnessBias sr in
  if useDiscs sr then
    let discSize := size sr in
    if Num.ltb alpha 0 then (0, discSize)
    else if Num.ltb 1 alpha then
      (1, Num.min (discSize * (2 * alpha - 1)) (maxDiscSize sr))
    else (alpha, discSize)
  else (clamp alpha, size sr).

Definition billboardAlpha (sr : StarRenderer) (appMag : Q) : Q :=
  fst (billboard sr appMag).

(** The glare particle of a star brighter than the saturation magnitude. *)
Definition glare (sr : StarRenderer) (starPos : Point3) (starColor : Color)
    (renderDistance appMag : Q) : Particle :=
  let psize := renderDistance * size sr in
  let alpha := (4 # 10) * clamp ((appMag - saturationMag sr) * - (8 # 10)) in
  let s := renderDistance * (1 # 1000) * (3 - (appMag - saturationMag sr)) * 2 in
  let psize :=
    if Num.ltb (psize * 3) s then s * 2 / (1 + FOV / fov sr) else psize * 3 in
  mkParticle starPos psize starColor alpha.

Definition withCounts (sr : StarRenderer) (rendered close bright processed : Z)
    (g : list Particle) (rl : list RenderListEntry) (vb : StarVertexBuffer)
    : StarRenderer :=
  mkStarRenderer (position sr) (viewNormal sr) g rl vb (fov sr) (size sr)
    (pixelSize sr) (faintestMag sr) (saturationMag sr) (brightnessScale sr)
    (brightnessBias sr) (distanceLimit sr) rendered close bright processed
    (useDiscs sr) (maxDiscSize sr).

Definition process (star : Star) (distance appMag : Q) (sr : StarRenderer)
    : StarRenderer :=
  let sr := withCounts sr (nRendered sr) (nClose sr) (nBright sr)
              (nProcessed sr + 1) (glareParticles sr) (renderList sr)
              (starVertexBuffer sr) in
  let starPos := starPosition star in
  let relPos := psub starPos (position sr) in
  if Num.ltb (distanceLimit sr) distance then sr
  else if Num.ltb 0 (dot relPos (viewNormal sr))
          || Num.ltb (v_x relPos * v_x relPos) (1 # 10) then
    let starColor := getApparentColor star in
    let near := Num.ltb distance 1 in
    let hPos := heliocentricPosition starPos in
    let k := - kilometersToLightYears 1 in
    let relPos :=
      if near then mkVec3 (p_x hPos * k) (p_y hPos * k) (p_z hPos * k) else relPos in
    let distance := if near then vlength relPos else distance in
    let appMag :=
      if near then absToAppMag (starAbsoluteMagnitude star) distance else appMag in
    let f := RenderDistance / distance in
    let renderDistance := if near then RenderDistance else distance in
    let starPos :=
      if near then
        mkPoint3 (p_x (position sr) + v_x relPos * f)
          (p_y (position sr) + v_y relPos * f)
          (p_z (position sr) + v_z relPos * f)
      else starPos in
    let discSizeInPixels :=
      if near then starRadius star / lightYearsToKilometers distance / pixelSize sr
      else 0 in
    let nClose' := if near then (nClose sr + 1)%Z else nClose sr in
    if Num.leb discSizeInPixels 1 then
      let '(alpha, discSize) := billboard sr appMag in
      let vb := addStar (mkStarVertex starPos starColor alpha (renderDistance * discSize))
                  (starVertexBuffer sr) in
      if Num.ltb appMag (saturationMag sr) then
        withCounts sr (nRendered sr + 1) nClose' (nBright sr + 1) (nProcessed sr)
          (glareParticles sr ++ [glare sr starPos starColor renderDistance appMag])
          (renderList sr) vb
      else
        withCounts sr (nRendered sr + 1) nClose' (nBright sr) (nProcessed sr)
          (glareParticles sr) (renderList sr) vb
    else
      let scale := lightYearsToKilometers 1 in
      let pos := mkPoint3 (v_x relPos * scale) (v_y relPos * scale) (v_z relPos * scale) in
      let rle := mkRenderListEntry None (Some star) false pos (mkVec3 0 0 0)
                   (distanceFromOrigin pos) (starRadius star) discSizeInPixels
                   appMag 0 0 0 in
      withCounts sr (nRendered sr) nClose' (nBright sr) (nProcessed sr)
        (glareParticles sr) (renderList sr ++ [rle]) (starVertexBuffer sr)
  else sr.

End StarBatcher.
End StarBatcher.

(** ** A concrete [MathLib] for evaluating the model

    [exactSqrt] is the square root on the squares of rationals and rounds
    down numerator and denominator elsewhere; [exactCosDeg] knows the
    angles 0, 60, 90 and 180.  The examples below only use inputs on which
    both are exact. *)

Definition exactSqrt (q : Q) : Q :=
  let r := Qred q in Z.sqrt (Qnum r) # Pos.sqrt (Qden r).

Definition exactCosDeg (x : Q) : Q :=
  if Qeq_bool x 0 then 1
  else if Qeq_bool x 60 then 1 # 2
  else if Qeq_bool x 90 then 0
  else if Qeq_bool x 180 then - 1
  else 0.

(** The distance from [p] to the ray from [o] along [d]: to the foot of the
    perpendicular when that lies on the ray, to [o] otherwise. *)
Definition exactDistanceToRay (p o : Point3) (d : Vec3) : Q :=
  let w := psub p o in
  let t := (v_x w * v_x d + v_y w * v_y d + v_z w * v_z d)
           / (v_x d * v_x d + v_y d * v_y d + v_z d * v_z d) in
  if Num.leb t 0 then
    exactSqrt (Num.square (v_x w) + Num.square (v_y w) + Num.square (v_z w))
  else
    let fx := p_x p - (p_x o + t * v_x d) in
    let fy := p_y p - (p_y o + t * v_y d) in
    let fz := p_z p - (p_z o + t * v_z d) in
    exactSqrt (Num.square fx + Num.square fy + Num.square fz).

Definition ExactMath : MathLib :=
  {| sqrt := exactSqrt;
     cosDeg := exactCosDeg;
     distanceToRay := exactDistanceToRay;
     kilometersToAU := fun x => x / 149597870 |}.

(** ** Example scenes *)

Definition exampleStar : Star := mkStar zeroPoint 696000 (483 # 100).

(** A star entry with a two-pixel disc and the given clip planes. *)
Definition exampleEntry (near far : Q) : RenderListEntry :=
  mkRenderListEntry None (Some exampleStar) false zeroPoint (mkVec3 0 0 0)
    0 696000 2 0 near far 0.

(** Three entries at depths 10..20, 25..40 and 100..500; camera space looks
    down the negative z axis. *)
Definition threeSeparate : list RenderListEntry :=
  [exampleEntry (-10) (-20); exampleEntry (-25) (-40); exampleEntry (-100) (-500)].


(** Two entries that merge: the second lies within the first. *)
Definition overlapNested : list RenderListEntry :=
  [exampleEntry (-10) (-100); exampleEntry (-15) (-60); exampleEntry (-200) (-300)].


(** Two separate entries and a third that starts nearer than the second
    and overlaps it. *)
Definition overlapNearer : list RenderListEntry :=
  [exampleEntry (-10) (-20); exampleEntry (-30) (-40); exampleEntry (-5) (-35)].

Definition circularOrbit : Orbit :=
  mkOrbit true 1 (0, 0) 100 (fun _ => zeroPoint) (fun _ _ _ => []).

(** A body of the given radius and class that stays at [pos]. *)
Definition exampleBody (addr : nat) (r : Q) (c : Classification) (pos : Point3)
    : Body :=
  mkBody addr r r 0 c InvalidResource None None circularOrbit (fun _ => true)
    (fun _ => pos) (fun _ _ _ => 10) exampleStar None.

(** A frustum test for centres on the view axis in front of the camera; it
    rejects every other sphere. *)
Definition axisFrustum (c : Point3) (r : Q) : FrustumAspect :=
  if Qeq_bool (p_x c) 0 && Qeq_bool (p_y c) 0 && Num.ltb (p_z c) 0
  then Inside else Outside.

(** A smooth planet of radius 2002000 seen from 1 km above its surface. *)
Definition grazedPlanet : Body :=
  exampleBody 1 2002000 Planet (mkPoint3 0 0 (-2002001)).

(** ** Properties and examples stated about the model *)

(** An entry that gets a depth bucket: its disc is larger than a pixel. *)
Definition large (e : RenderListEntry) : Prop := 1 < discSizeInPixels e.

(** The far/near ratio of an entry, as the code computes it. *)
Definition ratioWithin (M : Q) (e : RenderListEntry) : Prop :=
  farZ e / nearZ e <= M.

(** The buckets are in order when, for any two large entries the earlier
    bucket of which has the smaller index, every distance in the range of
    the first is nearer than every distance in the range of the second.
    Distances are the negated camera-space depths. *)
Definition bucketsOrdered (out : list RenderListEntry) : Prop :=
  forall a b, a ∈ out -> b ∈ out -> large a -> large b ->
    (depthBucket a < depthBucket b)%Z ->
    forall x y, - nearZ a <= x < - farZ a -> - nearZ b <= y < - farZ b -> x < y.

(** What holds before iteration [i] of the bucket loop over [l], when
    every bucket stays behind the one before it. *)
Record PartitionInv (M : Q) (l : list RenderListEntry) (i : nat)
    (st : DepthBuckets.State) : Prop := {
  inv_run : st = DepthBuckets.stateBefore M l i;
  inv_rest : forall j, (i <= j)%nat -> DepthBuckets.renderList st !! j = l !! j;
  inv_nb : (1 <= DepthBuckets.nDepthBuckets st)%Z;
  inv_first : (DepthBuckets.firstCoalesced st <= i)%nat;
  inv_bucket : forall j e, (j < i)%nat ->
    DepthBuckets.renderList st !! j = Some e -> large e ->
    (1 <= depthBucket e <= DepthBuckets.nDepthBuckets st - 1)%Z;
  inv_opener : (1 < DepthBuckets.nDepthBuckets st)%Z ->
    exists o, DepthBuckets.renderList st !! DepthBuckets.firstCoalesced st = Some o
      /\ large o /\ (DepthBuckets.firstCoalesced st < i)%nat
      /\ farZ o <= DepthBuckets.lastFar st
      /\ DepthBuckets.lastNear st <= nearZ o;
  inv_cur : forall j e o, (j < i)%nat ->
    DepthBuckets.renderList st !! j = Some e -> large e ->
    depthBucket e = (DepthBuckets.nDepthBuckets st - 1)%Z ->
    DepthBuckets.renderList st !! DepthBuckets.firstCoalesced st = Some o ->
    nearZ e = nearZ o /\ farZ e = farZ o;
  inv_old : forall j e o, (j < i)%nat ->
    DepthBuckets.renderList st !! j = Some e -> large e ->
    (depthBucket e < DepthBuckets.nDepthBuckets st - 1)%Z ->
    DepthBuckets.renderList st !! DepthBuckets.firstCoalesced st = Some o ->
    nearZ o <= farZ e;
  inv_prev : forall y,
    DepthBuckets.lastLargeBefore (DepthBuckets.firstCoalesced st)
      (DepthBuckets.renderList st) = Some y ->
    forall j e, (j < i)%nat ->
      DepthBuckets.renderList st !! j = Some e -> large e ->
      (depthBucket e < DepthBuckets.nDepthBuckets st - 1)%Z ->
      farZ y <= farZ e;
  inv_ord : forall j k ej ek, (j < i)%nat -> (k < i)%nat ->
    DepthBuckets.renderList st !! j = Some ej ->
    DepthBuckets.renderList st !! k = Some ek ->
    large ej -> large ek -> (depthBucket ej < depthBucket ek)%Z ->
    nearZ ek <= farZ ej;
  inv_wf : (1 < DepthBuckets.nDepthBuckets st)%Z ->
    DepthBuckets.lastFar st <= DepthBuckets.lastNear st;
  inv_group : forall j e, (j < i)%nat ->
    DepthBuckets.renderList st !! j = Some e -> large e ->
    ((DepthBuckets.firstCoalesced st <= j)%nat
     <-> depthBucket e = (DepthBuckets.nDepthBuckets st - 1)%Z)
}.

(** An entry made for a body that is not invisible. *)
Definition forVisibleBody (e : RenderListEntry) : Prop :=
  exists b, body e = Some b /\ getClassification b <> Invisible.

(** What a body and the bodies below it add to the list does not depend
    on the list, comes after it, and is made for visible bodies only. *)
Definition appendsVisible (f : list RenderListEntry -> list RenderListEntry) : Prop :=
  exists added, Forall forVisibleBody added /\ forall rl, f rl = rl ++ added.

(** The first entry of the cache that belongs to the body at [addr] holds
    the samples [T] and is marked for keeping. *)
Definition Cached (addr : nat) (T : list OrbitSample)
    (cache : list OrbitCache.CachedOrbit) : Prop :=
  exists k c, list_find (fun c => OrbitCache.body c = Some addr) cache = Some (k, c)
              /\ OrbitCache.trajectory c = T /\ OrbitCache.keep c = true.

(** The clamp to the interval from 0 to 1, as the branch for scaled discs
    of [StarRenderer::process] writes it out. *)
Definition clamp01 (x : Q) : Q :=
  if Num.ltb x 0 then 0 else if Num.ltb 1 x then 1 else x.

(** The render list of a one-planet system seen with a 120 degree field of
    view in an 800 by 600 window, after culling. *)
Definition grazedPlanetCulled : list RenderListEntry :=
  @Culler.cull ExactMath 800 600 120 (fun p => p) axisFrustum
    (@Builder.renderPlanetarySystem ExactMath (1 # 1000) 6 false exampleStar
       zeroPoint 0 [grazedPlanet] []).

(** A moon of radius 100 behind a planet, on the line from the sun. *)
Definition shadedMoon : Body := exampleBody 2 100 Moon (mkPoint3 200000 0 0).
Definition planetAt (r : Q) : Body := exampleBody 3 r Planet (mkPoint3 100000 0 0).

(** The body of scenario 1: radius 6371 at a distance of 1,000,000 km. *)
Definition scenarioEarth : Body := exampleBody 4 6371 Planet (mkPoint3 1000000 0 0).

(** A star renderer with faintest magnitude 6, saturation magnitude 1 and
    brightness scale 1/4, drawing points. *)
Definition exampleStarRenderer : StarBatcher.StarRenderer unit :=
  StarBatcher.mkStarRenderer unit zeroPoint (mkVec3 0 0 (-1)) [] []
    (StarBatcher.mkStarVertexBuffer unit 1024 [] [])
    45 (1 # 1000) (1 # 1000) 6 1 (1 # 4) 0 1000000 0 0 0 0 false 1.

(** ** More of [Renderer::render]: depth ranges *)

(** [depthRange = 1.0f / (float) nDepthBuckets] and the two arguments of
    [glDepthRange] for a bucket. *)
Definition depthRangeOf (nDepthBuckets : Z) : Q := 1 / inject_Z nDepthBuckets.

Definition glDepthRangeOf (nDepthBuckets depthBucket : Z) : Q * Q :=
  (inject_Z depthBucket * depthRangeOf nDepthBuckets,
   inject_Z (depthBucket + 1) * depthRangeOf nDepthBuckets).

(** Two entries stand for the same object with the same appearance: they
    agree on everything but the clip planes and the bucket. *)
Definition sameObject (e e' : RenderListEntry) : Prop :=
  body e' = body e /\ star e' = star e /\ isCometTail e' = isCometTail e
  /\ position e' = position e /\ sun e' = sun e /\ distance e' = distance e
  /\ radius e' = radius e /\ discSizeInPixels e' = discSizeInPixels e
  /\ appMag e' = appMag e.

(** What holds before iteration [i] of the bucket loop on any input. *)
Record BucketInv (M : Q) (i : nat) (st : DepthBuckets.State) : Prop := {
  bi_nb : (1 <= DepthBuckets.nDepthBuckets st)%Z;
  bi_first : (DepthBuckets.firstCoalesced st <= i)%nat;
  bi_range : forall j e, (j < i)%nat ->
    DepthBuckets.renderList st !! j = Some e -> large e ->
    (1 <= depthBucket e <= DepthBuckets.nDepthBuckets st - 1)%Z;
  bi_group : forall j e, (j < i)%nat ->
    DepthBuckets.renderList st !! j = Some e -> large e ->
    ((DepthBuckets.firstCoalesced st <= j)%nat
     <-> depthBucket e = (DepthBuckets.nDepthBuckets st - 1)%Z);
  bi_mono : forall j k ej ek, (j <= k)%nat -> (k < i)%nat ->
    DepthBuckets.renderList st !! j = Some ej ->
    DepthBuckets.renderList st !! k = Some ek ->
    large ej -> large ek -> (depthBucket ej <= depthBucket ek)%Z;
  bi_shared : forall j k ej ek, j <> k -> (j < i)%nat -> (k < i)%nat ->
    DepthBuckets.renderList st !! j = Some ej ->
    DepthBuckets.renderList st !! k = Some ek ->
    large ej -> large ek -> depthBucket ej = depthBucket ek ->
    nearZ ej = nearZ ek /\ farZ ej = farZ ek /\ farZ ej / nearZ ej < M
}.

(** Three entries that overlap one after the other; the third reaches
    farther than the first two. *)
Definition overlapChain : list RenderListEntry :=
  [exampleEntry (-10) (-20); exampleEntry (-15) (-100); exampleEntry (-18) (-25)].


(** A planet with rings, 10000 km in front of the camera. *)
Definition ringedPlanet : Body :=
  mkBody 6 6000 6000 0 Planet InvalidResource (Some (mkRingSystem 7000 14000))
    None circularOrbit (fun _ => true) (fun _ => mkPoint3 0 0 (-20000))
    (fun _ _ _ => 10) exampleStar None.

Definition ringedPlanetList : list RenderListEntry :=
  @Builder.renderPlanetarySystem ExactMath (1 # 1000) 6 false exampleStar
    zeroPoint 0 [ringedPlanet] [].

(** Whatever [f] adds to a render list comes after it, does not depend on
    it and satisfies [P]. *)
Definition appendsOnly (P : RenderListEntry -> Prop)
    (f : list RenderListEntry -> list RenderListEntry) : Prop :=
  exists added, Forall P added /\ forall rl, f rl = rl ++ added.

(** A faint planet with a moon that fills the view. *)
Definition faintPlanetWithMoon : Body :=
  mkBody 7 10 10 0 Planet InvalidResource None None circularOrbit (fun _ => true)
    (fun _ => mkPoint3 1000000 0 0) (fun _ _ _ => 10) exampleStar
    (Some [exampleBody 8 100000 Moon (mkPoint3 1000000 0 0)]).

(** ** Eclipse circumstances ([Renderer::renderPlanet]) *)

(** A [PlanetarySystem] as [renderPlanet] uses it: the body the system
    belongs to ([None] for the planets of a star) and its bodies. *)
Record PlanetarySystem := mkPlanetarySystem {
  getPrimaryBody : option Body;
  systemBodies : list Body
}.

Module EclipseUse.
Section EclipseUse.
Context `{MathLib}.

(** [discSizeInPixels] as [renderPlanet] computes it from the distance
    and the near plane it is given; [pixelSize] is the field of the
    renderer. *)
Definition planetDiscSize (pixelSize : Q) (body : Body)
    (distance nearPlaneDistance : Q) : Q :=
  let altitude := distance - getRadius body in
  getRadius body / (Num.max nearPlaneDistance altitude * pixelSize).

(** The block under "Calculate eclipse circumstances", which lies in the
    branch of [renderPlanet] for a disc larger than a pixel.  [system] is
    [body.getSystem ()]; the result is the list [eclipseShadows] after the
    block and whether [rp.eclipseShadows] was set. *)
Definition eclipseCircumstances (pixelSize : Q) (showEclipseShadows : bool)
    (system : option PlanetarySystem) (body : Body)
    (distance nearPlaneDistance now : Q)
    (eclipseShadows : list Eclipse.EclipseShadow)
    : list Eclipse.EclipseShadow * bool :=
  if Num.ltb 1 (planetDiscSize pixelSize body distance nearPlaneDistance) then
    if showEclipseShadows
       && negb (Classification_eqb (getClassification body) Invisible) then
      match system with
      | Some sys =>
        let eclipseShadows : list Eclipse.EclipseShadow := [] in
        let eclipseShadows :=
          match getPrimaryBody sys with
          | None =>
            match getSatellites body with
            | Some satellites =>
              foldl (fun l c => (Eclipse.testEclipse body c now l).2)
                eclipseShadows satellites
            | None => eclipseShadows
            end
          | Some planet =>
            let eclipseShadows :=
              (Eclipse.testEclipse body planet now eclipseShadows).2 in
            foldl (fun l c =>
                     if (bodyAddr c =? bodyAddr body)%nat then l
                     else (Eclipse.testEclipse body c now l).2)
              eclipseShadows (systemBodies sys)
          end in
        (eclipseShadows, negb (length eclipseShadows =? 0)%nat)
      | None => (eclipseShadows, false)
      end
    else (eclipseShadows, false)
  else (eclipseShadows, false).

(** The bodies the block tests as casters, in the order it tests them. *)
Definition casters (system : PlanetarySystem) (body : Body) : list Body :=
  match getPrimaryBody system with
  | None => default [] (getSatellites body)
  | Some planet =>
    planet :: filter (fun c => bodyAddr c <> bodyAddr body) (systemBodies system)
  end.

(** A caster that passes the guard of [testEclipse] and shades the body. *)
Definition shades (body : Body) (now : Q) (c : Body) : Prop :=
  Eclipse.casterAccepted body c && Eclipse.inShadow body c now = true.

Global Instance shades_dec body now c : Decision (shades body now c).
Proof. unfold shades. apply _. Defined.

End EclipseUse.
End EclipseUse.

(** A moon system: the planet of radius 5000 as primary, the shaded moon
    and a small second moon. *)
Definition moonSystem : PlanetarySystem :=
  mkPlanetarySystem (Some (planetAt 5000))
    [shadedMoon; exampleBody 9 1 Moon (mkPoint3 150000 0 0)].

(** The addresses of the bodies that own an entry of the orbit cache. *)
Definition cachedBodies (cache : list OrbitCache.CachedOrbit) : list nat :=
  omap OrbitCache.body cache.

(** A solar system with one planet, seen from 10 km above the star, and
    a renderer whose cache holds the orbit of a body that is not part of
    the system. *)
Definition onePlanetSystem : SolarSystem :=
  mkSolarSystem exampleStar (Some [exampleBody 3 1 Planet zeroPoint]).
Definition staleRenderer : OrbitCache.Renderer :=
  OrbitCache.mkRenderer [OrbitCache.mkCachedOrbit (Some 10%nat) [] true] [].
Definition exampleOrbitFrame : OrbitCache.Renderer :=
  @OrbitCache.renderFrameOrbits ExactMath 100 false 1 0 1 (fun _ => 1%Z) true
    (Some onePlanetSystem) None 0 (mkPoint3 0 0 10) staleRenderer.

(** A spacecraft trajectory valid from day 10 to day 20. *)
Definition probeOrbit : Orbit :=
  mkOrbit false (5 # 2) (10, 20) 100 (fun _ => zeroPoint)
    (fun start _ n => [mkOrbitSample start zeroPoint]).
Definition probe : Body :=
  mkBody 10 1 1 0 Spacecraft InvalidResource None None probeOrbit (fun _ => true)
    (fun _ => zeroPoint) (fun _ _ _ => 10) exampleStar None.

(** The same trajectory with a period of ten thousand million days. *)
Definition slowProbe : Body :=
  mkBody 11 1 1 0 Spacecraft InvalidResource None None
    (mkOrbit false 10000000000 (10, 20) 100 (fun _ => zeroPoint)
       (fun start _ n => [mkOrbitSample start zeroPoint]))
    (fun _ => true) (fun _ => zeroPoint) (fun _ _ _ => 10) exampleStar None.

(** ** The star pass ([Renderer::renderStars] and what sets it up) *)

Module StarPass.
Import StarBatcher.

(** [MaxScaledDiscStarSize] of render.cpp and the star styles. *)
Definition MaxScaledDiscStarSize : Q := 8.
Inductive StarStyle := FuzzyPointStars | PointStars | ScaledDiscStars.

Definition isScaledDiscs (s : StarStyle) : bool :=
  match s with ScaledDiscStars => true | _ => false end.

(** [Renderer::setFieldOfView]: the correction factor kept with the field
    of view. *)
Definition corrFacOf (fov : Q) : Q := (12 # 100) * fov / FOV * fov / FOV + 1.

(** The brightness scale chosen in [Renderer::render]. *)
Definition brightnessScaleOf (faintestMag saturationMag : Q) : Q :=
  if Num.leb 4 (faintestMag - saturationMag)
  then 1 / (faintestMag - saturationMag)
  else 1 # 4.

(** The fade of [renderBodyAsParticle]: how much of the particle is left
    when the disc of the object is [discSizeInPixels] wide. *)
Definition maxDiscSizeOf (starStyle : StarStyle) : Q :=
  if isScaledDiscs starStyle then MaxScaledDiscStarSize else 1.
Definition maxBlendDiscSizeOf (starStyle : StarStyle) : Q :=
  maxDiscSizeOf starStyle + 3.
Definition particleFade (starStyle : StarStyle) (discSizeInPixels : Q) : Q :=
  let maxDiscSize := maxDiscSizeOf starStyle in
  let maxBlendDiscSize := maxBlendDiscSizeOf starStyle in
  if Num.ltb maxDiscSize discSizeInPixels then
    let fade := (maxBlendDiscSize - discSizeInPixels)
                / (maxBlendDiscSize - maxDiscSize - 1) in
    if Num.ltb 1 fade then 1 else fade
  else 1.

Section StarPass.
Context `{MathLib}.
Variable Color : Type.
Variable getApparentColor : Star -> Color.
Variable clamp : Q -> Q.
Variables (kilometersToLightYears lightYearsToKilometers : Q -> Q).
Variable absToAppMag : Q -> Q -> Q.
Variable heliocentricPosition : Point3 -> Point3.

(** [StarVertexBuffer::render] and [StarVertexBuffer::finish]: the stars
    waiting in the buffer become a batch. *)
Definition render (b : StarVertexBuffer Color) : StarVertexBuffer Color :=
  match pending Color b with
  | [] => b
  | batch => mkStarVertexBuffer Color (capacity Color b) [] (drawn Color b ++ [batch])
  end.
Definition finish (b : StarVertexBuffer Color) : StarVertexBuffer Color :=
  render b.

(** What is in the buffer or has left it, in the order of arrival. *)
Definition starsOf (b : StarVertexBuffer Color) : list (StarVertex Color) :=
  concat (drawn Color b) ++ pending Color b.

(** The alpha of the particle an object is blended with in
    [renderBodyAsParticle], drawn when the disc is smaller than the blend
    size or haloes are asked for. *)
Definition particleAlpha (starStyle : StarStyle)
    (brightnessScale brightnessBias faintestMag appMag discSizeInPixels : Q)
    (useHaloes : bool) : option Q :=
  if Num.ltb discSizeInPixels (maxBlendDiscSizeOf starStyle) || useHaloes then
    let a := (faintestMag - appMag) * brightnessScale + brightnessBias in
    Some (clamp a * particleFade starStyle discSizeInPixels)
  else None.

(** The fields of [Renderer] that [renderStars] reads. *)
Record StarSettings := mkStarSettings {
  s_fov : Q;
  s_corrFac : Q;
  s_pixelSize : Q;
  s_brightnessScale : Q;
  s_brightnessBias : Q;
  s_faintestMag : Q;
  s_saturationMag : Q;
  s_distanceLimit : Q;
  s_starStyle : StarStyle
}.

(** The [StarRenderer] as [renderStars] fills it in before the stars are
    visited: the counters are those of the constructor, the glare
    particles have been cleared. *)
Definition starRendererOf (s : StarSettings) (observerPos : Point3)
    (viewNormal : Vec3) (renderList : list RenderListEntry)
    (starVertexBuffer : StarVertexBuffer Color) : StarRenderer Color :=
  let size := s_pixelSize s * (16 # 10) / s_corrFac s in
  let brightnessScale := s_brightnessScale s * s_corrFac s in
  mkStarRenderer Color observerPos viewNormal [] renderList starVertexBuffer
    (s_fov s) size (s_pixelSize s) (s_faintestMag s) (s_saturationMag s)
    (if isScaledDiscs (s_starStyle s) then brightnessScale * 2 else brightnessScale)
    (s_brightnessBias s) (s_distanceLimit s) 0 0 0 0
    (isScaledDiscs (s_starStyle s))
    (if isScaledDiscs (s_starStyle s) then size * MaxScaledDiscStarSize else 1).

(** The stars handed to [process], one call each, as the star database
    does for the visible ones, with their distance and apparent
    magnitude. *)
Definition visit (calls : list (Star * Q * Q)) (sr : StarRenderer Color)
    : StarRenderer Color :=
  foldl (fun sr c =>
           process Color getApparentColor clamp kilometersToLightYears
             lightYearsToKilometers absToAppMag heliocentricPosition
             c.1.1 c.1.2 c.2 sr) sr calls.

(** [renderStars] up to the drawing of the glare particles. *)
Definition renderStars (s : StarSettings) (observerPos : Point3)
    (viewNormal : Vec3) (calls : list (Star * Q * Q))
    (renderList : list RenderListEntry)
    (starVertexBuffer : StarVertexBuffer Color) : StarRenderer Color :=
  let sr := visit calls
              (starRendererOf s observerPos viewNormal renderList starVertexBuffer) in
  withCounts Color sr (nRendered Color sr) (nClose Color sr) (nBright Color sr)
    (nProcessed Color sr) (glareParticles Color sr) (StarBatcher.renderList Color sr)
    (finish (StarBatcher.starVertexBuffer Color sr)).

End StarPass.
End StarPass.

(** Settings of a star pass with a 45 degree field of view, and two
    calls: a star ten light years away and one beyond the distance limit. *)
Definition exampleStarSettings : StarPass.StarSettings :=
  StarPass.mkStarSettings 45 (StarPass.corrFacOf 45) (1 # 1000)
    (StarPass.brightnessScaleOf 6 1) 0 6 1 1000000 StarPass.FuzzyPointStars.
Definition exampleStarCalls : list (Star * Q * Q) :=
  [(exampleStar, 10, 5); (exampleStar, 2000000, 30)].
Definition exampleRenderStars : StarBatcher.StarRenderer unit :=
  @StarPass.renderStars ExactMath unit (fun _ => tt) clamp01
    (fun km => km / 9460730472580) (fun ly => ly * 9460730472580)
    (fun absMag _ => absMag) (fun p => p)
    exampleStarSettings zeroPoint (mkVec3 0 0 (-1)) exampleStarCalls []
    (StarBatcher.mkStarVertexBuffer unit 2048 [] []).

(** ** The render loop and the depth-sorted labels *)

Module Labels.
Section Labels.
Variable Color : Type.

(** [Renderer::Label]: [position] holds the window coordinates and, as
    its [z], the negated depth of the labelled point. *)
Record Label := mkLabel {
  text : string;
  color : Color;
  position : Point3
}.

(** The order [sort] puts the depth-sorted labels in: [operator<] on labels
    is [a.position.z > b.position.z]. *)
Definition before (a b : Label) : bool :=
  Num.ltb (p_z (position b)) (p_z (position a)).

(** [renderSortedLabels]: the labels drawn and the iterator returned;
    [font] tells whether the font is there. *)
Fixpoint renderSortedLabels (font : bool) (iter : list Label) (depth : Q)
    : list Label * list Label :=
  if font then
    match iter with
    | [] => ([], [])
    | l :: rest =>
      if Num.ltb depth (p_z (position l)) then
        let '(drawn, iter') := renderSortedLabels font rest depth in
        (l :: drawn, iter')
      else ([], iter)
    end
  else ([], iter).

(** What the render loop draws: a label, or an entry of the render list
    between the near and far plane given to [gluPerspective]. *)
Inductive Drawn :=
| DrewLabel (l : Label)
| DrewObject (e : RenderListEntry) (nearPlaneDistance farPlaneDistance : Q).

(** One turn of the loop over the render list: the state is what has been
    drawn, the label iterator and the clip planes in force. *)
Definition renderEntry (font : bool)
    (st : list Drawn * list Label * (Q * Q)) (e : RenderListEntry)
    : list Drawn * list Label * (Q * Q) :=
  let '(drawn, label, planes) := st in
  let '(labels, label) := renderSortedLabels font label (- farZ e) in
  let planes :=
    if Num.ltb 1 (discSizeInPixels e) then planeDistances e else planes in
  let object :=
    match body e, star e with
    | None, None => []
    | _, _ => [DrewObject e planes.1 planes.2]
    end in
  (drawn ++ (DrewLabel <$> labels) ++ object, label, planes).

(** The loop of [Renderer::render] over the sorted render list, from its
    last entry to its first, and the call for the labels that are left. *)
Definition renderLoop (font : bool) (renderList : list RenderListEntry)
    (depthSortedLabels : list Label) : list Drawn :=
  let nearPlaneDistance := 1 in
  let farPlaneDistance := 10 in
  let '(drawn, label, _) :=
    foldl (renderEntry font)
      ([], depthSortedLabels, (nearPlaneDistance, farPlaneDistance))
      (rev renderList) in
  drawn ++ (DrewLabel <$> (renderSortedLabels font label 0).1).

Definition labelsOf (drawn : list Drawn) : list Label :=
  omap (fun d => match d with DrewLabel l => Some l | _ => None end) drawn.
Definition objectsOf (drawn : list Drawn) : list RenderListEntry :=
  omap (fun d => match d with DrewObject e _ _ => Some e | _ => None end) drawn.

(** Labels in the order [sort] leaves them in: farthest first. *)
Fixpoint depthSorted (labels : list Label) : Prop :=
  match labels with
  | [] => True
  | a :: rest =>
    Forall (fun b => p_z (position b) <= p_z (position a)) rest /\ depthSorted rest
  end.

(** An entry that is drawn: it has a body or a star. *)
Definition present (e : RenderListEntry) : Prop :=
  is_Some (body e) \/ is_Some (star e).

(** Clip planes the depth buffer can take: the near plane is not closer
    than [MinNearPlaneDistance] and the far plane at most [MaxFarNearRatio]
    times as far. *)
Definition planesWithinRatio (nearPlaneDistance farPlaneDistance : Q) : Prop :=
  MinNearPlaneDistance <= nearPlaneDistance
  /\ farPlaneDistance / nearPlaneDistance <= MaxFarNearRatio.

(** No label drawn after an object lies beyond the far side of that
    object. *)
Fixpoint occlusionOrdered (drawn : list Drawn) : Prop :=
  match drawn with
  | [] => True
  | DrewObject e _ _ :: rest =>
    Forall (fun l => p_z (position l) <= - farZ e) (labelsOf rest)
    /\ occlusionOrdered rest
  | DrewLabel _ :: rest => occlusionOrdered rest
  end.

End Labels.
End Labels.

(** Three labels, farthest first, the last one behind the viewer. *)
Definition farLabel : Labels.Label unit :=
  Labels.mkLabel unit "far" tt (mkPoint3 0 0 50).
Definition nearLabel : Labels.Label unit :=
  Labels.mkLabel unit "near" tt (mkPoint3 0 0 5).
Definition behindLabel : Labels.Label unit :=
  Labels.mkLabel unit "behind" tt (mkPoint3 0 0 (-3)).
Definition exampleLabels : list (Labels.Label unit) :=
  [farLabel; nearLabel; behindLabel].

(** ** Elliptical orbits (orbit.cpp) *)

Module EllipticalOrbit.

Record EllipticalOrbit := mkEllipticalOrbit {
  semiMajorAxis : Q;
  eccentricity : Q;
  inclination : Q;
  ascendingNode : Q;
  argOfPeriapsis : Q;
  meanAnomalyAtEpoch : Q;
  period : Q;
  epoch : Q
}.

Section EllipticalOrbit.
Context `{MathLib}.
(** [sin], [cos] and [PI] of <math.h> and celmath/mathlib.h. *)
Variables (sin cos : Q -> Q) (PI : Q).
(** [solve_iteration_fixed (f, x0, n).first] of celmath/solve.h. *)
Variable solve_iteration_fixed : (Q -> Q) -> Q -> nat -> Q.
(** [Mat3d::yrotation (ascendingNode) * Mat3d::xrotation (inclination) *
    Mat3d::yrotation (argOfPeriapsis)] applied to a point. *)
Variable rotate : Q -> Q -> Q -> Point3 -> Point3.

Definition SolveKeplerFunc1 (ecc M x : Q) : Q := M + ecc * sin x.
Definition SolveKeplerFunc2 (ecc M x : Q) : Q :=
  x + (M + ecc * sin x - x) / (1 - ecc * cos x).

(** The eccentric anomaly [positionAtTime] works with at time [t]. *)
Definition eccentricAnomaly (o : EllipticalOrbit) (t : Q) : Q :=
  let t := t - epoch o in
  let meanMotion := 2 * PI / period o in
  let meanAnomaly := meanAnomalyAtEpoch o + t * meanMotion in
  if Qeq_bool (eccentricity o) 0 then meanAnomaly
  else if Num.ltb (eccentricity o) (2 # 10) then
    solve_iteration_fixed (SolveKeplerFunc1 (eccentricity o) meanAnomaly)
      meanAnomaly 5
  else if Num.ltb (eccentricity o) (98 # 100) then
    solve_iteration_fixed (SolveKeplerFunc2 (eccentricity o) meanAnomaly)
      meanAnomaly 6
  else meanAnomaly.

(** The point [Point3d (x, 0, z)] in the plane of the orbit that
    [positionAtTime] rotates into place. *)
Definition positionInPlane (o : EllipticalOrbit) (t : Q) : Point3 :=
  let eccAnomaly := eccentricAnomaly o t in
  let x := semiMajorAxis o * (cos eccAnomaly - eccentricity o) in
  let z := semiMajorAxis o * sqrt (1 - Num.square (eccentricity o))
           * - sin eccAnomaly in
  mkPoint3 x 0 z.

(** The offset from the barycentre. *)
Definition positionAtTime (o : EllipticalOrbit) (t : Q) : Point3 :=
  rotate (ascendingNode o) (inclination o) (argOfPeriapsis o) (positionInPlane o t).

Definition getPeriod (o : EllipticalOrbit) : Q := period o.

End EllipticalOrbit.


End EllipticalOrbit.




(** * Properties *)

(** ** Comparisons *)

Lemma ltb_reflect (a b : Q) : reflect (a < b) (Num.ltb a b).
Proof.
  unfold Num.ltb. destruct (Qle_bool b a) eqn:E; constructor.
  - apply Qle_bool_iff in E. lra.
  - apply Qnot_le_lt. intros Hle. apply Qle_bool_iff in Hle. congruence.
Qed.

Lemma leb_reflect (a b : Q) : reflect (a <= b) (Num.leb a b).
Proof.
  unfold Num.leb. destruct (Qle_bool a b) eqn:E; constructor.
  - now apply Qle_bool_iff.
  - intros Hle. apply Qle_bool_iff in Hle. congruence.
Qed.

(** ** Loops over an index range *)

Lemma foldl_seq_invariant {A} (f : A -> nat -> A) (P : nat -> A -> Prop) a n :
  P 0%nat a ->
  (forall i s, (i < n)%nat -> P i s -> P (S i) (f s i)) ->
  P n (foldl f a (seq 0 n)).
Proof.
  intros H0 Hstep. induction n as [|n IH].
  - exact H0.
  - rewrite seq_S, foldl_app. simpl. apply Hstep; [lia|].
    apply IH. intros i s Hi. apply Hstep. lia.
Qed.

Lemma lookup_alter_range {A} (g : A -> A) (l : list A) (a k j : nat) :
  foldl (fun l j => alter g j l) l (seq a k) !! j
  = if bool_decide (a <= j < a + k)%nat then g <$> l !! j else l !! j.
Proof.
  revert a l. induction k as [|k IH]; intros a l; simpl.
  - rewrite bool_decide_eq_false_2 by lia. reflexivity.
  - rewrite IH. destruct (decide (j = a)) as [->|Hne].
    + rewrite bool_decide_eq_false_2 by lia.
      rewrite bool_decide_eq_true_2 by lia.
      apply list_lookup_alter_eq.
    + rewrite list_lookup_alter_ne by congruence.
      destruct (decide (S a <= j < S a + k)%nat).
      * rewrite !bool_decide_eq_true_2 by lia. reflexivity.
      * rewrite !bool_decide_eq_false_2 by lia. reflexivity.
Qed.

Lemma lookup_coalesce first i n f l j :
  DepthBuckets.coalesce first i n f l !! j
  = if bool_decide (first <= j <= i)%nat
    then (fun e => setNearZ n (setFarZ f e)) <$> l !! j else l !! j.
Proof.
  unfold DepthBuckets.coalesce. rewrite lookup_alter_range.
  destruct (decide (first <= j <= i)%nat).
  - rewrite !bool_decide_eq_true_2 by lia. reflexivity.
  - rewrite !bool_decide_eq_false_2 by lia. reflexivity.
Qed.

(** ** The depth partitioner *)

Section Partition.
Import DepthBuckets.
Variable M : Q.

(** The three ways an iteration on a large entry can go. *)
Lemma step_small st i e :
  renderList st !! i = Some e -> ~ large e -> step M st i = st.
Proof.
  intros He Hs. unfold step. rewrite He.
  destruct (ltb_reflect 1 (discSizeInPixels e)) as [Hl|_]; [|reflexivity].
  contradiction.
Qed.

Lemma step_cases st i e :
  renderList st !! i = Some e -> large e ->
  (step M st i
     = mkState (nDepthBuckets st + 1) (nearZ e) (farZ e) i
         (alter (setDepthBucket (nDepthBuckets st + 1 - 1)) i (renderList st))
   /\ (nDepthBuckets st = 1%Z \/ nearZ e <= lastFar st
       \/ ~ Num.min (lastFar st) (farZ e) / Num.max (lastNear st) (nearZ e) < M))
  \/ (step M st i
        = mkState (nDepthBuckets st) (lastNear st) (lastFar st) (firstCoalesced st)
            (alter (setDepthBucket (nDepthBuckets st - 1)) i
               (coalesce (firstCoalesced st) i
                  (Num.max (lastNear st) (nearZ e))
                  (Num.min (lastFar st) (farZ e)) (renderList st)))
      /\ nDepthBuckets st <> 1%Z /\ lastFar st < nearZ e
      /\ Num.min (lastFar st) (farZ e) / Num.max (lastNear st) (nearZ e) < M).
Proof.
  intros He Hl. unfold step. rewrite He.
  destruct (ltb_reflect 1 (discSizeInPixels e)) as [_|Hn]; [|contradiction].
  destruct (Z.eqb_spec (nDepthBuckets st) 1) as [E1|E1]; simpl.
  { left. split; [reflexivity | now left]. }
  destruct (leb_reflect (nearZ e) (lastFar st)) as [Hle|Hgt]; simpl.
  { left. split; [reflexivity | right; now left]. }
  destruct (ltb_reflect (Num.min (lastFar st) (farZ e)
                         / Num.max (lastNear st) (nearZ e)) M) as [Hr|Hr]; simpl.
  - right. repeat split; try assumption. lra.
  - left. split; [reflexivity | right; now right].
Qed.

Lemma length_coalesce first i n f l : length (coalesce first i n f l) = length l.
Proof.
  unfold coalesce. generalize (seq first (S i - first)). intros js.
  revert l. induction js as [|j js IH]; intros l; simpl; [reflexivity|].
  rewrite IH. apply length_alter.
Qed.

Lemma step_length st i : length (renderList (step M st i)) = length (renderList st).
Proof.
  unfold step. destruct (renderList st !! i) as [e|] eqn:He; [|reflexivity].
  destruct (Num.ltb 1 (discSizeInPixels e)); [|reflexivity].
  destruct ((nDepthBuckets st =? 1)%Z || Num.leb (nearZ e) (lastFar st)); simpl.
  - now rewrite length_alter.
  - destruct (Num.ltb _ M); simpl; rewrite length_alter; [|reflexivity].
    apply length_coalesce.
Qed.

(** What an iteration leaves at an index, in terms of what was there. *)
Lemma lookup_step st i j e' :
  renderList (step M st i) !! j = Some e' ->
  exists e0, renderList st !! j = Some e0
    /\ discSizeInPixels e' = discSizeInPixels e0
    /\ ((nearZ e' = nearZ e0 /\ farZ e' = farZ e0)
        \/ (exists e, renderList st !! i = Some e /\ large e
             /\ nDepthBuckets st <> 1%Z /\ lastFar st < nearZ e
             /\ (firstCoalesced st <= j <= i)%nat
             /\ nearZ e' = Num.max (lastNear st) (nearZ e)
             /\ farZ e' = Num.min (lastFar st) (farZ e)
             /\ farZ e' / nearZ e' < M)).
Proof.
  intros Hj. destruct (renderList st !! i) as [e|] eqn:He.
  2:{ unfold step in Hj. rewrite He in Hj. exists e'. auto. }
  destruct (ltb_reflect 1 (discSizeInPixels e)) as [Hl|Hs].
  2:{ rewrite (step_small st i e He Hs) in Hj. exists e'. auto. }
  destruct (step_cases st i e He Hl) as [[Hst _]|(Hst & Hn & Hov & Hr)];
    rewrite Hst in Hj; simpl in Hj; rewrite list_lookup_alter in Hj.
  - destruct (decide (i = j)) as [<-|Hne].
    + rewrite He in Hj. simpl in Hj. injection Hj as <-. exists e. auto.
    + exists e'. auto.
  - assert (Hc : forall x, coalesce (firstCoalesced st) i
                   (Num.max (lastNear st) (nearZ e))
                   (Num.min (lastFar st) (farZ e)) (renderList st) !! j = Some x ->
                 exists e0, renderList st !! j = Some e0
                   /\ discSizeInPixels x = discSizeInPixels e0
                   /\ depthBucket x = depthBucket e0
                   /\ ((nearZ x = nearZ e0 /\ farZ x = farZ e0)
                       \/ ((firstCoalesced st <= j <= i)%nat
                           /\ nearZ x = Num.max (lastNear st) (nearZ e)
                           /\ farZ x = Num.min (lastFar st) (farZ e)))).
    { intros x Hx. rewrite lookup_coalesce in Hx.
      destruct (decide (firstCoalesced st <= j <= i)%nat) as [Hin|Hout].
      - rewrite bool_decide_eq_true_2 in Hx by assumption.
        destruct (renderList st !! j) as [e0|]; [|discriminate].
        simpl in Hx. injection Hx as <-. exists e0. simpl.
        repeat (split; [reflexivity|]). right. auto.
      - rewrite bool_decide_eq_false_2 in Hx by assumption.
        exists x. auto 10. }
    destruct (decide (i = j)) as [<-|Hne].
    + destruct (coalesce _ _ _ _ _ !! i) as [x|] eqn:Hx; [|discriminate].
      simpl in Hj. injection Hj as <-.
      destruct (Hc x eq_refl) as (e0 & H0 & Hd & _ & [Hsame|(Hin & Hnr & Hfr)]);
        exists e0; simpl; (split; [assumption|]); (split; [assumption|]).
      * left. assumption.
      * right. exists e. rewrite Hnr, Hfr. auto 10.
    + destruct (Hc e' Hj) as (e0 & H0 & Hd & _ & [Hsame|(Hin & Hnr & Hfr)]);
        exists e0; (split; [assumption|]); (split; [assumption|]).
      * left. assumption.
      * right. exists e. rewrite Hnr, Hfr. auto 10.
Qed.

Lemma step_ratio st i :
  (forall j e, renderList st !! j = Some e -> large e -> ratioWithin M e) ->
  forall j e, renderList (step M st i) !! j = Some e -> large e -> ratioWithin M e.
Proof.
  intros Hall j e' Hj Hl.
  destruct (lookup_step st i j e' Hj) as (e0 & H0 & Hd & [[Hn Hf]|Hco]).
  - unfold ratioWithin. rewrite Hn, Hf. apply (Hall j e0 H0).
    unfold large in *. now rewrite <- Hd.
  - destruct Hco as (e & _ & _ & _ & _ & _ & _ & _ & Hlt).
    unfold ratioWithin. lra.
Qed.

Lemma partition_ratio l :
  (forall e, e ∈ l -> large e -> ratioWithin M e) ->
  forall e, e ∈ renderList (partition M l) -> large e -> ratioWithin M e.
Proof.
  intros Hin e He Hl. apply list_elem_of_lookup in He as [j Hj].
  revert j e Hj Hl. unfold partition.
  apply (foldl_seq_invariant (step M)
           (fun _ st => forall j e, renderList st !! j = Some e ->
                                    large e -> ratioWithin M e)).
  - simpl. intros j e Hj. apply Hin. now apply list_elem_of_lookup_2 in Hj.
  - intros i s _ Hs. now apply step_ratio.
Qed.
End Partition.

(** ** Order of the buckets *)

Section Order.
Import DepthBuckets.
Variable M : Q.
Variable l : list RenderListEntry.

Hypothesis wellFormed : forall e, e ∈ l -> large e -> farZ e <= nearZ e.
Hypothesis ratioRun : everyTest (ratioPasses M) M l = true.
Hypothesis behindRun : everyTest keepsBehind M l = true.

Local Abbreviation Inv := (PartitionInv M l).













End Order.

Lemma partition_length M l :
  length (DepthBuckets.renderList (DepthBuckets.partition M l)) = length l.
Proof.
  unfold DepthBuckets.partition.
  apply (foldl_seq_invariant (DepthBuckets.step M)
           (fun _ st => length (DepthBuckets.renderList st) = length l)).
  - reflexivity.
  - intros i s _ Hs. now rewrite step_length.
Qed.




(** The condition on the bucket before cannot be dropped: with no failed
    ratio test, an entry that is coalesced and starts nearer than the far
    plane of the bucket before pulls its bucket over that one.  The
    distance 15 lies in both. *)
Lemma buckets_overlap_after_nearer_entry :
  DepthBuckets.everyTest (DepthBuckets.ratioPasses MaxFarNearRatio)
    MaxFarNearRatio overlapNearer = true
  /\ DepthBuckets.everyTest DepthBuckets.keepsBehind MaxFarNearRatio overlapNearer
     = false
  /\ ~ bucketsOrdered
        (DepthBuckets.renderList
           (DepthBuckets.partition MaxFarNearRatio overlapNearer)).
Proof.
  split; [vm_compute; reflexivity|]. split; [vm_compute; reflexivity|].
  intros H.
  assert (Hout : DepthBuckets.renderList
                   (DepthBuckets.partition MaxFarNearRatio overlapNearer)
                 = [setDepthBucket 1 (exampleEntry (-10) (-20));
                    setDepthBucket 2 (exampleEntry (-5) (-40));
                    setDepthBucket 2 (exampleEntry (-5) (-40))])
    by (vm_compute; reflexivity).
  rewrite Hout in H.
  specialize (H (setDepthBucket 1 (exampleEntry (-10) (-20)))
                (setDepthBucket 2 (exampleEntry (-5) (-40)))).
  assert (H15 : 15 < 15).
  { apply H.
    - apply elem_of_cons. now left.
    - apply elem_of_cons. right. apply elem_of_cons. now left.
    - vm_compute. reflexivity.
    - vm_compute. reflexivity.
    - simpl. lia.
    - simpl. lra.
    - simpl. lra. }
  lra.
Qed.

(** The planes handed to [gluPerspective] never exceed the ratio, whatever
    the bucket loop left in the entry. *)
Lemma planeDistances_ratio (e : RenderListEntry) :
  (planeDistances e).2 / (planeDistances e).1 <= MaxFarNearRatio
  /\ MinNearPlaneDistance <= (planeDistances e).1.
Proof.
  unfold planeDistances.
  set (n := if Num.ltb (nearZ e * - (9 # 10)) MinNearPlaneDistance
            then MinNearPlaneDistance else nearZ e * - (9 # 10)).
  assert (Hn : MinNearPlaneDistance <= n).
  { subst n. destruct (ltb_reflect (nearZ e * - (9 # 10)) MinNearPlaneDistance); lra. }
  cbv zeta. simpl.
  destruct (ltb_reflect MaxFarNearRatio (farZ e * - (15 # 10) / n)) as [Hgt|Hle];
    simpl; split; try assumption; try lra.
  assert (Heq : n * MaxFarNearRatio / n == MaxFarNearRatio).
  { field. unfold MinNearPlaneDistance in Hn. lra. }
  rewrite Heq. lra.
Qed.

(** C2, as amended.  Every entry that has a bucket leaves the bucket loop
    with far / near at most [MaxFarNearRatio], provided every such entry
    entered the loop that way; and whatever the loop left in an entry, the
    planes the renderer derives from it for the projection keep the ratio. *)
Theorem bucket_ratio_bounded (l : list RenderListEntry) :
  Forall (fun e => large e -> farZ e / nearZ e <= MaxFarNearRatio) l ->
  let out := DepthBuckets.renderList (DepthBuckets.partition MaxFarNearRatio l) in
  Forall (fun e => large e -> farZ e / nearZ e <= MaxFarNearRatio) out
  /\ Forall (fun e => (planeDistances e).2 / (planeDistances e).1
                      <= MaxFarNearRatio) out.
Proof.
  intros Hin out. split.
  - apply Forall_forall. intros e He Hl.
    apply (partition_ratio MaxFarNearRatio l); [|assumption..].
    intros e0 He0. apply (proj1 (Forall_forall _ _) Hin e0 He0).
  - apply Forall_forall. intros e _. apply planeDistances_ratio.
Qed.

Lemma bucket_ratio_bounded_witness :
  Forall (fun e => large e -> farZ e / nearZ e <= MaxFarNearRatio)
    (DepthBuckets.renderList (DepthBuckets.partition MaxFarNearRatio overlapNested)).
Proof.
  apply (bucket_ratio_bounded overlapNested).
  repeat constructor; intros _; vm_compute; discriminate.
Defined.

(** C2, as stated, fails: a smooth planet seen from just above its surface
    leaves the culler with near plane 0.3 and far plane 2201.1, gets a
    bucket of its own and keeps the ratio 7337. *)
Lemma bucket_ratio_exceeded_by_convex_body :
  ~ Forall (fun e => large e -> farZ e / nearZ e <= MaxFarNearRatio)
      (DepthBuckets.renderList
         (DepthBuckets.partition MaxFarNearRatio grazedPlanetCulled)).
Proof.
  intros H.
  assert (Hout : exists e,
             DepthBuckets.renderList
               (DepthBuckets.partition MaxFarNearRatio grazedPlanetCulled) = [e]
             /\ Num.ltb 1 (discSizeInPixels e) = true
             /\ depthBucket e = 1%Z
             /\ Qeq_bool (farZ e / nearZ e) 7337 = true).
  { eexists. split; [vm_compute; reflexivity|]. vm_compute. auto. }
  destruct Hout as (e & Hl & Hd & _ & Hr). rewrite Hl in H.
  apply Forall_cons in H as [H _].
  destruct (ltb_reflect 1 (discSizeInPixels e)) as [Hd'|]; [|discriminate].
  specialize (H Hd'). apply Qeq_bool_iff in Hr. rewrite Hr in H.
  unfold MaxFarNearRatio in H. lra.
Qed.

Section CullerBounds.
Context `{MathLib}.
Variables (windowWidth windowHeight fov : Q).
Variable viewMat : Point3 -> Point3.

(** The culler bounds the ratio of an entry that is not convex: a body
    with rings or with a mesh. *)
Lemma clipEntry_ratio_not_convex (e : RenderListEntry) :
  (Culler.bounds e).1.1.1 = false ->
  let e' := Culler.clipEntry windowWidth windowHeight fov viewMat e in
  farZ e' / nearZ e' <= MaxFarNearRatio.
Proof.
  intros Hc. unfold Culler.clipEntry.
  destruct (Culler.bounds e) as [[[convex radius] cullRadius] cloudHeight].
  simpl in Hc. subst convex. simpl negb. cbv iota.
  match goal with
  | |- context [if Num.ltb ?a ?b then setNearZ _ e else _] =>
      destruct (Num.ltb a b)
  end.
  all: match goal with
       | |- context [Num.ltb MaxFarNearRatio ?r] =>
           destruct (ltb_reflect MaxFarNearRatio r) as [Hgt|Hle]
       end.
  all: cbv zeta; simpl; simpl in *; try lra.
  all: unfold MaxFarNearRatio in *.
  all: match goal with
       | |- ?f / (?f / 2000) <= 2000 =>
           destruct (Qeq_dec f 0) as [E|NE];
             [rewrite E; vm_compute; discriminate
             | assert (Heq : f / (f / 2000) == 2000) by (field; auto);
               rewrite Heq; lra]
       end.
Qed.
End CullerBounds.

(** C6, as amended.  The three entries of the scenario keep their ranges
    and get the buckets 1, 2 and 3, one each; the bucket count ends at 4,
    because it starts at 1 and no entry is ever given bucket 0. *)
Theorem three_separate_entries :
  let out := DepthBuckets.partition 10 threeSeparate in
  map depthBucket (DepthBuckets.renderList out) = [1; 2; 3]%Z
  /\ map (fun e => (nearZ e, farZ e)) (DepthBuckets.renderList out)
     = [(-10, -20); (-25, -40); (-100, -500)]
  /\ DepthBuckets.nDepthBuckets out = 4%Z.
Proof. vm_compute. auto. Qed.

(** C6, as stated, fails on the count: the loop ends with four buckets. *)
Lemma three_separate_entries_count :
  DepthBuckets.nDepthBuckets (DepthBuckets.partition 10 threeSeparate) <> 3%Z.
Proof. vm_compute. discriminate. Qed.

(** ** The eclipse test *)

Lemma Classification_eqb_eq (a b : Classification) :
  Classification_eqb a b = true <-> a = b.
Proof. destruct a, b; simpl; split; intros; congruence. Qed.

(** C3.  A caster smaller than 1% of the receiver, an invisible caster and
    a caster with a mesh are skipped: the test answers false and the list
    of shadows is returned as it was. *)
Theorem testEclipse_skips_caster `{MathLib} (receiver caster : Body) (now : Q)
    (eclipseShadows : list Eclipse.EclipseShadow) :
  getRadius caster * 100 < getRadius receiver
  \/ getClassification caster = Invisible
  \/ getModel caster <> InvalidResource ->
  Eclipse.testEclipse receiver caster now eclipseShadows = (false, eclipseShadows).
Proof.
  intros Hskip. unfold Eclipse.testEclipse.
  assert (Hno : Eclipse.casterAccepted receiver caster = false).
  { unfold Eclipse.casterAccepted.
    destruct Hskip as [Hsmall|[Hinv|Hmesh]].
    - destruct (leb_reflect (getRadius receiver) (getRadius caster * 100));
        [lra | reflexivity].
    - rewrite Hinv. simpl. now rewrite andb_false_r.
    - destruct (Z.eqb_spec (getModel caster) InvalidResource);
        [contradiction | now rewrite andb_false_r]. }
  now rewrite Hno.
Qed.

Lemma testEclipse_skips_caster_witness :
  @Eclipse.testEclipse ExactMath (planetAt 20000) shadedMoon 0 [] = (false, []).
Proof.
  apply (@testEclipse_skips_caster ExactMath (planetAt 20000) shadedMoon 0 []).
  left. vm_compute. reflexivity.
Defined.

(** C4, as stated, fails: the caster 50 times the size of the receiver
    passes the size test as well, and in this scene it casts a shadow just
    as the caster 200 times the size of the receiver does. *)
Lemma caster_50_times_casts_shadow :
  Eclipse.casterAccepted shadedMoon (planetAt 5000) = true
  /\ @Eclipse.testEclipse ExactMath shadedMoon (planetAt 5000) 0 []
     = (true, [@Eclipse.shadowOf ExactMath shadedMoon (planetAt 5000) 0])
  /\ @Eclipse.testEclipse ExactMath shadedMoon (planetAt 20000) 0 []
     = (true, [@Eclipse.shadowOf ExactMath shadedMoon (planetAt 20000) 0]).
Proof. repeat split; vm_compute; reflexivity. Qed.

(** C4, as amended.  A caster 200 times and a caster 50 times the size of
    the receiver both pass the size test, which asks for 1% of the
    receiver's radius; when they are visible ellipsoids each casts a shadow
    exactly when the receiver is within [R] of its shadow axis. *)
Theorem casters_200_and_50_both_accepted `{MathLib} (receiver c200 c50 : Body)
    (now : Q) (eclipseShadows : list Eclipse.EclipseShadow) :
  0 < getRadius receiver ->
  getRadius c200 == 200 * getRadius receiver ->
  getRadius c50 == 50 * getRadius receiver ->
  getClassification c200 <> Invisible -> getClassification c50 <> Invisible ->
  getModel c200 = InvalidResource -> getModel c50 = InvalidResource ->
  Eclipse.casterAccepted receiver c200 = true
  /\ Eclipse.casterAccepted receiver c50 = true
  /\ forall c, c = c200 \/ c = c50 ->
       Eclipse.testEclipse receiver c now eclipseShadows
       = if Eclipse.inShadow receiver c now
         then (true, eclipseShadows ++ [Eclipse.shadowOf receiver c now])
         else (false, eclipseShadows).
Proof.
  intros Hr H200 H50 Hv200 Hv50 Hm200 Hm50.
  assert (Hacc : forall c k, 1 <= k -> getRadius c == k * getRadius receiver ->
            getClassification c <> Invisible -> getModel c = InvalidResource ->
            Eclipse.casterAccepted receiver c = true).
  { intros c k Hk Hc Hv Hm. unfold Eclipse.casterAccepted.
    rewrite Hm. simpl. rewrite andb_true_r. apply andb_true_intro. split.
    - destruct (leb_reflect (getRadius receiver) (getRadius c * 100)) as [|Hn];
        [reflexivity|]. exfalso. apply Hn. rewrite Hc. nra.
    - destruct (Classification_eqb (getClassification c) Invisible) eqn:E;
        [|reflexivity]. apply Classification_eqb_eq in E. contradiction. }
  assert (A200 := Hacc c200 200 ltac:(lra) H200 Hv200 Hm200).
  assert (A50 := Hacc c50 50 ltac:(lra) H50 Hv50 Hm50).
  split; [assumption|]. split; [assumption|].
  intros c [->| ->]; unfold Eclipse.testEclipse; [rewrite A200 | rewrite A50];
    reflexivity.
Qed.

Lemma casters_200_and_50_both_accepted_witness :
  Eclipse.casterAccepted shadedMoon (planetAt 20000) = true
  /\ Eclipse.casterAccepted shadedMoon (planetAt 5000) = true.
Proof.
  destruct (@casters_200_and_50_both_accepted ExactMath shadedMoon
              (planetAt 20000) (planetAt 5000) 0 [])
    as (H1 & H2 & _); try (vm_compute; reflexivity); try discriminate.
  split; assumption.
Defined.

(** ** The render-list builder *)

(** Induction on a body and the bodies below it. *)
Section BodyInduction.
Variable P : Body -> Prop.
Hypothesis below : forall b,
  match getSatellites b with Some l => Forall P l | None => True end -> P b.

Lemma Body_tree_ind : forall b, P b.
Proof.
  fix IH 1. intros b. apply below.
  destruct b as [? ? ? ? ? ? ? ? ? ? ? ? ? sats]. simpl.
  destruct sats as [l|]; [|exact I].
  revert l. fix IHl 1. intros [|s rest]; constructor.
  - apply IH.
  - apply IHl.
Qed.
End BodyInduction.

Section BuilderFacts.
Context `{MathLib}.
Variables (pixelSize faintestPlanetMag : Q) (showCometTails : bool).
Variables (theSun : Star) (observerPos : Point3) (now : Q).

Local Abbreviation renderBody :=
  (Builder.renderBody pixelSize faintestPlanetMag showCometTails theSun
     observerPos now).
Local Abbreviation renderPlanetarySystem :=
  (Builder.renderPlanetarySystem pixelSize faintestPlanetMag showCometTails
     theSun observerPos now).
Local Abbreviation included :=
  (Builder.included pixelSize faintestPlanetMag theSun observerPos now).
Local Abbreviation bodyEntry := (Builder.bodyEntry pixelSize theSun observerPos now).

Lemma appendsVisible_id : appendsVisible (fun rl => rl).
Proof. exists []. split; [constructor|]. intros rl. now rewrite app_nil_r. Qed.

Lemma appendsVisible_compose f g :
  appendsVisible f -> appendsVisible g -> appendsVisible (fun rl => g (f rl)).
Proof.
  intros (a & Ha & Hf) (b & Hb & Hg). exists (a ++ b). split.
  - now apply Forall_app.
  - intros rl. now rewrite Hf, Hg, app_assoc.
Qed.

Lemma appendsVisible_loop (l : list Body) :
  Forall (fun b => appendsVisible (renderBody b)) l ->
  appendsVisible
    ((fix loop (l : list Body) (renderList : list RenderListEntry) :=
        match l with
        | [] => renderList
        | s :: rest => loop rest (renderBody s renderList)
        end) l).
Proof.
  induction 1 as [|s rest Hs _ IH].
  - apply appendsVisible_id.
  - apply (appendsVisible_compose (renderBody s)); assumption.
Qed.

Lemma included_visible b : included b = true -> getClassification b <> Invisible.
Proof.
  unfold Builder.included. intros Hi Hc. rewrite Hc in Hi. simpl in Hi.
  now rewrite andb_false_r in Hi.
Qed.

Lemma hasTail_visible b :
  Builder.hasTail pixelSize showCometTails observerPos now b = true ->
  getClassification b <> Invisible.
Proof.
  unfold Builder.hasTail. intros Hi Hc. rewrite Hc in Hi. discriminate.
Qed.

Lemma renderBody_appendsVisible b : appendsVisible (renderBody b).
Proof.
  induction b as [b IH] using Body_tree_ind.
  assert (Hfirst : appendsVisible (fun rl =>
            if included b then rl ++ [bodyEntry b] else rl)).
  { destruct (included b) eqn:Hi; [|apply appendsVisible_id].
    exists [bodyEntry b]. split; [|reflexivity].
    constructor; [|constructor]. exists b. split; [reflexivity|].
    now apply included_visible. }
  assert (Htail : appendsVisible (fun rl =>
            if Builder.hasTail pixelSize showCometTails observerPos now b
            then rl ++ [Builder.tailEntry pixelSize theSun observerPos now b]
            else rl)).
  { destruct (Builder.hasTail _ _ _ _ b) eqn:Ht; [|apply appendsVisible_id].
    eexists [_]. split; [|reflexivity].
    constructor; [|constructor]. exists b. split; [reflexivity|].
    now apply hasTail_visible in Ht. }
  pose proof (appendsVisible_compose _ _ Hfirst Htail) as H12.
  destruct b as [? ? ? ? ? ? ? ? ? ex ? ? ? sats]; simpl in *.
  destruct (ex now); simpl; [|apply appendsVisible_id].
  destruct (Num.ltb _ faintestPlanetMag); [|exact H12].
  destruct sats as [l|]; [|exact H12].
  apply (appendsVisible_compose _ _ H12). apply appendsVisible_loop.
  exact IH.
Qed.

(** [renderBody] written out once: the body itself, its tail, then its
    satellites. *)
Lemma renderBody_unfold b rl :
  renderBody b rl
  = if negb (extant b now) then rl else
    let rl1 := if included b then rl ++ [bodyEntry b] else rl in
    let rl2 :=
      if Builder.hasTail pixelSize showCometTails observerPos now b
      then rl1 ++ [Builder.tailEntry pixelSize theSun observerPos now b]
      else rl1 in
    if Num.ltb (Builder.bodyAppMag theSun observerPos now b) faintestPlanetMag
    then match getSatellites b with
         | Some l => renderPlanetarySystem l rl2
         | None => rl2
         end
    else rl2.
Proof.
  destruct b as [? ? ? ? ? ? ? ? ? ex ? ? ? sats]; simpl.
  destruct (ex now); simpl; [|reflexivity].
  destruct (Num.ltb _ faintestPlanetMag); [|reflexivity].
  destruct sats as [l|]; [|reflexivity].
  match goal with |- _ l ?r = _ => generalize r end.
  unfold Builder.renderPlanetarySystem.
  induction l as [|s rest IH]; intros r; simpl; [reflexivity | apply IH].
Qed.

Lemma renderPlanetarySystem_appendsVisible solSystem :
  appendsVisible (renderPlanetarySystem solSystem).
Proof.
  unfold Builder.renderPlanetarySystem.
  induction solSystem as [|b rest IH]; simpl.
  - apply appendsVisible_id.
  - apply (appendsVisible_compose (renderBody b)
             (fun rl => foldl (fun rl b => renderBody b rl) rl rest));
      [apply renderBody_appendsVisible | exact IH].
Qed.
End BuilderFacts.

(** C10.  Whatever [renderPlanetarySystem] adds to the render list, it adds
    at the end, and no added entry is made for a body whose class is
    [Invisible], whatever its disc size and its magnitude. *)
Theorem invisible_body_never_listed `{MathLib} (pixelSize faintestPlanetMag : Q)
    (showCometTails : bool) (theSun : Star) (observerPos : Point3) (now : Q)
    (solSystem : list Body) (renderList : list RenderListEntry) :
  exists added,
    Builder.renderPlanetarySystem pixelSize faintestPlanetMag showCometTails
      theSun observerPos now solSystem renderList = renderList ++ added
    /\ Forall (fun e => forall b, body e = Some b ->
                                  getClassification b <> Invisible) added.
Proof.
  destruct (renderPlanetarySystem_appendsVisible pixelSize faintestPlanetMag
              showCometTails theSun observerPos now solSystem)
    as (added & Hvis & Hrl).
  exists added. split; [apply Hrl|].
  eapply Forall_impl; [exact Hvis|].
  intros e (b & Hb & Hc) b' Hb'. congruence.
Qed.

(** C5, as amended.  A body that exists at the time of the frame and is not
    invisible gets an entry when its disc is larger than a pixel or it is
    brighter than the faintest visible planet; the disc size of the entry
    is radius / (distance * pixel size). *)
Theorem visible_body_listed `{MathLib} (pixelSize faintestPlanetMag : Q)
    (showCometTails : bool) (theSun : Star) (observerPos : Point3) (now : Q)
    (b : Body) (renderList : list RenderListEntry) :
  extant b now = true ->
  getClassification b <> Invisible ->
  1 < getRadius b / (Builder.distanceFromObserver observerPos now b * pixelSize)
  \/ Builder.bodyAppMag theSun observerPos now b < faintestPlanetMag ->
  Builder.bodyEntry pixelSize theSun observerPos now b
    ∈ Builder.renderBody pixelSize faintestPlanetMag showCometTails theSun
        observerPos now b renderList
  /\ discSizeInPixels (Builder.bodyEntry pixelSize theSun observerPos now b)
     == getRadius b / (Builder.distanceFromObserver observerPos now b * pixelSize).
Proof.
  intros Hex Hvis Hsee.
  assert (Hdisc : Builder.discSizeOf pixelSize (getRadius b)
                    (Builder.distanceFromObserver observerPos now b)
                  == getRadius b
                     / (Builder.distanceFromObserver observerPos now b * pixelSize)).
  { unfold Builder.discSizeOf, Qdiv. rewrite Qinv_mult_distr. ring. }
  split; [|exact Hdisc].
  assert (Hinc : Builder.included pixelSize faintestPlanetMag theSun observerPos
                   now b = true).
  { unfold Builder.included. apply andb_true_intro. split.
    - apply orb_true_intro. destruct Hsee as [Hd|Hm].
      + left. destruct (ltb_reflect 1 (Builder.discSizeOf pixelSize (getRadius b)
                          (Builder.distanceFromObserver observerPos now b)));
          [reflexivity|]. rewrite Hdisc in *. contradiction.
      + right. destruct (ltb_reflect (Builder.bodyAppMag theSun observerPos now b)
                           faintestPlanetMag); [reflexivity | contradiction].
    - destruct (Classification_eqb (getClassification b) Invisible) eqn:E;
        [|reflexivity]. apply Classification_eqb_eq in E. contradiction. }
  (* everything after the first insertion only appends *)
  rewrite renderBody_unfold, Hex, Hinc. simpl.
  assert (Htail : appendsVisible (fun rl =>
            if Builder.hasTail pixelSize showCometTails observerPos now b
            then rl ++ [Builder.tailEntry pixelSize theSun observerPos now b]
            else rl)).
  { destruct (Builder.hasTail _ _ _ _ b) eqn:Ht; [|apply appendsVisible_id].
    eexists [_]. split; [|reflexivity].
    constructor; [|constructor]. exists b. split; [reflexivity | assumption]. }
  assert (Hbelow : appendsVisible (fun rl =>
            if Num.ltb (Builder.bodyAppMag theSun observerPos now b) faintestPlanetMag
            then match getSatellites b with
                 | Some l =>
                   Builder.renderPlanetarySystem pixelSize faintestPlanetMag
                     showCometTails theSun observerPos now l rl
                 | None => rl
                 end
            else rl)).
  { destruct (Num.ltb _ faintestPlanetMag); [|apply appendsVisible_id].
    destruct (getSatellites b) as [l|]; [|apply appendsVisible_id].
    apply renderPlanetarySystem_appendsVisible. }
  destruct (appendsVisible_compose _ _ Htail Hbelow) as (added & _ & Hf).
  simpl in Hf. rewrite Hf.
  apply elem_of_app. left. apply elem_of_app. right. apply list_elem_of_singleton.
  reflexivity.
Qed.

Lemma visible_body_listed_witness :
  @Builder.bodyEntry ExactMath (1 # 1000000) exampleStar zeroPoint 0 scenarioEarth
    ∈ @Builder.renderBody ExactMath (1 # 1000000) 6 false exampleStar zeroPoint 0
        scenarioEarth []
  /\ discSizeInPixels
       (@Builder.bodyEntry ExactMath (1 # 1000000) exampleStar zeroPoint 0
          scenarioEarth) == 6371.
Proof.
  destruct (@visible_body_listed ExactMath (1 # 1000000) 6 false exampleStar
              zeroPoint 0 scenarioEarth []) as [Hin Hd].
  - reflexivity.
  - discriminate.
  - left. vm_compute. reflexivity.
  - split; [exact Hin|]. vm_compute. reflexivity.
Defined.

(** C5, as stated, fails twice over.  With the numbers of scenario 1 the
    disc is 6371 pixels wide, not 6.371 (the product of distance and pixel
    size is 1); and a body with that disc whose class is [Invisible] gets
    no entry. *)
Lemma invisible_body_not_listed :
  let ghost := exampleBody 5 6371 Invisible (mkPoint3 1000000 0 0) in
  let disc := Builder.discSizeOf (1 # 1000000) (getRadius ghost)
                (@Builder.distanceFromObserver ExactMath zeroPoint 0 ghost) in
  disc == 6371 /\ ~ disc == 6371 # 1000 /\ 1 < disc
  /\ @Builder.renderPlanetarySystem ExactMath (1 # 1000000) 6 false exampleStar
       zeroPoint 0 [ghost] [] = [].
Proof.
  repeat split; try (vm_compute; reflexivity). vm_compute. discriminate.
Qed.

(** ** The orbit cache *)

Section OrbitCacheFacts.
Import OrbitCache.
Variable orbitPathSamplePoints : Z.

Local Abbreviation cacheTrajectory :=
  (OrbitCache.cacheTrajectory orbitPathSamplePoints).

Lemma setKeep_kept c : keep c = true -> setKeep true c = c.
Proof. destruct c as [b t k]. simpl. intros ->. reflexivity. Qed.

Lemma alter_same {A} (f : A -> A) (l : list A) k x :
  l !! k = Some x -> f x = x -> alter f k l = l.
Proof.
  intros Hk Hf. apply list_eq. intros j. rewrite list_lookup_alter.
  destruct (decide (k = j)) as [<-|]; [|reflexivity].
  rewrite Hk. simpl. now rewrite Hf.
Qed.

(** A call for a body whose trajectory is cached changes nothing and
    samples nothing. *)
Lemma cacheTrajectory_hit b t cache T :
  Cached (bodyAddr b) T cache -> cacheTrajectory b t cache = (cache, T, []).
Proof.
  intros (k & c & Hfind & HT & Hk). unfold OrbitCache.cacheTrajectory.
  rewrite Hfind. apply list_find_Some in Hfind as (Hl & _ & _).
  rewrite (alter_same _ _ k c Hl (setKeep_kept c Hk)), HT. reflexivity.
Qed.

(** After a call the trajectory it returned is cached. *)
Lemma cacheTrajectory_caches b t cache :
  Cached (bodyAddr b) (cacheTrajectory b t cache).1.2 (cacheTrajectory b t cache).1.1.
Proof.
  unfold OrbitCache.cacheTrajectory.
  destruct (list_find (fun c => body c = Some (bodyAddr b)) cache)
    as [[k c]|] eqn:Hfind.
  - simpl. apply list_find_Some in Hfind as (Hl & Hb & Hfirst).
    exists k, (setKeep true c). split; [|auto].
    apply list_find_Some. split; [|split; [exact Hb|]].
    + rewrite list_lookup_alter_eq, Hl. reflexivity.
    + intros j y Hj Hlt. rewrite list_lookup_alter_ne in Hj by lia. eauto.
  - apply list_find_None in Hfind. rewrite Forall_forall in Hfind.
    destruct (OrbitCache.samplingPlan orbitPathSamplePoints b t) as [startTime nSamples].
    set (orbit := mkCachedOrbit _ _ true).
    destruct (list_find (fun c => body c = None) cache) as [[k c]|] eqn:Hfree; simpl.
    + apply list_find_Some in Hfree as (Hl & _ & _).
      exists k, orbit. split; [|auto]. apply list_find_Some.
      split; [|split; [reflexivity|]].
      * apply list_lookup_insert_eq. now apply lookup_lt_Some in Hl.
      * intros j y Hj Hlt. rewrite list_lookup_insert_ne in Hj by lia.
        apply Hfind. now apply list_elem_of_lookup_2 in Hj.
    + exists (length cache), orbit. split; [|auto]. apply list_find_Some.
      split; [|split; [reflexivity|]].
      * rewrite lookup_app_r by lia. now rewrite Nat.sub_diag.
      * intros j y Hj Hlt. rewrite lookup_app_l in Hj by lia.
        apply Hfind. now apply list_elem_of_lookup_2 in Hj.
Qed.

(** A call never clears or resamples an entry that belongs to a body,
    whether its keep flag is set or not. *)
Lemma cacheTrajectory_occupied b t cache k c :
  cache !! k = Some c -> body c <> None ->
  exists c', (cacheTrajectory b t cache).1.1 !! k = Some c'
             /\ body c' = body c /\ trajectory c' = trajectory c
             /\ (keep c = true -> c' = c).
Proof.
  intros Hk Hocc. unfold OrbitCache.cacheTrajectory.
  destruct (list_find (fun c => body c = Some (bodyAddr b)) cache)
    as [[k0 c0]|] eqn:Hfind.
  - simpl. rewrite list_lookup_alter.
    destruct (decide (k0 = k)) as [->|].
    + rewrite Hk. simpl. exists (setKeep true c).
      split; [reflexivity|]. split; [reflexivity|]. split; [reflexivity|].
      apply setKeep_kept.
    + exists c. auto.
  - destruct (OrbitCache.samplingPlan orbitPathSamplePoints b t) as [startTime nSamples].
    destruct (list_find (fun c => body c = None) cache) as [[k1 c1]|] eqn:Hfree; simpl.
    + apply list_find_Some in Hfree as (Hl & Hnone & _).
      assert (k1 <> k) by (intros ->; congruence).
      rewrite list_lookup_insert_ne by assumption. exists c. auto.
    + rewrite lookup_app_l by (now apply lookup_lt_Some in Hk). exists c. auto.
Qed.

(** What is cached for one body stays cached through a call for any body. *)
Lemma cacheTrajectory_keeps b t cache addr T :
  Cached addr T cache -> Cached addr T (cacheTrajectory b t cache).1.1.
Proof.
  intros (k & c & Hfind & HT & Hkeep).
  destruct (decide (bodyAddr b = addr)) as [<-|Hne].
  { rewrite (cacheTrajectory_hit b t cache T); [|exists k, c; auto].
    exists k, c. auto. }
  apply list_find_Some in Hfind as (Hl & Hb & Hfirst).
  destruct (cacheTrajectory_occupied b t cache k c Hl) as (c' & Hl' & _ & _ & Hsame);
    [congruence|].
  rewrite (Hsame Hkeep) in Hl'.
  exists k, c. split; [|auto]. apply list_find_Some.
  split; [exact Hl'|]. split; [exact Hb|].
  intros j y Hj Hlt Hy.
  (* an entry before [k] that belongs to [addr] would have been there before *)
  unfold OrbitCache.cacheTrajectory in Hj.
  destruct (list_find (fun c => body c = Some (bodyAddr b)) cache)
    as [[k0 c0]|] eqn:Hfind0.
  - simpl in Hj. rewrite list_lookup_alter in Hj.
    destruct (decide (k0 = j)) as [->|].
    + destruct (cache !! j) as [y0|] eqn:Hy0; [|discriminate].
      simpl in Hj. injection Hj as <-. apply (Hfirst j y0 Hy0 Hlt). exact Hy.
    + apply (Hfirst j y Hj Hlt Hy).
  - destruct (OrbitCache.samplingPlan orbitPathSamplePoints b t) as [startTime nSamples].
    destruct (list_find (fun c => body c = None) cache) as [[k1 c1]|] eqn:Hfree;
      simpl in Hj.
    + destruct (decide (k1 = j)) as [->|].
      * apply list_find_Some in Hfree as (Hl1 & _ & _).
        rewrite list_lookup_insert_eq in Hj by (now apply lookup_lt_Some in Hl1).
        injection Hj as <-. simpl in Hy. congruence.
      * rewrite list_lookup_insert_ne in Hj by assumption.
        apply (Hfirst j y Hj Hlt Hy).
    + apply lookup_lt_Some in Hl.
      rewrite lookup_app_l in Hj by lia. apply (Hfirst j y Hj Hlt Hy).
Qed.
End OrbitCacheFacts.

Section OrbitFrameFacts.
Import OrbitCache.
Context `{MathLib}.
Variables (orbitPathSamplePoints : Z) (showPartialTrajectories : bool).
Variables (orbitMask : Z) (minOrbitSize pixelSize : Q).
Variable classificationBits : Classification -> Z.

Local Abbreviation cacheTrajectory :=
  (OrbitCache.cacheTrajectory orbitPathSamplePoints).
Local Abbreviation renderOrbit :=
  (OrbitCache.renderOrbit orbitPathSamplePoints showPartialTrajectories).
Local Abbreviation drawTrajectory :=
  (OrbitCache.drawTrajectory showPartialTrajectories).
Local Abbreviation renderOrbits :=
  (OrbitCache.renderOrbits orbitPathSamplePoints showPartialTrajectories
     orbitMask minOrbitSize pixelSize classificationBits).

Lemma renderOrbit_unfold b t r :
  renderOrbit b t r
  = mkRenderer (cacheTrajectory b t (orbitCache r)).1.1
      (events r ++ (cacheTrajectory b t (orbitCache r)).2
       ++ [Drew (bodyAddr b) (cacheTrajectory b t (orbitCache r)).1.2
             (isPeriodic (getOrbit b))
             (drawTrajectory b t (cacheTrajectory b t (orbitCache r)).1.2)]).
Proof.
  unfold OrbitCache.renderOrbit.
  destruct (cacheTrajectory b t (orbitCache r)) as [[cache T] calls]. reflexivity.
Qed.

(** The calls of [Orbit::sample] a call makes are no drawings. *)
Lemma cacheTrajectory_calls b t cache e :
  e ∈ (cacheTrajectory b t cache).2 -> exists a s p n, e = Sampled a s p n.
Proof.
  unfold OrbitCache.cacheTrajectory.
  destruct (list_find _ cache) as [[k c]|]; simpl.
  - intros He. now apply elem_of_nil in He.
  - destruct (OrbitCache.samplingPlan orbitPathSamplePoints b t) as [s n].
    destruct (list_find _ cache) as [[k c]|]; simpl; intros He;
      apply list_elem_of_singleton in He; eauto.
Qed.

(** Several calls in a row keep what is cached. *)
Lemma renderOrbit_calls_keep (calls : list (Body * Q)) r addr T :
  Cached addr T (orbitCache r) ->
  Cached addr T (orbitCache (foldl (fun r bt => renderOrbit bt.1 bt.2 r) r calls)).
Proof.
  revert r. induction calls as [|[b t] rest IH]; intros r Hc; simpl; [exact Hc|].
  apply IH. rewrite renderOrbit_unfold. simpl. now apply cacheTrajectory_keeps.
Qed.

(** Where the trajectory of a call comes from: the entry of the body when
    the cache has one, and otherwise one call of [Orbit::sample] with the
    sampling plan of the body. *)
Lemma cacheTrajectory_origin b t cache :
  match list_find (fun c => body c = Some (bodyAddr b)) cache with
  | Some (_, c0) =>
    (cacheTrajectory b t cache).1.2 = trajectory c0
    /\ (cacheTrajectory b t cache).2 = []
  | None =>
    let plan := OrbitCache.samplingPlan orbitPathSamplePoints b t in
    (cacheTrajectory b t cache).1.2
    = sample (getOrbit b) plan.1 (getPeriod (getOrbit b)) plan.2
    /\ (cacheTrajectory b t cache).2
       = [Sampled (bodyAddr b) plan.1 (getPeriod (getOrbit b)) plan.2]
  end.
Proof.
  unfold OrbitCache.cacheTrajectory.
  destruct (list_find (fun c => body c = Some (bodyAddr b)) cache) as [[k c]|];
    [split; reflexivity|].
  destruct (OrbitCache.samplingPlan orbitPathSamplePoints b t) as [s n].
  destruct (list_find (fun c => body c = None) cache) as [[k c]|];
    split; reflexivity.
Qed.

(** C7.  When [renderOrbit] is called for a body, then for any bodies, then
    for the first body again: the first call leaves an entry for the body
    in the cache, marked, holding the samples [T] it drew, which are those
    of the entry the cache had for the body or else the result of one call
    of [Orbit::sample]; the calls in between leave that entry in place; the
    last call finds it, draws from the same samples [T], calls
    [Orbit::sample] no more and leaves the cache as it found it. *)
Theorem renderOrbit_second_call_hits_cache (b : Body) (t1 t2 : Q)
    (between : list (Body * Q)) (r : Renderer) :
  let r1 := renderOrbit b t1 r in
  let rm := foldl (fun r bt => renderOrbit bt.1 bt.2 r) r1 between in
  let r2 := renderOrbit b t2 rm in
  let plan := OrbitCache.samplingPlan orbitPathSamplePoints b t1 in
  exists T,
    match list_find (fun c => body c = Some (bodyAddr b)) (orbitCache r) with
    | Some (_, c0) =>
      T = trajectory c0
      /\ events r1
         = events r
           ++ [Drew (bodyAddr b) T (isPeriodic (getOrbit b)) (drawTrajectory b t1 T)]
    | None =>
      T = sample (getOrbit b) plan.1 (getPeriod (getOrbit b)) plan.2
      /\ events r1
         = events r
           ++ [Sampled (bodyAddr b) plan.1 (getPeriod (getOrbit b)) plan.2;
               Drew (bodyAddr b) T (isPeriodic (getOrbit b)) (drawTrajectory b t1 T)]
    end
    /\ Cached (bodyAddr b) T (orbitCache r1)
    /\ Cached (bodyAddr b) T (orbitCache rm)
    /\ cacheTrajectory b t2 (orbitCache rm) = (orbitCache rm, T, [])
    /\ orbitCache r2 = orbitCache rm
    /\ events r2
       = events rm
         ++ [Drew (bodyAddr b) T (isPeriodic (getOrbit b)) (drawTrajectory b t2 T)].
Proof.
  intros r1 rm r2 plan.
  exists (cacheTrajectory b t1 (orbitCache r)).1.2.
  set (T := (cacheTrajectory b t1 (orbitCache r)).1.2).
  assert (Hc1 : Cached (bodyAddr b) T (orbitCache r1)).
  { subst r1 T. rewrite renderOrbit_unfold. simpl. apply cacheTrajectory_caches. }
  assert (Hcm : Cached (bodyAddr b) T (orbitCache rm)).
  { subst rm. now apply renderOrbit_calls_keep. }
  pose proof (cacheTrajectory_hit orbitPathSamplePoints b t2 (orbitCache rm) T Hcm)
    as Hhit.
  split; [|split; [exact Hc1|split; [exact Hcm|split; [exact Hhit|]]]].
  - pose proof (cacheTrajectory_origin b t1 (orbitCache r)) as Ho.
    subst r1. rewrite renderOrbit_unfold. simpl. fold T in Ho |- *.
    destruct (list_find (fun c => body c = Some (bodyAddr b)) (orbitCache r))
      as [[k c0]|].
    + destruct Ho as [HT Hcalls]. split; [exact HT|]. now rewrite Hcalls.
    + cbv zeta in Ho. fold plan in Ho. destruct Ho as [HT Hcalls].
      split; [exact HT|]. now rewrite Hcalls.
  - subst r2. rewrite renderOrbit_unfold, Hhit. simpl. auto.
Qed.

(** A property that every call of [renderOrbit] preserves holds after the
    walk over the planets and their satellites. *)
Section Walk.
Variable P : Renderer -> Prop.
Hypothesis call : forall b t r, P r -> P (renderOrbit b t r).

Lemma renderOrbitsBody_preserves sel t observerPos b :
  forall distance r, P r ->
    P (OrbitCache.renderOrbitsBody orbitPathSamplePoints showPartialTrajectories
         orbitMask minOrbitSize pixelSize classificationBits
         sel t observerPos distance b r).
Proof.
  induction b as [b IH] using Body_tree_ind. intros distance r Hr.
  destruct b as [? ? ? ? ? ? ? ? ? ? ? ? ? sats]; simpl in *.
  destruct (_ || _); [|exact Hr].
  destruct (Num.ltb minOrbitSize _); [|exact Hr].
  match goal with |- context [OrbitCache.renderOrbit ?a ?b ?c ?d ?e] =>
    pose proof (call c d e Hr) as Hr'; revert Hr';
    generalize (OrbitCache.renderOrbit a b c d e) end.
  intros r' Hr'. destruct sats as [l|]; [|exact Hr'].
  match goal with |- context [vlength ?v] => generalize (vlength v) end.
  intros d'. revert r' Hr'.
  induction IH as [|s rest Hs _ IHrest]; intros r' Hr'; simpl; [exact Hr'|].
  apply IHrest. apply Hs. exact Hr'.
Qed.

Lemma renderOrbits_preserves planets sel t observerPos center r :
  P r -> P (renderOrbits planets sel t observerPos center r).
Proof.
  unfold OrbitCache.renderOrbits. destruct planets as [bodies|]; [|auto].
  generalize (vlength (psub center observerPos)). intros d. revert r.
  induction bodies as [|b rest IH]; intros r Hr; simpl; [exact Hr|].
  apply IH. now apply renderOrbitsBody_preserves.
Qed.
End Walk.

Lemma clearKeep_all_false cache :
  Forall (fun c => keep c = false) (OrbitCache.clearKeep cache).
Proof.
  unfold OrbitCache.clearKeep. apply Forall_fmap, Forall_forall.
  intros c _. reflexivity.
Qed.

(** Recycling leaves what is cached: the entry is marked, and the entries
    before it still belong to other bodies or to none. *)
Lemma recycleUnused_keeps addr T cache :
  Cached addr T cache -> Cached addr T (OrbitCache.recycleUnused cache).
Proof.
  intros (k & c & Hfind & HT & Hkeep).
  apply list_find_Some in Hfind as (Hl & Hb & Hfirst).
  exists k, c. split; [|auto]. apply list_find_Some.
  unfold OrbitCache.recycleUnused. split; [|split; [exact Hb|]].
  - rewrite list_lookup_fmap, Hl. simpl. now rewrite Hkeep.
  - intros j y Hj Hlt Hy. rewrite list_lookup_fmap in Hj.
    destruct (cache !! j) as [y0|] eqn:Hy0; [|discriminate].
    simpl in Hj. injection Hj as <-.
    destruct (keep y0); [|discriminate]. apply (Hfirst j y0 Hy0 Hlt Hy).
Qed.

Lemma recycleUnused_lookup cache k c :
  cache !! k = Some c ->
  (keep c = true -> OrbitCache.recycleUnused cache !! k = Some c)
  /\ (keep c = false ->
      exists c', OrbitCache.recycleUnused cache !! k = Some c'
                 /\ body c' = None /\ trajectory c' = trajectory c).
Proof.
  intros Hk. unfold OrbitCache.recycleUnused. rewrite list_lookup_fmap, Hk. simpl.
  split; intros ->; [reflexivity|]. eexists. split; [reflexivity|]. auto.
Qed.

(** C8.  In a frame that renders orbits the three passes come in order.
    The keep flags are all cleared before anything is drawn.  Every call of
    [renderOrbit] leaves the entry it draws from marked, and the walk that
    makes these calls never clears the body of an entry nor changes its
    samples.  The recycling pass comes after the walk: it draws nothing,
    leaves the marked entries as they are and clears the body of the
    others.  So every orbit drawn in the frame is cached, with the samples
    that were drawn, at the end of the walk and still after the recycling
    pass. *)
Theorem orbit_frame_protocol (system : SolarSystem) (sel : option nat)
    (now : Q) (obsPos : Point3) (r : Renderer) :
  orbitMask <> 0%Z ->
  let r0 := mkRenderer (OrbitCache.clearKeep (orbitCache r)) (events r) in
  let r1 := renderOrbits (getPlanets system) sel now obsPos zeroPoint r0 in
  let r' := OrbitCache.renderFrameOrbits orbitPathSamplePoints
              showPartialTrajectories orbitMask minOrbitSize pixelSize
              classificationBits true (Some system) sel now obsPos r in
  Forall (fun c => keep c = false) (orbitCache r0)
  /\ (forall b t s,
        exists T, last (events (renderOrbit b t s))
                  = Some (Drew (bodyAddr b) T (isPeriodic (getOrbit b))
                            (drawTrajectory b t T))
                  /\ Cached (bodyAddr b) T (orbitCache (renderOrbit b t s)))
  /\ (forall k c, orbitCache r0 !! k = Some c -> body c <> None ->
        exists c', orbitCache r1 !! k = Some c'
                   /\ body c' = body c /\ trajectory c' = trajectory c)
  /\ (exists drawn, events r1 = events r ++ drawn /\ events r' = events r ++ drawn
        /\ forall addr T loop vs, Drew addr T loop vs ∈ drawn ->
              Cached addr T (orbitCache r1) /\ Cached addr T (orbitCache r'))
  /\ length (orbitCache r') = length (orbitCache r1)
  /\ (forall k c, orbitCache r1 !! k = Some c ->
        (keep c = true -> orbitCache r' !! k = Some c)
        /\ (keep c = false ->
            exists c', orbitCache r' !! k = Some c'
                       /\ body c' = None /\ trajectory c' = trajectory c)).
Proof.
  intros Hmask r0 r1 r'.
  assert (Hr' : r' = mkRenderer (OrbitCache.recycleUnused (orbitCache r1))
                       (events r1)).
  { subst r'. unfold OrbitCache.renderFrameOrbits.
    destruct (Z.eqb_spec orbitMask 0) as [|_]; [contradiction|]. reflexivity. }
  rewrite Hr'. simpl.
  split; [apply clearKeep_all_false|].
  split.
  { intros b t s. rewrite renderOrbit_unfold. simpl.
    eexists. split; [|apply cacheTrajectory_caches].
    rewrite !app_assoc. apply last_snoc. }
  split.
  { (* nothing is recycled during the walk *)
    subst r1.
    apply (renderOrbits_preserves
             (fun r => forall k c, orbitCache r0 !! k = Some c -> body c <> None ->
                exists c', orbitCache r !! k = Some c'
                           /\ body c' = body c /\ trajectory c' = trajectory c)).
    - intros b t s Hs k c Hk Hocc.
      destruct (Hs k c Hk Hocc) as (c1 & Hk1 & Hb1 & Ht1).
      rewrite renderOrbit_unfold. simpl.
      destruct (cacheTrajectory_occupied orbitPathSamplePoints b t (orbitCache s)
                  k c1 Hk1) as (c2 & Hk2 & Hb2 & Ht2 & _); [congruence|].
      exists c2. split; [exact Hk2|]. split; congruence.
    - intros k c Hk _. exists c. auto. }
  split.
  { assert (Hdrawn : exists drawn, events r1 = events r ++ drawn
              /\ forall addr T loop vs, Drew addr T loop vs ∈ drawn ->
                   Cached addr T (orbitCache r1)).
    { subst r1.
      apply (renderOrbits_preserves
               (fun s => exists drawn, events s = events r ++ drawn
                  /\ forall addr T loop vs, Drew addr T loop vs ∈ drawn ->
                       Cached addr T (orbitCache s))).
      - intros b t s (drawn & Hev & Hall). rewrite renderOrbit_unfold. simpl.
        eexists. split; [rewrite Hev, <- app_assoc; reflexivity|].
        intros addr T loop vs Hin.
        apply elem_of_app in Hin as [Hin|Hin].
        { apply cacheTrajectory_keeps. eapply Hall. exact Hin. }
        apply elem_of_app in Hin as [Hin|Hin].
        { apply cacheTrajectory_calls in Hin as (a & s0 & p & n & Hin).
          discriminate. }
        apply list_elem_of_singleton in Hin. injection Hin as -> -> _ _.
        apply cacheTrajectory_caches.
      - exists []. split; [now rewrite app_nil_r|].
        intros addr T loop vs Hin. now apply elem_of_nil in Hin. }
    destruct Hdrawn as (drawn & Hev & Hall).
    exists drawn. split; [exact Hev|]. split; [exact Hev|].
    intros addr T loop vs Hin. split; [eapply Hall; exact Hin|].
    apply recycleUnused_keeps. eapply Hall. exact Hin. }
  split.
  { unfold OrbitCache.recycleUnused. apply length_fmap. }
  intros k c Hk. now apply recycleUnused_lookup.
Qed.
End OrbitFrameFacts.

Lemma orbit_frame_protocol_witness :
  OrbitCache.body <$> OrbitCache.orbitCache exampleOrbitFrame = [None; Some 3%nat]
  /\ Cached 3 [] (OrbitCache.orbitCache exampleOrbitFrame).
Proof.
  split; [reflexivity|].
  destruct (@orbit_frame_protocol ExactMath 100 false 1 0 1 (fun _ => 1%Z)
              onePlanetSystem None 0 (mkPoint3 0 0 10) staleRenderer)
    as (_ & _ & _ & (drawn & _ & Hev & Hall) & _); [discriminate|].
  apply (Hall 3%nat [] true []). vm_compute in Hev. rewrite <- Hev.
  apply elem_of_cons. right. apply elem_of_cons. now left.
Defined.

(** ** The star batcher *)

Section StarFacts.
Import StarBatcher.
Variable Color : Type.
Variable clamp : Q -> Q.

(** [Math<float>::clamp] is defined outside render.cpp; what the proof
    needs of it is that it is monotone. *)
Hypothesis clamp_monotone : forall x y, x <= y -> clamp x <= clamp y.

(** C9.  With the same settings and a positive brightness scale, the
    brighter of two stars (the one with the lower magnitude) gets an alpha
    at least as large as the fainter one. *)
Theorem star_alpha_monotone (sr : StarRenderer Color) (appMagA appMagB : Q) :
  0 < brightnessScale Color sr ->
  appMagA < appMagB ->
  billboardAlpha Color clamp sr appMagB <= billboardAlpha Color clamp sr appMagA.
Proof.
  intros Hs Hlt. unfold billboardAlpha, billboard.
  set (a := (faintestMag Color sr - appMagA) * brightnessScale Color sr
            + brightnessBias Color sr).
  set (b := (faintestMag Color sr - appMagB) * brightnessScale Color sr
            + brightnessBias Color sr).
  assert (Hab : b <= a) by (subst a b; nra).
  destruct (useDiscs Color sr).
  - destruct (ltb_reflect b 0), (ltb_reflect a 0); simpl; try lra;
      destruct (ltb_reflect 1 b); simpl; try lra;
      destruct (ltb_reflect 1 a); simpl; lra.
  - simpl. now apply clamp_monotone.
Qed.
End StarFacts.

Lemma clamp01_monotone (x y : Q) : x <= y -> clamp01 x <= clamp01 y.
Proof.
  intros Hxy. unfold clamp01.
  destruct (ltb_reflect x 0), (ltb_reflect y 0); try lra;
    destruct (ltb_reflect 1 x), (ltb_reflect 1 y); lra.
Qed.

Lemma star_alpha_monotone_witness :
  StarBatcher.billboardAlpha unit clamp01 exampleStarRenderer 5
  <= StarBatcher.billboardAlpha unit clamp01 exampleStarRenderer 2.
Proof.
  apply (star_alpha_monotone unit clamp01 clamp01_monotone exampleStarRenderer 2 5).
  - vm_compute. reflexivity.
  - vm_compute. reflexivity.
Defined.

(** * Further properties *)

(** ** The bucket loop on any input *)

Section Buckets.
Import DepthBuckets.
Variable M : Q.

Lemma BucketInv_init l : BucketInv M 0 (init l).
Proof. split; simpl; intros; lia. Qed.

Lemma BucketInv_skip i st e :
  BucketInv M i st -> renderList st !! i = Some e -> ~ large e ->
  BucketInv M (S i) st.
Proof.
  intros [] He Hs.
  assert (Hlt : forall j x, (j < S i)%nat -> renderList st !! j = Some x ->
                            large x -> (j < i)%nat).
  { intros j x Hj Hx Hl. destruct (decide (j = i)) as [->|]; [|lia].
    rewrite He in Hx. injection Hx as <-. contradiction. }
  split; eauto with lia.
Qed.

Lemma BucketInv_open i st e :
  BucketInv M i st -> renderList st !! i = Some e -> large e ->
  BucketInv M (S i)
    (mkState (nDepthBuckets st + 1) (nearZ e) (farZ e) i
       (alter (setDepthBucket (nDepthBuckets st + 1 - 1)) i (renderList st))).
Proof.
  intros [] He Hl.
  assert (Hlook : forall j x, (j < S i)%nat ->
            alter (setDepthBucket (nDepthBuckets st + 1 - 1)) i (renderList st) !! j
              = Some x -> large x ->
            (j = i /\ depthBucket x = nDepthBuckets st)
            \/ ((j < i)%nat /\ renderList st !! j = Some x
                /\ (1 <= depthBucket x <= nDepthBuckets st - 1)%Z)).
  { intros j x Hj Hx Hlx. rewrite list_lookup_alter in Hx.
    destruct (decide (i = j)) as [<-|Hne].
    - left. rewrite He in Hx. simpl in Hx. injection Hx as <-.
      split; [reflexivity|]. simpl. lia.
    - right. split; [lia|]. split; [assumption|].
      apply (bi_range0 j x); [lia | assumption..]. }
  split; simpl.
  - lia.
  - lia.
  - intros j x Hj Hx Hlx. destruct (Hlook j x Hj Hx Hlx) as [[? ?]|(? & ? & ?)]; lia.
  - intros j x Hj Hx Hlx. destruct (Hlook j x Hj Hx Hlx) as [[? ?]|(? & ? & ?)]; lia.
  - intros j k ej ek Hjk Hk Hej Hek Hlj Hlk.
    destruct (Hlook k ek Hk Hek Hlk) as [[-> Hbk]|(Hk' & Hek' & Hbk)].
    + destruct (Hlook j ej ltac:(lia) Hej Hlj) as [[? ?]|(? & ? & ?)]; lia.
    + destruct (Hlook j ej ltac:(lia) Hej Hlj) as [[? ?]|(Hj' & Hej' & ?)]; [lia|].
      apply (bi_mono0 j k ej ek); assumption.
  - intros j k ej ek Hne Hj Hk Hej Hek Hlj Hlk Hb.
    destruct (Hlook j ej Hj Hej Hlj) as [[-> Hbj]|(Hj' & Hej' & Hbj)];
      destruct (Hlook k ek Hk Hek Hlk) as [[-> Hbk]|(Hk' & Hek' & Hbk)];
      try lia.
    apply (bi_shared0 j k ej ek); assumption.
Qed.

Lemma BucketInv_coalesce i st e n f :
  BucketInv M i st -> renderList st !! i = Some e -> large e ->
  nDepthBuckets st <> 1%Z -> f / n < M ->
  BucketInv M (S i)
    (mkState (nDepthBuckets st) (lastNear st) (lastFar st) (firstCoalesced st)
       (alter (setDepthBucket (nDepthBuckets st - 1)) i
          (coalesce (firstCoalesced st) i n f (renderList st)))).
Proof.
  intros [] He Hl Hnb Hr.
  assert (Hlook : forall j x, (j < S i)%nat ->
            alter (setDepthBucket (nDepthBuckets st - 1)) i
              (coalesce (firstCoalesced st) i n f (renderList st)) !! j = Some x ->
            large x ->
            ((firstCoalesced st <= j)%nat
             /\ depthBucket x = (nDepthBuckets st - 1)%Z
             /\ nearZ x = n /\ farZ x = f)
            \/ ((j < firstCoalesced st)%nat /\ (j < i)%nat
                /\ renderList st !! j = Some x
                /\ (1 <= depthBucket x < nDepthBuckets st - 1)%Z)).
  { intros j x Hj Hx Hlx. rewrite list_lookup_alter in Hx.
    destruct (decide (i = j)) as [<-|Hne].
    - left. rewrite lookup_coalesce, bool_decide_eq_true_2, He in Hx by lia.
      simpl in Hx. injection Hx as <-. simpl. auto.
    - rewrite lookup_coalesce in Hx.
      destruct (decide (firstCoalesced st <= j <= i)%nat) as [Hin|Hout].
      + left. rewrite bool_decide_eq_true_2 in Hx by assumption.
        destruct (renderList st !! j) as [e0|] eqn:H0; [|discriminate].
        simpl in Hx. injection Hx as <-. simpl. split; [lia|]. split; [|auto].
        apply (bi_group0 j e0); auto; lia.
      + right. rewrite bool_decide_eq_false_2 in Hx by assumption.
        assert (Hji : (j < i)%nat) by lia.
        split; [lia|]. split; [assumption|]. split; [assumption|].
        pose proof (bi_range0 j x Hji Hx Hlx).
        pose proof (bi_group0 j x Hji Hx Hlx) as [_ Hg].
        destruct (decide (depthBucket x = (nDepthBuckets st - 1)%Z)) as [E|NE];
          [specialize (Hg E); lia | lia]. }
  split; simpl.
  - assumption.
  - lia.
  - intros j x Hj Hx Hlx.
    destruct (Hlook j x Hj Hx Hlx) as [(? & ? & ?)|(? & ? & ? & ?)]; lia.
  - intros j x Hj Hx Hlx.
    destruct (Hlook j x Hj Hx Hlx) as [(? & ? & ?)|(? & ? & ? & ?)]; split; lia.
  - intros j k ej ek Hjk Hk Hej Hek Hlj Hlk.
    destruct (Hlook k ek Hk Hek Hlk) as [(? & ? & ?)|(? & Hk' & Hek' & ?)];
      destruct (Hlook j ej ltac:(lia) Hej Hlj) as [(? & ? & ?)|(? & Hj' & Hej' & ?)];
      try lia.
    apply (bi_mono0 j k ej ek); assumption.
  - intros j k ej ek Hne Hj Hk Hej Hek Hlj Hlk Hb.
    destruct (Hlook j ej Hj Hej Hlj) as [(? & ? & Hnj & Hfj)|(? & Hj' & Hej' & ?)];
      destruct (Hlook k ek Hk Hek Hlk) as [(? & ? & Hnk & Hfk)|(? & Hk' & Hek' & ?)];
      try lia.
    + rewrite Hnj, Hfj, Hnk, Hfk. auto.
    + apply (bi_shared0 j k ej ek); assumption.
Qed.

Lemma BucketInv_step i st :
  (i < length (renderList st))%nat ->
  BucketInv M i st -> BucketInv M (S i) (step M st i).
Proof.
  intros Hi HI.
  destruct (renderList st !! i) as [e|] eqn:He.
  2:{ apply lookup_ge_None in He. lia. }
  destruct (ltb_reflect 1 (discSizeInPixels e)) as [Hl|Hs].
  2:{ rewrite (step_small M st i e He Hs). now apply (BucketInv_skip i st e). }
  destruct (step_cases M st i e He Hl) as [[-> _]|(-> & Hn & _ & Hr)].
  - now apply BucketInv_open.
  - apply (BucketInv_coalesce i st e); assumption.
Qed.

Lemma BucketInv_partition l : BucketInv M (length l) (partition M l).
Proof.
  unfold partition.
  apply (foldl_seq_invariant (step M)
           (fun i st => length (renderList st) = length l /\ BucketInv M i st)).
  - split; [reflexivity | apply BucketInv_init].
  - intros i s Hi [Hlen HI]. split.
    + now rewrite step_length.
    + apply BucketInv_step; [lia | assumption].
Qed.
End Buckets.

Lemma sameObject_refl e : sameObject e e.
Proof. repeat split. Qed.

Lemma sameObject_trans a b c : sameObject a b -> sameObject b c -> sameObject a c.
Proof.
  unfold sameObject. intros (?&?&?&?&?&?&?&?&?) (?&?&?&?&?&?&?&?&?).
  repeat split; congruence.
Qed.

(** One iteration leaves at every index the object that was there; it only
    gives a bucket to the entry it is at, when that entry is large. *)
Lemma step_entry M st i j e0 :
  DepthBuckets.renderList st !! j = Some e0 ->
  exists e', DepthBuckets.renderList (DepthBuckets.step M st i) !! j = Some e'
    /\ sameObject e0 e' /\ (~ large e0 -> depthBucket e' = depthBucket e0).
Proof.
  intros H0.
  destruct (DepthBuckets.renderList st !! i) as [e|] eqn:He.
  2:{ unfold DepthBuckets.step. rewrite He. exists e0.
      split; [assumption|]. split; [apply sameObject_refl | reflexivity]. }
  destruct (ltb_reflect 1 (discSizeInPixels e)) as [Hl|Hs].
  2:{ rewrite (step_small M st i e He Hs). exists e0.
      split; [assumption|]. split; [apply sameObject_refl | reflexivity]. }
  destruct (step_cases M st i e He Hl) as [[-> _]|(-> & _)]; simpl;
    rewrite list_lookup_alter.
  - destruct (decide (i = j)) as [<-|Hne].
    + rewrite He. simpl. rewrite He in H0. injection H0 as <-.
      eexists. split; [reflexivity|]. split; [repeat split | contradiction].
    + exists e0. split; [assumption|]. split; [apply sameObject_refl | reflexivity].
  - rewrite !lookup_coalesce.
    destruct (decide (i = j)) as [<-|Hne].
    + rewrite He in H0. injection H0 as <-. rewrite He.
      destruct (bool_decide _); simpl; eexists;
        (split; [reflexivity|]); (split; [repeat split | contradiction]).
    + rewrite H0. destruct (bool_decide _); simpl; eexists;
        (split; [reflexivity|]); (split; [repeat split | reflexivity]).
Qed.

(** X1.  The bucket loop neither drops nor reorders nor retargets entries:
    at every index the output holds the same object with the same disc size
    and magnitude as the input, and an entry that is not larger than a
    pixel keeps the bucket it had. *)
Theorem partition_keeps_objects (M : Q) (l : list RenderListEntry) :
  length (DepthBuckets.renderList (DepthBuckets.partition M l)) = length l
  /\ forall i e, l !! i = Some e ->
       exists e', DepthBuckets.renderList (DepthBuckets.partition M l) !! i = Some e'
                  /\ sameObject e e' /\ (~ large e -> depthBucket e' = depthBucket e).
Proof.
  split; [apply partition_length|].
  unfold DepthBuckets.partition.
  apply (foldl_seq_invariant (DepthBuckets.step M)
           (fun _ st => forall i e, l !! i = Some e ->
              exists e', DepthBuckets.renderList st !! i = Some e'
                /\ sameObject e e' /\ (~ large e -> depthBucket e' = depthBucket e))).
  - intros i e He. exists e. split; [assumption|].
    split; [apply sameObject_refl | reflexivity].
  - intros k s _ Hs i e He. destruct (Hs i e He) as (e1 & H1 & Hsame1 & Hb1).
    destruct (step_entry M s k i e1 H1) as (e2 & H2 & Hsame2 & Hb2).
    exists e2. split; [assumption|]. split; [eapply sameObject_trans; eassumption|].
    intros Hsmall. rewrite Hb2, Hb1; auto.
    intros Hl1. apply Hsmall. unfold large in *.
    destruct Hsame1 as (_&_&_&_&_&_&_&Hd&_). now rewrite <- Hd.
Qed.

(** X2.  Every entry larger than a pixel leaves the loop with a bucket
    between 1 and [nDepthBuckets - 1], so the depth range the render loop
    selects for it is a slice of width 1/nDepthBuckets inside (0, 1]. *)
Theorem large_entry_gets_depth_slice (M : Q) (l : list RenderListEntry) :
  let out := DepthBuckets.partition M l in
  let n := DepthBuckets.nDepthBuckets out in
  Forall (fun e => large e ->
            (1 <= depthBucket e <= n - 1)%Z
            /\ 0 < (glDepthRangeOf n (depthBucket e)).1
            /\ (glDepthRangeOf n (depthBucket e)).1
               < (glDepthRangeOf n (depthBucket e)).2
            /\ (glDepthRangeOf n (depthBucket e)).2 <= 1)
    (DepthBuckets.renderList out).
Proof.
  intros out n. apply Forall_forall. intros e He Hl.
  apply list_elem_of_lookup in He as [j Hj].
  pose proof (BucketInv_partition M l) as HI.
  assert (Hjn : (j < length l)%nat).
  { rewrite <- (partition_length M l). now apply lookup_lt_Some in Hj. }
  pose proof (bi_range M _ _ HI j e Hjn Hj Hl) as Hb. fold out n in Hb.
  split; [exact Hb|].
  unfold glDepthRangeOf, depthRangeOf. simpl.
  assert (Hq : 0 < inject_Z n) by (change 0 with (inject_Z 0); rewrite <- Zlt_Qlt; lia).
  assert (H1 : 1 <= inject_Z (depthBucket e))
    by (change 1 with (inject_Z 1); rewrite <- Zle_Qle; lia).
  assert (H2 : inject_Z (depthBucket e + 1) <= inject_Z n) by (rewrite <- Zle_Qle; lia).
  assert (H3 : inject_Z (depthBucket e) < inject_Z (depthBucket e + 1))
    by (rewrite <- Zlt_Qlt; lia).
  assert (Hr : 0 < 1 / inject_Z n).
  { unfold Qdiv. rewrite Qmult_1_l. now apply Qinv_lt_0_compat. }
  assert (Hqr : inject_Z n * (1 / inject_Z n) == 1) by (field; lra).
  set (q := inject_Z n) in *. set (r := 1 / q) in *.
  set (b := inject_Z (depthBucket e)) in *. set (b1 := inject_Z (depthBucket e + 1)) in *.
  split; [nra|]. split; nra.
Qed.

(** X3.  Bucket indices never decrease along the render list: of two
    entries larger than a pixel the later one has the same or a higher
    bucket. *)
Theorem partition_buckets_monotone (M : Q) (l : list RenderListEntry)
    (j k : nat) (ej ek : RenderListEntry) :
  (j <= k)%nat ->
  DepthBuckets.renderList (DepthBuckets.partition M l) !! j = Some ej ->
  DepthBuckets.renderList (DepthBuckets.partition M l) !! k = Some ek ->
  large ej -> large ek ->
  (depthBucket ej <= depthBucket ek)%Z.
Proof.
  intros Hjk Hj Hk Hlj Hlk.
  assert (Hkn : (k < length l)%nat).
  { rewrite <- (partition_length M l). now apply lookup_lt_Some in Hk. }
  apply (bi_mono M _ _ (BucketInv_partition M l) j k ej ek); assumption.
Qed.

Lemma partition_buckets_monotone_witness :
  (depthBucket (setDepthBucket 1 (exampleEntry (-10) (-100)))
   <= depthBucket (setDepthBucket 2 (exampleEntry (-200) (-300))))%Z.
Proof.
  apply (partition_buckets_monotone MaxFarNearRatio overlapNested 0 2).
  - lia.
  - vm_compute. reflexivity.
  - vm_compute. reflexivity.
  - vm_compute. reflexivity.
  - vm_compute. reflexivity.
Defined.

(** X4.  A bucket has one range: two different entries larger than a pixel
    that share a bucket leave the loop with the same near and far plane,
    and the far/near ratio of these planes is below the maximum. *)
Theorem partition_shared_bucket (M : Q) (l : list RenderListEntry)
    (j k : nat) (ej ek : RenderListEntry) :
  j <> k ->
  DepthBuckets.renderList (DepthBuckets.partition M l) !! j = Some ej ->
  DepthBuckets.renderList (DepthBuckets.partition M l) !! k = Some ek ->
  large ej -> large ek -> depthBucket ej = depthBucket ek ->
  nearZ ej = nearZ ek /\ farZ ej = farZ ek /\ farZ ej / nearZ ej < M.
Proof.
  intros Hne Hj Hk Hlj Hlk Hb.
  assert (Hjn : (j < length l)%nat).
  { rewrite <- (partition_length M l). now apply lookup_lt_Some in Hj. }
  assert (Hkn : (k < length l)%nat).
  { rewrite <- (partition_length M l). now apply lookup_lt_Some in Hk. }
  apply (bi_shared M _ _ (BucketInv_partition M l) j k ej ek); assumption.
Qed.

Lemma partition_shared_bucket_witness :
  let out := DepthBuckets.renderList
               (DepthBuckets.partition MaxFarNearRatio overlapChain) in
  exists e0 e2, out !! 0%nat = Some e0 /\ out !! 2%nat = Some e2
    /\ nearZ e0 = nearZ e2 /\ farZ e0 = farZ e2
    /\ farZ e0 / nearZ e0 < MaxFarNearRatio.
Proof.
  eexists _, _. split; [vm_compute; reflexivity|]. split; [vm_compute; reflexivity|].
  apply (partition_shared_bucket MaxFarNearRatio overlapChain 0 2).
  - lia.
  - vm_compute. reflexivity.
  - vm_compute. reflexivity.
  - vm_compute. reflexivity.
  - vm_compute. reflexivity.
  - reflexivity.
Defined.

(** ** The culler *)

Section CullerFacts.
Context `{MathLib}.
Variables (windowWidth windowHeight fov : Q).
Variable viewMat : Point3 -> Point3.
Variable testSphere : Point3 -> Q -> FrustumAspect.

Local Abbreviation clipEntry := (Culler.clipEntry windowWidth windowHeight fov viewMat).
Local Abbreviation cull := (Culler.cull windowWidth windowHeight fov viewMat testSphere).

Lemma clipEntry_sameObject e :
  sameObject e (clipEntry e) /\ depthBucket (clipEntry e) = depthBucket e.
Proof.
  unfold Culler.clipEntry.
  destruct (Culler.bounds e) as [[[convex radius] cullRadius] cloudHeight].
  cbv zeta.
  repeat match goal with
         | |- context [if ?c then _ else _] => destruct c
         end; split; repeat split.
Qed.

Lemma near_after_ratio_clamp (f n : Q) :
  n <= - MinNearPlaneDistance -> MaxFarNearRatio < f / n ->
  f / MaxFarNearRatio <= - MinNearPlaneDistance.
Proof.
  unfold MaxFarNearRatio, MinNearPlaneDistance. intros Hn Hgt.
  assert (Hfn : f / n * n == f).
  { unfold Qdiv. rewrite <- Qmult_assoc, (Qmult_comm (/ n)), Qmult_inv_r;
      [ring | intro; lra]. }
  assert (f < 2000 * n) by nra.
  apply Qle_shift_div_r; lra.
Qed.

Lemma clipEntry_near e : nearZ (clipEntry e) <= - MinNearPlaneDistance.
Proof.
  unfold Culler.clipEntry.
  destruct (Culler.bounds e) as [[[convex radius] cullRadius] cloudHeight].
  cbv zeta.
  match goal with
  | |- context [if Num.ltb ?a ?b then setNearZ _ e else _] =>
      destruct (ltb_reflect a b) as [Hc|Hc]
  end.
  all: destruct convex; simpl negb; cbv iota.
  all: repeat match goal with
         | |- context [if Num.ltb ?a ?b then _ else _] =>
             destruct (ltb_reflect a b)
         | |- context [if ?c && ?d then _ else _] => destruct (c && d)
         end; simpl in *.
  all: try apply Qle_refl.
  all: try (apply Qnot_lt_le; assumption).
  all: match goal with
       | Hc : ~ _ < ?n, Hgt : MaxFarNearRatio < ?f / ?n |- _ =>
           apply (near_after_ratio_clamp f n (Qnot_lt_le _ _ Hc) Hgt)
       | Hgt : MaxFarNearRatio < ?f / ?n |- _ =>
           apply (near_after_ratio_clamp f n (Qle_refl _) Hgt)
       end.
Qed.

(** X5.  The culler never leaves a near plane closer to the camera than
    [MinNearPlaneDistance]: every entry that survives has
    [nearZ <= - MinNearPlaneDistance], in particular a negative one. *)
Theorem culled_near_plane_bounded (l : list RenderListEntry) :
  Forall (fun e => nearZ e <= - MinNearPlaneDistance /\ nearZ e < 0) (cull l).
Proof.
  apply Forall_forall. intros e' He'.
  unfold Culler.cull in He'. apply list_elem_of_omap in He' as (e & _ & Hc).
  unfold Culler.cullEntry in Hc.
  destruct (Culler.bounds e) as [[[convex radius] cullRadius] cloudHeight].
  assert (e' = clipEntry e) as ->.
  { destruct (testSphere _ _); congruence. }
  pose proof (clipEntry_near e) as Hn. revert Hn.
  generalize (nearZ (clipEntry e)). unfold MinNearPlaneDistance.
  intros n Hn. split; [exact Hn | apply (Qle_lt_trans _ _ _ Hn); reflexivity].
Qed.

(** X6.  Culling only drops entries and sets clip planes: the list does not
    grow, and every entry that survives comes from an entry of the input
    whose bounding sphere is not outside the frustum, with the same object,
    disc size, magnitude and bucket. *)
Theorem cull_keeps_objects (l : list RenderListEntry) :
  (length (cull l) <= length l)%nat
  /\ Forall (fun e' => exists e, e ∈ l
               /\ testSphere (viewMat (position e)) (Culler.bounds e).1.2 <> Outside
               /\ sameObject e e' /\ depthBucket e' = depthBucket e
               /\ e' = clipEntry e) (cull l).
Proof.
  split.
  - unfold Culler.cull. induction l as [|e l IH]; [reflexivity|].
    change (e :: l) with ([e] ++ l). rewrite omap_app, !length_app. simpl.
    destruct (Culler.cullEntry _ _ _ _ _ e); simpl; lia.
  - apply Forall_forall. intros e' He'.
    unfold Culler.cull in He'. apply list_elem_of_omap in He' as (e & Hin & Hc).
    exists e. split; [assumption|]. unfold Culler.cullEntry in Hc.
    destruct (Culler.bounds e) as [[[convex radius] cullRadius] cloudHeight] eqn:Hb.
    simpl. destruct (testSphere (viewMat (position e)) cullRadius) eqn:Ht;
      [discriminate| |]; injection Hc as <-;
      (split; [discriminate|]); pose proof (clipEntry_sameObject e) as [? ?]; auto.
Qed.

(** X7.  A scene made of bodies with rings or meshes only keeps the far/near
    ratio: in whatever order the sort hands the culled entries to the
    bucket loop, every entry larger than a pixel ends with far/near at most
    [MaxFarNearRatio]. *)
Theorem not_convex_scene_ratio_bounded (l sorted : list RenderListEntry) :
  Forall (fun e => (Culler.bounds e).1.1.1 = false) l ->
  sorted ≡ₚ cull l ->
  Forall (fun e => large e -> farZ e / nearZ e <= MaxFarNearRatio)
    (DepthBuckets.renderList (DepthBuckets.partition MaxFarNearRatio sorted)).
Proof.
  intros Hnc Hperm. apply Forall_forall. intros e He Hl.
  apply (partition_ratio MaxFarNearRatio sorted); [|assumption..].
  intros e1 He1 _. rewrite Hperm in He1.
  unfold Culler.cull in He1. apply list_elem_of_omap in He1 as (e0 & Hin & Hc).
  rewrite Forall_forall in Hnc. specialize (Hnc e0 Hin).
  unfold Culler.cullEntry in Hc.
  assert (e1 = clipEntry e0) as ->.
  { destruct (Culler.bounds e0) as [[[? ?] ?] ?].
    destruct (testSphere _ _); congruence. }
  now apply clipEntry_ratio_not_convex.
Qed.
End CullerFacts.

Lemma not_convex_scene_ratio_bounded_witness :
  Forall (fun e => large e -> farZ e / nearZ e <= MaxFarNearRatio)
    (DepthBuckets.renderList
       (DepthBuckets.partition MaxFarNearRatio
          (@Culler.cull ExactMath 800 600 120 (fun p => p) axisFrustum
             ringedPlanetList))).
Proof.
  apply (@not_convex_scene_ratio_bounded ExactMath 800 600 120 (fun p => p)
           axisFrustum ringedPlanetList).
  - repeat constructor.
  - reflexivity.
Defined.

(** ** The render-list builder, continued *)

Lemma appendsOnly_id P : appendsOnly P (fun rl => rl).
Proof. exists []. split; [constructor|]. intros rl. now rewrite app_nil_r. Qed.

Lemma appendsOnly_one P e : P e -> appendsOnly P (fun rl => rl ++ [e]).
Proof. intros He. exists [e]. split; [repeat constructor; exact He | reflexivity]. Qed.

Lemma appendsOnly_compose P f g :
  appendsOnly P f -> appendsOnly P g -> appendsOnly P (fun rl => g (f rl)).
Proof.
  intros (a & Ha & Hf) (b & Hb & Hg). exists (a ++ b). split.
  - now apply Forall_app.
  - intros rl. now rewrite Hf, Hg, app_assoc.
Qed.

Lemma appendsOnly_ext P f g :
  (forall rl, f rl = g rl) -> appendsOnly P g -> appendsOnly P f.
Proof. intros Hfg (a & Ha & Hg). exists a. split; [exact Ha|]. intros rl. now rewrite Hfg. Qed.

Section BuilderMore.
Context `{MathLib}.
Variables (pixelSize faintestPlanetMag : Q) (showCometTails : bool).
Variables (theSun : Star) (observerPos : Point3) (now : Q).

Local Abbreviation renderBody :=
  (Builder.renderBody pixelSize faintestPlanetMag showCometTails theSun
     observerPos now).
Local Abbreviation renderPlanetarySystem :=
  (Builder.renderPlanetarySystem pixelSize faintestPlanetMag showCometTails
     theSun observerPos now).
Local Abbreviation included :=
  (Builder.included pixelSize faintestPlanetMag theSun observerPos now).
Local Abbreviation hasTail := (Builder.hasTail pixelSize showCometTails observerPos now).
Local Abbreviation bodyEntry := (Builder.bodyEntry pixelSize theSun observerPos now).
Local Abbreviation tailEntry := (Builder.tailEntry pixelSize theSun observerPos now).

Section Generic.
Variable P : RenderListEntry -> Prop.
Hypothesis P_body : forall b, extant b now = true -> included b = true -> P (bodyEntry b).
Hypothesis P_tail : forall b, extant b now = true -> hasTail b = true -> P (tailEntry b).

Lemma system_appendsOnly (l : list Body) :
  Forall (fun b => appendsOnly P (renderBody b)) l ->
  appendsOnly P (renderPlanetarySystem l).
Proof.
  unfold Builder.renderPlanetarySystem.
  induction 1 as [|b rest Hb _ IH]; simpl; [apply appendsOnly_id|].
  apply (appendsOnly_compose P (renderBody b)
           (fun rl => foldl (fun rl b => renderBody b rl) rl rest)); assumption.
Qed.

Lemma renderBody_appendsOnly b : appendsOnly P (renderBody b).
Proof.
  induction b as [b IH] using Body_tree_ind.
  eapply appendsOnly_ext; [intros rl; apply renderBody_unfold|].
  destruct (extant b now) eqn:Hex; simpl; [|apply appendsOnly_id].
  apply (appendsOnly_compose P
           (fun rl => if included b then rl ++ [bodyEntry b] else rl)
           (fun rl1 =>
              let rl2 := if hasTail b then rl1 ++ [tailEntry b] else rl1 in
              if Num.ltb (Builder.bodyAppMag theSun observerPos now b) faintestPlanetMag
              then match getSatellites b with
                   | Some l => renderPlanetarySystem l rl2
                   | None => rl2
                   end
              else rl2)).
  { destruct (included b) eqn:Hi; [|apply appendsOnly_id].
    apply appendsOnly_one. now apply P_body. }
  apply (appendsOnly_compose P
           (fun rl => if hasTail b then rl ++ [tailEntry b] else rl)
           (fun rl2 =>
              if Num.ltb (Builder.bodyAppMag theSun observerPos now b) faintestPlanetMag
              then match getSatellites b with
                   | Some l => renderPlanetarySystem l rl2
                   | None => rl2
                   end
              else rl2)).
  { destruct (hasTail b) eqn:Ht; [|apply appendsOnly_id].
    apply appendsOnly_one. now apply P_tail. }
  destruct (Num.ltb _ faintestPlanetMag); [|apply appendsOnly_id].
  destruct (getSatellites b) as [l|]; [|apply appendsOnly_id].
  now apply system_appendsOnly.
Qed.
End Generic.

(** X8.  Every entry [renderPlanetarySystem] adds names a body and no star,
    and the body exists at the time of the frame.  An entry for the body
    itself has a disc larger than a pixel or is brighter than the faintest
    visible planet; an entry for a tail belongs to a comet, is made only
    when tails are shown, and its disc, computed from the fixed tail
    radius, is larger than a pixel. *)
Theorem listed_entries_qualify (solSystem : list Body)
    (renderList : list RenderListEntry) :
  exists added,
    renderPlanetarySystem solSystem renderList = renderList ++ added
    /\ Forall (fun e =>
         star e = None
         /\ exists b, body e = Some b /\ extant b now = true
              /\ if isCometTail e
                 then getClassification b = Comet /\ showCometTails = true
                      /\ radius e = Builder.cometTailRadius
                      /\ 1 < discSizeInPixels e
                 else radius e = getRadius b
                      /\ (1 < discSizeInPixels e \/ appMag e < faintestPlanetMag))
         added.
Proof.
  set (P := fun e : RenderListEntry =>
         star e = None
         /\ exists b, body e = Some b /\ extant b now = true
              /\ if isCometTail e
                 then getClassification b = Comet /\ showCometTails = true
                      /\ radius e = Builder.cometTailRadius
                      /\ 1 < discSizeInPixels e
                 else radius e = getRadius b
                      /\ (1 < discSizeInPixels e \/ appMag e < faintestPlanetMag)).
  assert (Hb : forall b, extant b now = true -> included b = true -> P (bodyEntry b)).
  { intros b Hex Hi. split; [reflexivity|]. exists b. split; [reflexivity|].
    split; [assumption|]. simpl. split; [reflexivity|].
    unfold Builder.included in Hi. apply andb_true_iff in Hi as [Hi _].
    apply orb_true_iff in Hi as [Hi|Hi].
    - left. now destruct (ltb_reflect 1 (Builder.discSizeOf pixelSize (getRadius b)
                            (Builder.distanceFromObserver observerPos now b))).
    - right. now destruct (ltb_reflect (Builder.bodyAppMag theSun observerPos now b)
                             faintestPlanetMag). }
  assert (Ht : forall b, extant b now = true -> hasTail b = true -> P (tailEntry b)).
  { intros b Hex Hi. split; [reflexivity|]. exists b. split; [reflexivity|].
    split; [assumption|]. simpl.
    unfold Builder.hasTail in Hi. apply andb_true_iff in Hi as [Hi Hd].
    apply andb_true_iff in Hi as [Hc Hs]. apply Classification_eqb_eq in Hc.
    repeat split; try assumption.
    now destruct (ltb_reflect 1 (Builder.discSizeOf pixelSize Builder.cometTailRadius
                    (Builder.distanceFromObserver observerPos now b))). }
  destruct (system_appendsOnly P solSystem) as (added & Hall & Hrl).
  { apply Forall_forall. intros b _. now apply renderBody_appendsOnly. }
  exists added. split; [apply Hrl | exact Hall].
Qed.

(** X9.  A body that does not exist at the time of the frame, or is not
    brighter than the faintest visible planet, hides everything below it:
    what [renderPlanetarySystem] adds for it are entries for the body
    itself, at most two, and none for its satellites, whatever their size. *)
Theorem faint_body_hides_satellites (b : Body) (renderList : list RenderListEntry) :
  extant b now = false
  \/ ~ Builder.bodyAppMag theSun observerPos now b < faintestPlanetMag ->
  exists own,
    renderPlanetarySystem [b] renderList = renderList ++ own
    /\ (length own <= 2)%nat
    /\ Forall (fun e => body e = Some b) own
    /\ (extant b now = false -> own = []).
Proof.
  intros Hwhy. unfold Builder.renderPlanetarySystem. simpl.
  rewrite renderBody_unfold.
  destruct (extant b now) eqn:Hex; simpl.
  2:{ exists []. rewrite app_nil_r. repeat split; [simpl; lia | constructor]. }
  destruct Hwhy as [Hf|Hdim]; [discriminate|].
  destruct (ltb_reflect (Builder.bodyAppMag theSun observerPos now b)
              faintestPlanetMag) as [Hb|_]; [contradiction|].
  destruct (included b), (hasTail b).
  - exists [bodyEntry b; tailEntry b]. rewrite <- app_assoc.
    repeat split; [simpl; lia | repeat constructor | discriminate].
  - exists [bodyEntry b]. repeat split; [simpl; lia | repeat constructor | discriminate].
  - exists [tailEntry b]. repeat split; [simpl; lia | repeat constructor | discriminate].
  - exists []. rewrite app_nil_r. repeat split; [simpl; lia | constructor].
Qed.
End BuilderMore.

Lemma faint_body_hides_satellites_witness :
  exists own,
    @Builder.renderPlanetarySystem ExactMath (1 # 1000000) 6 false exampleStar
      zeroPoint 0 [faintPlanetWithMoon] [] = [] ++ own
    /\ (length own <= 2)%nat
    /\ Forall (fun e => body e = Some faintPlanetWithMoon) own
    /\ (extant faintPlanetWithMoon 0 = false -> own = []).
Proof.
  apply (@faint_body_hides_satellites ExactMath (1 # 1000000) 6 false exampleStar
           zeroPoint 0 faintPlanetWithMoon []).
  right. vm_compute. discriminate.
Defined.

(** ** Eclipses *)

Section EclipseFacts.
Context `{MathLib}.

(** X10.  When the sun has a non-negative apparent radius and the caster a
    positive one, the shadow [testEclipse] records has an umbra no wider
    than the caster and a penumbra no narrower. *)
Theorem shadow_radii_ordered (receiver caster : Body) (now : Q) :
  0 <= getRadius caster ->
  0 <= Eclipse.appSunRadius receiver now ->
  0 < Eclipse.appOccluderRadius receiver caster now ->
  let shadow := Eclipse.shadowOf receiver caster now in
  Eclipse.umbraRadius shadow <= getRadius caster
  /\ getRadius caster <= Eclipse.penumbraRadius shadow.
Proof.
  intros Hr Hs Ho shadow. subst shadow. simpl. unfold Eclipse.shadowRadius.
  set (r := getRadius caster) in *.
  set (s := Eclipse.appSunRadius receiver now) in *.
  set (o := Eclipse.appOccluderRadius receiver caster now) in *.
  clearbody r s o.
  assert (Hk : 0 <= s / o) by (apply Qle_shift_div_l; lra).
  assert (Hu : r * (o - s) / o == r * (1 - s / o)) by (field; lra).
  rewrite Hu. split; nra.
Qed.

(** Testing a list of casters one after the other appends the shadows of
    those that shade the body, in order. *)
Lemma testEclipse_all (body : Body) (now : Q) (cs : list Body)
    (l : list Eclipse.EclipseShadow) :
  foldl (fun l c => (Eclipse.testEclipse body c now l).2) l cs
  = l ++ ((fun c => Eclipse.shadowOf body c now)
            <$> filter (EclipseUse.shades body now) cs).
Proof.
  revert l. induction cs as [|c cs IH]; intros l; simpl.
  - now rewrite app_nil_r.
  - rewrite IH. unfold Eclipse.testEclipse. rewrite filter_cons.
    destruct (Eclipse.casterAccepted body c) eqn:Ha; simpl.
    + destruct (Eclipse.inShadow body c now) eqn:Hs; simpl.
      * rewrite decide_True
          by (unfold EclipseUse.shades; rewrite Ha, Hs; reflexivity).
        simpl. now rewrite <- app_assoc.
      * rewrite decide_False
          by (unfold EclipseUse.shades; rewrite Ha, Hs; discriminate).
        reflexivity.
    + rewrite decide_False by (unfold EclipseUse.shades; rewrite Ha; discriminate).
      reflexivity.
Qed.

(** X11.  When [renderPlanet] draws a body with a disc larger than a
    pixel, eclipse shadows are shown, and the body is not invisible and
    belongs to a system, the shadow list is rebuilt from nothing: it
    holds, in order, the shadows of exactly those casters that pass the
    guard of [testEclipse] and shade the body, where the casters are the
    body's satellites for a planet, and the primary followed by the other
    bodies of the system for a moon.  The shadows are handed to the
    renderer exactly when there is one.  For a body with a disc of at most
    a pixel the list is left as it is and nothing is handed over. *)
Theorem eclipse_circumstances_rebuilt (pixelSize : Q) (system : PlanetarySystem)
    (body : Body) (distance nearPlaneDistance now : Q)
    (eclipseShadows : list Eclipse.EclipseShadow) :
  getClassification body <> Invisible ->
  EclipseUse.eclipseCircumstances pixelSize true (Some system) body distance
    nearPlaneDistance now eclipseShadows
  = if Num.ltb 1 (EclipseUse.planetDiscSize pixelSize body distance nearPlaneDistance)
    then
      let shadows :=
        (fun c => Eclipse.shadowOf body c now)
          <$> filter (EclipseUse.shades body now) (EclipseUse.casters system body) in
      (shadows, match shadows with [] => false | _ => true end)
    else (eclipseShadows, false).
Proof.
  intros Hvis. unfold EclipseUse.eclipseCircumstances, EclipseUse.casters.
  destruct (Num.ltb 1 _); [|reflexivity].
  destruct (Classification_eqb (getClassification body) Invisible) eqn:E.
  { apply Classification_eqb_eq in E. contradiction. }
  simpl.
  assert (Hlen : forall l : list Eclipse.EclipseShadow,
            negb (length l =? 0)%nat = match l with [] => false | _ => true end).
  { now intros [|? ?]. }
  destruct (getPrimaryBody system) as [planet|].
  - rewrite Hlen. f_equal; [|f_equal].
    all: set (first := (Eclipse.testEclipse body planet now []).2).
    all: assert (Hsib : forall l, foldl (fun l c =>
                     if (bodyAddr c =? bodyAddr body)%nat then l
                     else (Eclipse.testEclipse body c now l).2) l (systemBodies system)
                   = foldl (fun l c => (Eclipse.testEclipse body c now l).2) l
                       (filter (fun c => bodyAddr c <> bodyAddr body)
                          (systemBodies system))).
    all: try (intros l; revert l; induction (systemBodies system) as [|c cs IH];
              intros l; simpl; [reflexivity|]; rewrite filter_cons;
              destruct (Nat.eqb_spec (bodyAddr c) (bodyAddr body)) as [Heq|Hne];
              [rewrite decide_False by (intros Hn; contradiction); apply IH
              |rewrite decide_True by assumption; simpl; apply IH]).
    all: rewrite Hsib, testEclipse_all; subst first.
    all: change (planet :: ?t) with ([planet] ++ t);
         rewrite filter_app, fmap_app;
         pose proof (testEclipse_all body now [planet] []) as Hp;
         simpl in Hp; rewrite Hp; reflexivity.
  - destruct (getSatellites body) as [sats|]; simpl.
    + rewrite Hlen, testEclipse_all. reflexivity.
    + reflexivity.
Qed.
End EclipseFacts.

Lemma shadow_radii_ordered_witness :
  let shadow := @Eclipse.shadowOf ExactMath shadedMoon (planetAt 5000) 0 in
  Eclipse.umbraRadius shadow <= 5000 /\ 5000 <= Eclipse.penumbraRadius shadow.
Proof.
  apply (@shadow_radii_ordered ExactMath shadedMoon (planetAt 5000) 0).
  - vm_compute. discriminate.
  - vm_compute. discriminate.
  - vm_compute. reflexivity.
Defined.

Lemma eclipse_circumstances_rebuilt_witness :
  exists later,
    @EclipseUse.eclipseCircumstances ExactMath (1 # 1000) true (Some moonSystem)
      shadedMoon 2000 1 0 []
    = (@Eclipse.shadowOf ExactMath shadedMoon (planetAt 5000) 0 :: later, true).
Proof.
  rewrite (@eclipse_circumstances_rebuilt ExactMath (1 # 1000) moonSystem
             shadedMoon 2000 1 0 []).
  - eexists. vm_compute. reflexivity.
  - discriminate.
Defined.

(** ** The orbit cache, continued *)

Section OrbitCacheMore.
Import OrbitCache.
Variable orbitPathSamplePoints : Z.

Local Abbreviation cacheTrajectory :=
  (OrbitCache.cacheTrajectory orbitPathSamplePoints).

(** X12.  A body with a periodic orbit, or with an orbit whose valid range
    is empty, is sampled from the time of the call with the configured
    number of points.  Any other body is sampled from the start of the
    valid range of its orbit, with a hundred points for each unit of its
    period, but no fewer than 100 and no more than 1000; a period whose
    hundredfold does not fit an [int] gives 100. *)
Theorem samplingPlan_bounds (b : Body) (t : Q) :
  let plan := OrbitCache.samplingPlan orbitPathSamplePoints b t in
  let range := getValidRange (getOrbit b) in
  if isPeriodic (getOrbit b) || Qeq_bool range.1 range.2
  then plan = (t, orbitPathSamplePoints)
  else plan.1 = range.1
       /\ (100 <= plan.2 <= 1000)%Z
       /\ let n := Num.truncate (getPeriod (getOrbit b) * 100) in
          ((100 <= n <= 1000)%Z -> plan.2 = n)
          /\ ((1000 < n <= Num.INT_MAX)%Z -> plan.2 = 1000%Z)
          /\ ((n < 100)%Z \/ (Num.INT_MAX < n)%Z -> plan.2 = 100%Z).
Proof.
  unfold OrbitCache.samplingPlan.
  destruct (isPeriodic (getOrbit b)); simpl; [reflexivity|].
  destruct (getValidRange (getOrbit b)) as [begin end_]. simpl.
  destruct (Qeq_bool begin end_); simpl; [reflexivity|].
  split; [reflexivity|]. unfold Num.toInt, Num.INT_MIN, Num.INT_MAX.
  generalize (Num.truncate (getPeriod (getOrbit b) * 100)). intros n.
  destruct (Z.leb_spec (- 2 ^ 31) n), (Z.leb_spec n (2 ^ 31 - 1)); simpl; lia.
Qed.

(** The probe with a period of two and a half days is sampled at 250
    points from the start of its range; the one with a period beyond the
    range of [int] at 100. *)
Lemma samplingPlan_examples :
  OrbitCache.samplingPlan orbitPathSamplePoints probe 15 = (10, 250%Z)
  /\ OrbitCache.samplingPlan orbitPathSamplePoints slowProbe 15 = (10, 100%Z).
Proof. split; reflexivity. Qed.

Lemma cachedBodies_alter_keep k cache :
  cachedBodies (alter (setKeep true) k cache) = cachedBodies cache.
Proof.
  unfold cachedBodies. revert k. induction cache as [|c cache IH]; intros [|k];
    simpl; try reflexivity.
  - specialize (IH k). unfold alter, omap in IH.
    destruct (body c); simpl; [f_equal|]; exact IH.
Qed.

Lemma cachedBodies_reuse k c o cache :
  cache !! k = Some c -> body c = None ->
  cachedBodies (<[k := o]> cache) ≡ₚ cachedBodies [o] ++ cachedBodies cache.
Proof.
  unfold cachedBodies. revert k. induction cache as [|x cache IH]; intros [|k] Hk Hn;
    try discriminate; simpl in *.
  - injection Hk as ->. rewrite Hn. destruct (body o); reflexivity.
  - specialize (IH k Hk Hn). destruct (body x); simpl; [|exact IH].
    rewrite IH. destruct (body o); simpl; [apply Permutation_swap | reflexivity].
Qed.

Lemma not_cached b cache :
  list_find (fun c => body c = Some (bodyAddr b)) cache = None ->
  bodyAddr b ∉ cachedBodies cache.
Proof.
  intros Hnone Hin. apply list_find_None in Hnone. rewrite Forall_forall in Hnone.
  unfold cachedBodies in Hin. apply list_elem_of_omap in Hin as (c & Hc & Hb).
  exact (Hnone c Hc Hb).
Qed.

(** After a call the cache names the bodies it named before, and the body
    of the call if it was not among them. *)
Lemma cacheTrajectory_bodies b t cache :
  cachedBodies (cacheTrajectory b t cache).1.1 = cachedBodies cache
  \/ ((bodyAddr b ∉ cachedBodies cache)
      /\ cachedBodies (cacheTrajectory b t cache).1.1
         ≡ₚ bodyAddr b :: cachedBodies cache).
Proof.
  unfold OrbitCache.cacheTrajectory.
  destruct (list_find (fun c => body c = Some (bodyAddr b)) cache)
    as [[k c]|] eqn:Hfind.
  - left. simpl. apply cachedBodies_alter_keep.
  - right. split; [now apply not_cached|].
    destruct (OrbitCache.samplingPlan orbitPathSamplePoints b t) as [s n].
    destruct (list_find (fun c => body c = None) cache) as [[k c]|] eqn:Hfree; simpl.
    + apply list_find_Some in Hfree as (Hk & Hn & _).
      now rewrite (cachedBodies_reuse k c _ cache Hk Hn).
    + unfold cachedBodies. rewrite omap_app. simpl.
      now rewrite <- Permutation_cons_append.
Qed.

Lemma cacheTrajectory_NoDup b t cache :
  NoDup (cachedBodies cache) -> NoDup (cachedBodies (cacheTrajectory b t cache).1.1).
Proof.
  intros Hnd. destruct (cacheTrajectory_bodies b t cache) as [->|[Hnew ->]];
    [assumption|]. now constructor.
Qed.

(** X13.  A call never shrinks the cache and lengthens it by at most one
    entry; it leaves the length alone when the body is cached or some entry
    is free for recycling. *)
Theorem cacheTrajectory_length (b : Body) (t : Q) (cache : list CachedOrbit) :
  (length cache <= length (cacheTrajectory b t cache).1.1 <= S (length cache))%nat
  /\ ((exists c, c ∈ cache /\ (body c = Some (bodyAddr b) \/ body c = None)) ->
      length (cacheTrajectory b t cache).1.1 = length cache).
Proof.
  unfold OrbitCache.cacheTrajectory.
  destruct (list_find (fun c => body c = Some (bodyAddr b)) cache)
    as [[k c]|] eqn:Hfind.
  - simpl. rewrite length_alter. split; [lia | reflexivity].
  - destruct (OrbitCache.samplingPlan orbitPathSamplePoints b t) as [s n].
    destruct (list_find (fun c => body c = None) cache) as [[k c]|] eqn:Hfree; simpl.
    + rewrite length_insert. split; [lia | reflexivity].
    + rewrite length_app. simpl. split; [lia|].
      intros (c & Hc & [Hb|Hb]).
      * apply list_find_None in Hfind. rewrite Forall_forall in Hfind.
        destruct (Hfind c Hc Hb).
      * apply list_find_None in Hfree. rewrite Forall_forall in Hfree.
        destruct (Hfree c Hc Hb).
Qed.

Lemma cachedBodies_clearKeep cache :
  cachedBodies (OrbitCache.clearKeep cache) = cachedBodies cache.
Proof.
  unfold cachedBodies, OrbitCache.clearKeep.
  induction cache as [|c cache IH]; [reflexivity|].
  unfold omap, fmap in IH. simpl. rewrite IH. reflexivity.
Qed.

Lemma cachedBodies_recycle cache :
  cachedBodies (OrbitCache.recycleUnused cache) `sublist_of` cachedBodies cache.
Proof.
  unfold cachedBodies, OrbitCache.recycleUnused.
  induction cache as [|c cache IH]; [reflexivity|].
  simpl. destruct (keep c); simpl.
  - destruct (body c); [now apply sublist_skip | exact IH].
  - destruct (body c); [now apply sublist_cons | exact IH].
Qed.
End OrbitCacheMore.

Section OrbitFrameMore.
Import OrbitCache.
Context `{MathLib}.
Variables (orbitPathSamplePoints : Z) (showPartialTrajectories : bool).
Variables (orbitMask : Z) (minOrbitSize pixelSize : Q).
Variable classificationBits : Classification -> Z.

Local Abbreviation cacheTrajectory :=
  (OrbitCache.cacheTrajectory orbitPathSamplePoints).
Local Abbreviation renderOrbit :=
  (OrbitCache.renderOrbit orbitPathSamplePoints showPartialTrajectories).
Local Abbreviation drawTrajectory :=
  (OrbitCache.drawTrajectory showPartialTrajectories).
Local Abbreviation renderOrbits :=
  (OrbitCache.renderOrbits orbitPathSamplePoints showPartialTrajectories
     orbitMask minOrbitSize pixelSize classificationBits).
Local Abbreviation renderFrameOrbits :=
  (OrbitCache.renderFrameOrbits orbitPathSamplePoints showPartialTrajectories
     orbitMask minOrbitSize pixelSize classificationBits).

(** X14.  No body owns two entries of the orbit cache: a cache with at most
    one entry for each body is left so by a call of [renderOrbit] and by
    the orbit block of a frame. *)
Theorem orbit_cache_one_entry_per_body (b : Body) (t : Q) (showOrbits : bool)
    (solarSystem : option SolarSystem) (sel : option nat) (now : Q)
    (obsPos : Point3) (r : Renderer) :
  NoDup (cachedBodies (orbitCache r)) ->
  NoDup (cachedBodies (orbitCache (renderOrbit b t r)))
  /\ NoDup (cachedBodies
              (orbitCache (renderFrameOrbits showOrbits solarSystem sel now obsPos r))).
Proof.
  intros Hnd. split.
  - rewrite renderOrbit_unfold. simpl. now apply cacheTrajectory_NoDup.
  - unfold OrbitCache.renderFrameOrbits.
    destruct solarSystem as [system|]; [|exact Hnd].
    destruct (showOrbits && negb (orbitMask =? 0)%Z); [|exact Hnd].
    simpl. eapply sublist_NoDup; [|apply cachedBodies_recycle].
    apply (renderOrbits_preserves orbitPathSamplePoints showPartialTrajectories
             orbitMask minOrbitSize pixelSize classificationBits
             (fun s => NoDup (cachedBodies (orbitCache s)))).
    + intros b' t' s Hs. rewrite renderOrbit_unfold. simpl.
      now apply cacheTrajectory_NoDup.
    + simpl. now rewrite cachedBodies_clearKeep.
Qed.

(** Where the entries of the cache come from after a call: an entry is an
    old one, the old entry of the body with its mark set, or the new entry
    of the body; the last two hold the trajectory the call draws. *)
Lemma cacheTrajectory_entries b t cache c' :
  c' ∈ (cacheTrajectory b t cache).1.1 ->
  c' ∈ cache
  \/ (body c' = Some (bodyAddr b) /\ keep c' = true
      /\ trajectory c' = (cacheTrajectory b t cache).1.2).
Proof.
  unfold OrbitCache.cacheTrajectory.
  destruct (list_find (fun c => body c = Some (bodyAddr b)) cache)
    as [[k c]|] eqn:Hfind.
  - simpl. intros Hin. apply list_elem_of_lookup in Hin as [j Hj].
    apply list_find_Some in Hfind as (Hk & Hb & _).
    destruct (decide (j = k)) as [->|Hne].
    + rewrite list_lookup_alter_eq, Hk in Hj. injection Hj as <-.
      right. auto.
    + rewrite list_lookup_alter_ne in Hj by congruence.
      left. eapply list_elem_of_lookup_2. exact Hj.
  - destruct (OrbitCache.samplingPlan orbitPathSamplePoints b t) as [s n].
    destruct (list_find (fun c => body c = None) cache) as [[k c]|] eqn:Hfree;
      simpl; intros Hin.
    + apply list_elem_of_lookup in Hin as [j Hj].
      apply list_find_Some in Hfree as (Hk & _ & _).
      destruct (decide (j = k)) as [->|Hne].
      * rewrite list_lookup_insert_eq in Hj by (now apply lookup_lt_Some in Hk).
        injection Hj as <-. right. auto.
      * rewrite list_lookup_insert_ne in Hj by congruence.
        left. eapply list_elem_of_lookup_2. exact Hj.
    + apply elem_of_app in Hin as [Hin|Hin]; [now left|].
      apply list_elem_of_singleton in Hin as ->. right. auto.
Qed.

(** X15.  After the orbit block of a frame that renders orbits, every
    entry of the cache that still belongs to a body is marked and holds a
    trajectory that was drawn for that body in this frame: what was not
    drawn has been given up. *)
Theorem frame_keeps_only_drawn_orbits (system : SolarSystem) (sel : option nat)
    (now : Q) (obsPos : Point3) (r : Renderer) :
  orbitMask <> 0%Z ->
  let r' := renderFrameOrbits true (Some system) sel now obsPos r in
  exists drawn, events r' = events r ++ drawn
    /\ Forall (fun c => forall a, body c = Some a ->
                keep c = true
                /\ exists loop vs, Drew a (trajectory c) loop vs ∈ drawn)
         (orbitCache r').
Proof.
  intros Hmask r'. subst r'. unfold OrbitCache.renderFrameOrbits.
  destruct (Z.eqb_spec orbitMask 0) as [|_]; [contradiction|]. simpl.
  set (r0 := mkRenderer (OrbitCache.clearKeep (orbitCache r)) (events r)).
  assert (Hwalk : exists drawn,
            events (renderOrbits (getPlanets system) sel now obsPos zeroPoint r0)
            = events r ++ drawn
            /\ Forall (fun c => keep c = true ->
                  exists a, body c = Some a
                    /\ exists loop vs, Drew a (trajectory c) loop vs ∈ drawn)
                 (orbitCache
                    (renderOrbits (getPlanets system) sel now obsPos zeroPoint r0))).
  { apply (renderOrbits_preserves orbitPathSamplePoints showPartialTrajectories
             orbitMask minOrbitSize pixelSize classificationBits
             (fun s => exists drawn, events s = events r ++ drawn
                /\ Forall (fun c => keep c = true ->
                     exists a, body c = Some a
                       /\ exists loop vs, Drew a (trajectory c) loop vs ∈ drawn)
                     (orbitCache s))).
    - intros b t s (drawn & Hev & Hall). rewrite renderOrbit_unfold. simpl.
      eexists. split; [rewrite Hev, <- app_assoc; reflexivity|].
      rewrite Forall_forall in Hall |- *. intros c' Hin Hkeep.
      apply cacheTrajectory_entries in Hin as [Hin|(Hb & _ & HT)].
      + destruct (Hall c' Hin Hkeep) as (a & Ha & loop & vs & Hd).
        exists a. split; [exact Ha|]. exists loop, vs.
        apply elem_of_app. now left.
      + exists (bodyAddr b). split; [exact Hb|]. do 2 eexists.
        apply elem_of_app. right. apply elem_of_app. right.
        apply list_elem_of_singleton. rewrite HT. reflexivity.
    - exists []. split; [now rewrite app_nil_r|].
      subst r0. simpl. eapply Forall_impl; [apply clearKeep_all_false|].
      simpl. intros c Hc Hk. congruence. }
  destruct Hwalk as (drawn & Hev & Hall).
  exists drawn. simpl. split; [exact Hev|].
  unfold OrbitCache.recycleUnused. apply Forall_fmap.
  eapply Forall_impl; [exact Hall|]. simpl. intros c Hc a.
  destruct (keep c) eqn:Hk; [|discriminate].
  intros Ha. split; [exact Hk|].
  destruct (Hc eq_refl) as (a' & Ha' & Hd).
  rewrite Ha in Ha'. injection Ha' as <-. exact Hd.
Qed.

(** X16.  [renderOrbit] hands the rasteriser the cached samples in order,
    converted to astronomical units; under partial trajectories an orbit
    that is not periodic is cut at the first sample that is not before the
    time of the call and ended at the present position of the body.  The
    line never has more vertices than the trajectory has samples. *)
Theorem drawTrajectory_vertices (b : Body) (t : Q) (T : list OrbitSample) :
  let vertex := fun p => OrbitCache.vertexOf (samp_pos p) in
  (length (drawTrajectory b t T) <= length T)%nat
  /\ (drawTrajectory b t T = map vertex T
      \/ (showPartialTrajectories = true /\ isPeriodic (getOrbit b) = false
          /\ exists done p rest, T = done ++ p :: rest
               /\ Forall (fun q => samp_t q < t) done
               /\ ~ samp_t p < t
               /\ drawTrajectory b t T
                  = map vertex done
                    ++ [OrbitCache.vertexOf (positionAtTime (getOrbit b) t)])).
Proof.
  intros vertex. unfold OrbitCache.drawTrajectory.
  destruct showPartialTrajectories; simpl;
    [|split; [now rewrite length_map | now left]].
  destruct (isPeriodic (getOrbit b)); simpl;
    [split; [now rewrite length_map | now left]|].
  induction T as [|p T [IHlen IH]]; simpl; [split; [lia | now left]|].
  destruct (ltb_reflect (samp_t p) t) as [Hlt|Hge].
  - destruct (OrbitCache.travelled t T) as [done midway] eqn:Htr.
    simpl in *. split; [lia|].
    destruct IH as [IH|(_ & _ & d & q & rest & HT & Hd & Hq & Heq)].
    + left. now f_equal.
    + right. split; [reflexivity|]. split; [reflexivity|].
      exists (p :: d), q, rest. split; [now rewrite HT|].
      split; [now constructor|]. split; [exact Hq|]. rewrite Heq. reflexivity.
  - simpl. split; [lia|]. right. split; [reflexivity|]. split; [reflexivity|].
    exists [], p, T. repeat split; auto.
Qed.
End OrbitFrameMore.

Lemma frame_keeps_only_drawn_orbits_witness :
  exists drawn,
    OrbitCache.events exampleOrbitFrame = drawn
    /\ Forall (fun c => forall a, OrbitCache.body c = Some a ->
                OrbitCache.keep c = true
                /\ exists loop vs,
                     OrbitCache.Drew a (OrbitCache.trajectory c) loop vs ∈ drawn)
         (OrbitCache.orbitCache exampleOrbitFrame).
Proof.
  apply (@frame_keeps_only_drawn_orbits ExactMath 100 false 1 0 1 (fun _ => 1%Z)
           onePlanetSystem None 0 (mkPoint3 0 0 10) staleRenderer).
  discriminate.
Defined.

Lemma orbit_cache_one_entry_per_body_witness :
  let r := OrbitCache.mkRenderer
             [OrbitCache.mkCachedOrbit (Some 10%nat) [] false;
              OrbitCache.mkCachedOrbit None [] false] [] in
  cachedBodies (OrbitCache.orbitCache r) = [10%nat]
  /\ NoDup (cachedBodies (OrbitCache.orbitCache
              (@OrbitCache.renderOrbit ExactMath 100 false
                 (exampleBody 3 1 Planet zeroPoint) 0 r))).
Proof.
  intros r. split; [reflexivity|].
  refine (proj1 (@orbit_cache_one_entry_per_body ExactMath 100 false 0 0 1
                   (fun _ => 1%Z) (exampleBody 3 1 Planet zeroPoint) 0 false None
                   None 0 zeroPoint r _)).
  apply NoDup_singleton.
Defined.

(** ** The star pass *)

Section StarBufferFacts.
Import StarBatcher.
Variable Color : Type.

Local Abbreviation Buffer := (StarVertexBuffer Color).
Local Abbreviation addStar := (StarBatcher.addStar Color).
Local Abbreviation finish := (StarPass.finish Color).

Local Abbreviation starsOf := (StarPass.starsOf Color).

Lemma addStar_room (v : StarVertex Color) (b : Buffer) :
  (length (pending Color b) < capacity Color b)%nat ->
  capacity Color (addStar v b) = capacity Color b
  /\ (length (pending Color (addStar v b)) < capacity Color b)%nat
  /\ starsOf (addStar v b) = starsOf b ++ [v]
  /\ exists batches, drawn Color (addStar v b) = drawn Color b ++ batches
       /\ Forall (fun batch => (0 < length batch <= capacity Color b)%nat) batches.
Proof.
  intros Hroom. unfold StarBatcher.addStar, StarPass.starsOf.
  destruct b as [cap p d]. simpl in *.
  destruct (Nat.ltb_spec (length p) cap) as [_|]; [|lia]. simpl.
  rewrite length_app. simpl.
  destruct (Nat.eqb_spec (length p + 1) cap) as [Hfull|Hnot]; simpl.
  - destruct (p ++ [v]) as [|x rest] eqn:Hp.
    { destruct p; discriminate. }
    simpl. rewrite <- Hp. repeat split; [lia| |].
    + rewrite concat_app. simpl. now rewrite !app_nil_r, app_assoc.
    + exists [p ++ [v]]. split; [reflexivity|]. constructor; [|constructor].
      rewrite length_app. simpl. lia.
  - repeat split; [rewrite length_app; simpl; lia | now rewrite app_assoc |].
    exists []. split; [now rewrite app_nil_r | constructor].
Qed.

Lemma addStar_all_room (vs : list (StarVertex Color)) (b : Buffer) :
  (length (pending Color b) < capacity Color b)%nat ->
  let b' := foldl (fun b v => addStar v b) b vs in
  capacity Color b' = capacity Color b
  /\ (length (pending Color b') < capacity Color b)%nat
  /\ starsOf b' = starsOf b ++ vs
  /\ exists batches, drawn Color b' = drawn Color b ++ batches
       /\ Forall (fun batch => (0 < length batch <= capacity Color b)%nat) batches.
Proof.
  revert b. induction vs as [|v vs IH]; intros b Hroom; simpl.
  - repeat split; [assumption | now rewrite app_nil_r |].
    exists []. split; [now rewrite app_nil_r | constructor].
  - destruct (addStar_room v b Hroom) as (Hc & Hr & Hs & batches & Hd & Hb).
    destruct (IH (addStar v b)) as (Hc' & Hr' & Hs' & batches' & Hd' & Hb').
    { now rewrite Hc. }
    rewrite Hc in *. repeat split; [assumption | assumption | |].
    + now rewrite Hs', Hs, <- app_assoc.
    + exists (batches ++ batches'). split; [now rewrite Hd', Hd, <- app_assoc|].
      apply Forall_app. split; assumption.
Qed.

Lemma finish_empties (b : Buffer) :
  (length (pending Color b) <= capacity Color b)%nat ->
  capacity Color (finish b) = capacity Color b
  /\ pending Color (finish b) = []
  /\ concat (drawn Color (finish b)) = starsOf b
  /\ exists batches, drawn Color (finish b) = drawn Color b ++ batches
       /\ Forall (fun batch => (0 < length batch <= capacity Color b)%nat) batches.
Proof.
  intros Hroom. unfold StarPass.finish, StarPass.render, StarPass.starsOf.
  destruct b as [cap p d]. simpl in *. destruct p as [|x p]; simpl.
  - repeat split; [now rewrite app_nil_r|].
    exists []. split; [now rewrite app_nil_r | constructor].
  - repeat split.
    + rewrite concat_app. simpl. now rewrite app_nil_r.
    + exists [x :: p]. split; [reflexivity|]. constructor; [|constructor].
      simpl in *. lia.
Qed.

(** X17.  The stars added to a vertex buffer that has room are all drawn
    by the time [finish] returns, once each and in the order they were
    added, after the stars that were waiting in the buffer; they leave in
    batches that are not empty and no larger than the capacity, and the
    buffer is left empty. *)
Theorem buffer_draws_every_star (vs : list (StarVertex Color)) (b : Buffer) :
  (length (pending Color b) < capacity Color b)%nat ->
  let b' := finish (foldl (fun b v => addStar v b) b vs) in
  pending Color b' = []
  /\ concat (drawn Color b') = concat (drawn Color b) ++ pending Color b ++ vs
  /\ exists batches, drawn Color b' = drawn Color b ++ batches
       /\ Forall (fun batch => (0 < length batch <= capacity Color b)%nat) batches.
Proof.
  intros Hroom b'. subst b'.
  destruct (addStar_all_room vs b Hroom) as (Hc & Hr & Hs & batches & Hd & Hb).
  destruct (finish_empties (foldl (fun b v => addStar v b) b vs))
    as (_ & Hp & Hcat & batches' & Hd' & Hb'); [lia|].
  split; [exact Hp|]. split.
  - rewrite Hcat, Hs. unfold StarPass.starsOf. now rewrite app_assoc.
  - exists (batches ++ batches'). split; [now rewrite Hd', Hd, <- app_assoc|].
    apply Forall_app. split; [exact Hb|]. now rewrite <- Hc.
Qed.
End StarBufferFacts.

Lemma buffer_draws_every_star_witness :
  let v := fun a => StarBatcher.mkStarVertex unit zeroPoint tt a 1 in
  let b := StarBatcher.mkStarVertexBuffer unit 2 [] [] in
  let b' := StarPass.finish unit
              (foldl (fun b x => StarBatcher.addStar unit x b) b [v 1; v 2; v 3]) in
  StarBatcher.pending unit b' = []
  /\ concat (StarBatcher.drawn unit b') = [v 1; v 2; v 3].
Proof.
  intros v b b'.
  destruct (buffer_draws_every_star unit [v 1; v 2; v 3] b) as (Hp & Hc & _).
  - simpl. lia.
  - split; [exact Hp | exact Hc].
Defined.

Section StarPassFacts.
Import StarBatcher.
Context `{MathLib}.
Variable Color : Type.
Variable getApparentColor : Star -> Color.
Variable clamp : Q -> Q.
Variables (kilometersToLightYears lightYearsToKilometers : Q -> Q).
Variable absToAppMag : Q -> Q -> Q.
Variable heliocentricPosition : Point3 -> Point3.

Local Abbreviation process :=
  (StarBatcher.process Color getApparentColor clamp kilometersToLightYears
     lightYearsToKilometers absToAppMag heliocentricPosition).
Local Abbreviation visit :=
  (StarPass.visit Color getApparentColor clamp kilometersToLightYears
     lightYearsToKilometers absToAppMag heliocentricPosition).
Local Abbreviation renderStars :=
  (StarPass.renderStars Color getApparentColor clamp kilometersToLightYears
     lightYearsToKilometers absToAppMag heliocentricPosition).

(** One call of [process] counts the star and then does one of three
    things: nothing more; add a billboard to the vertex buffer, with at
    most one glare particle; or append the star to the render list. *)
Lemma process_cases (st : Star) (distance appMag : Q) (sr : StarRenderer Color) :
  let sr' := process st distance appMag sr in
  nProcessed Color sr' = (nProcessed Color sr + 1)%Z
  /\ (nClose Color sr <= nClose Color sr' <= nClose Color sr + 1)%Z
  /\ ((starVertexBuffer Color sr' = starVertexBuffer Color sr
       /\ renderList Color sr' = renderList Color sr
       /\ glareParticles Color sr' = glareParticles Color sr
       /\ nRendered Color sr' = nRendered Color sr
       /\ nBright Color sr' = nBright Color sr)
      \/ ((exists v, starVertexBuffer Color sr'
                     = addStar Color v (starVertexBuffer Color sr))
          /\ renderList Color sr' = renderList Color sr
          /\ nRendered Color sr' = (nRendered Color sr + 1)%Z
          /\ ((glareParticles Color sr' = glareParticles Color sr
               /\ nBright Color sr' = nBright Color sr)
              \/ ((exists p, glareParticles Color sr'
                             = glareParticles Color sr ++ [p])
                  /\ nBright Color sr' = (nBright Color sr + 1)%Z)))
      \/ (starVertexBuffer Color sr' = starVertexBuffer Color sr
          /\ (exists e, renderList Color sr' = renderList Color sr ++ [e]
                /\ star e = Some st /\ body e = None
                /\ isCometTail e = false /\ 1 < discSizeInPixels e)
          /\ glareParticles Color sr' = glareParticles Color sr
          /\ nRendered Color sr' = nRendered Color sr
          /\ nBright Color sr' = nBright Color sr)).
Proof.
  unfold StarBatcher.process. cbv zeta.
  destruct (Num.ltb _ distance); simpl.
  { split; [reflexivity|]. split; [lia|]. left. auto. }
  destruct (_ || _); simpl.
  2:{ split; [reflexivity|]. split; [lia|]. left. auto. }
  assert (Hfar : Num.leb 0 1 = true) by reflexivity.
  destruct (Num.ltb distance 1); cbv iota; [|rewrite Hfar; cbv iota];
    try match goal with |- context [Num.leb ?d 1] =>
      destruct (leb_reflect d 1) as [Hd|Hd] end;
    try (destruct (billboard Color clamp _ _) as [alpha discSize];
         destruct (Num.ltb _ _); simpl;
         (split; [reflexivity|]); (split; [lia|]);
         right; left; (split; [eexists; reflexivity|]);
         (split; [reflexivity|]); (split; [reflexivity|]);
         [right; split; [eexists; reflexivity | reflexivity] | left; auto]).
  simpl. split; [reflexivity|]. split; [lia|].
  right. right. split; [reflexivity|]. split; [|auto].
  eexists. split; [reflexivity|]. simpl. repeat split. lra.
Qed.
(** The counters of the star renderer against what the calls left behind. *)
Lemma visit_counts (calls : list (Star * Q * Q)) (sr : StarRenderer Color) :
  (length (pending Color (starVertexBuffer Color sr))
   < capacity Color (starVertexBuffer Color sr))%nat ->
  let sr' := visit calls sr in
  let vb := starVertexBuffer Color sr in
  let vb' := starVertexBuffer Color sr' in
  capacity Color vb' = capacity Color vb
  /\ (length (pending Color vb') < capacity Color vb)%nat
  /\ nProcessed Color sr' = (nProcessed Color sr + Z.of_nat (length calls))%Z
  /\ Z.of_nat (length (StarPass.starsOf Color vb'))
     = (Z.of_nat (length (StarPass.starsOf Color vb))
        + (nRendered Color sr' - nRendered Color sr))%Z
  /\ Z.of_nat (length (glareParticles Color sr'))
     = (Z.of_nat (length (glareParticles Color sr))
        + (nBright Color sr' - nBright Color sr))%Z
  /\ (0 <= nBright Color sr' - nBright Color sr
      <= nRendered Color sr' - nRendered Color sr)%Z
  /\ (0 <= nClose Color sr' - nClose Color sr <= Z.of_nat (length calls))%Z
  /\ exists added, renderList Color sr' = renderList Color sr ++ added
       /\ Forall (fun e => star e <> None /\ body e = None
                           /\ 1 < discSizeInPixels e) added
       /\ (nRendered Color sr' - nRendered Color sr + Z.of_nat (length added)
           <= Z.of_nat (length calls))%Z.
Proof.
  intros Hroom. cbv zeta. unfold StarPass.visit.
  induction calls as [|c calls IH] using rev_ind.
  - simpl. repeat split; try lia. exists [].
    split; [now rewrite app_nil_r|]. split; [constructor | simpl; lia].
  - rewrite foldl_app. simpl.
    set (sr1 := foldl _ sr calls) in *.
    destruct IH as (Hc & Hr & Hp & Hs & Hg & Hb & Hcl & added & Hrl & Hadd & Hn).
    rewrite length_app. simpl length.
    pose proof (process_cases c.1.1 c.1.2 c.2 sr1) as Hstep. cbv zeta in Hstep.
    set (sr2 := process c.1.1 c.1.2 c.2 sr1) in *.
    destruct Hstep as (Hp2 & Hcl2 & Hcase).
    destruct Hcase as [(Hv & Hl & Hgl & Hnr & Hnb)
                      |[((v & Hv) & Hl & Hnr & Hglare)
                       |(Hv & (e & Hl & He1 & He2 & _ & He3) & Hgl & Hnr & Hnb)]].
    + rewrite Hv, Hl, Hgl, Hnr, Hnb.
      repeat split; try assumption; try lia.
      exists added. split; [assumption|]. split; [assumption | lia].
    + destruct (addStar_room Color v (starVertexBuffer Color sr1))
        as (Hc2 & Hr2 & Hs2 & _); [lia|].
      rewrite Hv, Hl, Hnr, Hc2, Hs2, length_app. simpl length.
      assert (Hgb : Z.of_nat (length (glareParticles Color sr2))
                    = (Z.of_nat (length (glareParticles Color sr))
                       + (nBright Color sr2 - nBright Color sr))%Z
                    /\ (0 <= nBright Color sr2 - nBright Color sr
                        <= nRendered Color sr1 + 1 - nRendered Color sr)%Z).
      { destruct Hglare as [(-> & ->)|((p & ->) & ->)].
        - split; lia.
        - rewrite length_app. simpl length. split; lia. }
      destruct Hgb as (Hg2 & Hb2).
      repeat split; try assumption; try lia.
      exists added. split; [assumption|]. split; [assumption | lia].
    + rewrite Hv, Hl, Hgl, Hnr, Hnb.
      repeat split; try assumption; try lia.
      exists (added ++ [e]). split; [now rewrite Hrl, <- app_assoc|].
      split.
      * apply Forall_app. split; [assumption|]. constructor; [|constructor].
        split; [congruence|]. split; assumption.
      * rewrite length_app. simpl length. lia.
Qed.

(** X18.  What the counters of the star renderer mean after
    [renderStars]: every call of [process] is counted in [nProcessed];
    [nRendered] counts the billboards, and as many stars have been drawn
    from the vertex buffer, which is left empty; [nBright] counts the
    glare particles; the render list has only grown, by stars with a disc
    wider than a pixel; and no star is both drawn as a billboard and put on
    the render list. *)
Theorem renderStars_counts (s : StarPass.StarSettings) (observerPos : Point3)
    (viewNormal : Vec3) (calls : list (Star * Q * Q))
    (rl : list RenderListEntry) (vb : StarVertexBuffer Color) :
  (length (pending Color vb) < capacity Color vb)%nat ->
  let sr := renderStars s observerPos viewNormal calls rl vb in
  let vb' := starVertexBuffer Color sr in
  nProcessed Color sr = Z.of_nat (length calls)
  /\ pending Color vb' = []
  /\ Z.of_nat (length (concat (drawn Color vb')))
     = (Z.of_nat (length (concat (drawn Color vb) ++ pending Color vb))
        + nRendered Color sr)%Z
  /\ Z.of_nat (length (glareParticles Color sr)) = nBright Color sr
  /\ (0 <= nBright Color sr <= nRendered Color sr)%Z
  /\ (0 <= nClose Color sr <= nProcessed Color sr)%Z
  /\ exists added, renderList Color sr = rl ++ added
       /\ Forall (fun e => star e <> None /\ body e = None
                           /\ 1 < discSizeInPixels e) added
       /\ (nRendered Color sr + Z.of_nat (length added) <= nProcessed Color sr)%Z.
Proof.
  intros Hroom. cbv zeta. unfold StarPass.renderStars.
  set (sr0 := StarPass.starRendererOf Color s observerPos viewNormal rl vb).
  pose proof (visit_counts calls sr0 Hroom) as Hv. cbv zeta in Hv.
  set (sr1 := visit calls sr0) in *.
  destruct Hv as (Hc & Hr & Hp & Hs & Hg & Hb & Hcl & added & Hrl & Hadd & Hn).
  simpl in Hc, Hr, Hp, Hs, Hg, Hb, Hcl, Hrl, Hn.
  destruct (finish_empties Color (starVertexBuffer Color sr1))
    as (_ & Hpend & Hcat & _); [lia|].
  simpl. split; [lia|]. split; [exact Hpend|].
  split; [unfold StarPass.starsOf in Hs; rewrite Hcat; unfold StarPass.starsOf; lia|].
  split; [lia|]. split; [lia|]. split; [lia|].
  exists added. split; [exact Hrl|]. split; [exact Hadd | lia].
Qed.


(** X19.  The alpha of a billboard is a proper opacity: with scaled discs
    by the code of [process] itself, otherwise as soon as [clamp] maps into
    the unit interval. *)
Theorem billboard_alpha_range (sr : StarRenderer Color) (appMag : Q) :
  useDiscs Color sr = true \/ (forall x, 0 <= clamp x <= 1) ->
  0 <= billboardAlpha Color clamp sr appMag <= 1.
Proof.
  intros Hc. unfold billboardAlpha, billboard.
  destruct (useDiscs Color sr) eqn:Hd.
  - destruct (ltb_reflect ((faintestMag Color sr - appMag) * brightnessScale Color sr
                           + brightnessBias Color sr) 0); simpl; [lra|].
    destruct (ltb_reflect 1 ((faintestMag Color sr - appMag) * brightnessScale Color sr
                             + brightnessBias Color sr)); simpl; lra.
  - destruct Hc as [Hc|Hc]; [discriminate|]. simpl. apply Hc.
Qed.

Lemma corrFacOf_ge_1 (fov : Q) : 1 <= StarPass.corrFacOf fov.
Proof.
  unfold StarPass.corrFacOf, FOV.
  assert (E : (12 # 100) * fov / 45 * fov / 45 + 1
              == (12 # 202500) * (fov * fov) + 1) by field.
  rewrite E. nra.
Qed.

Lemma brightnessScaleOf_pos (faintestMag saturationMag : Q) :
  0 < StarPass.brightnessScaleOf faintestMag saturationMag
  /\ StarPass.brightnessScaleOf faintestMag saturationMag <= 1 # 4.
Proof.
  unfold StarPass.brightnessScaleOf.
  destruct (leb_reflect 4 (faintestMag - saturationMag)) as [Hge|Hlt]; [|lra].
  split.
  - apply Qlt_shift_div_l; lra.
  - apply Qle_shift_div_r; lra.
Qed.

(** X20.  With the correction factor of [setFieldOfView] and the
    brightness scale chosen in [render], [renderStars] hands the star
    renderer a positive brightness scale of at most half the correction
    factor and a star size between zero and 1.6 pixels; the disc of a
    billboard is never smaller than that size and never more than eight
    times as large. *)
Theorem renderStars_setup (fov pixelSize bias faintestMag saturationMag limit : Q)
    (style : StarPass.StarStyle) (observerPos : Point3) (viewNormal : Vec3)
    (rl : list RenderListEntry) (vb : StarVertexBuffer Color) :
  0 <= pixelSize ->
  let s := StarPass.mkStarSettings fov (StarPass.corrFacOf fov) pixelSize
             (StarPass.brightnessScaleOf faintestMag saturationMag) bias
             faintestMag saturationMag limit style in
  let sr := StarPass.starRendererOf Color s observerPos viewNormal rl vb in
  0 < brightnessScale Color sr
  /\ brightnessScale Color sr <= StarPass.corrFacOf fov / 2
  /\ 0 <= size Color sr <= pixelSize * (16 # 10)
  /\ forall appMag,
       size Color sr <= (billboard Color clamp sr appMag).2
       /\ (billboard Color clamp sr appMag).2 <= 8 * size Color sr.
Proof.
  intros Hp s sr.
  pose proof (corrFacOf_ge_1 fov) as Hc.
  pose proof (brightnessScaleOf_pos faintestMag saturationMag) as [Hb Hb4].
  assert (Hsize : 0 <= size Color sr <= pixelSize * (16 # 10)).
  { subst sr s. simpl. split.
    - apply Qle_shift_div_l; lra.
    - apply Qle_shift_div_r; [lra|]. nra. }
  split; [|split; [|split; [exact Hsize|]]].
  - subst sr s. simpl. destruct (StarPass.isScaledDiscs style); nra.
  - subst sr s. simpl.
    revert Hc Hb Hb4. generalize (StarPass.corrFacOf fov).
    generalize (StarPass.brightnessScaleOf faintestMag saturationMag).
    intros b c Hc Hb Hb4.
    assert (E : c / 2 == c * (1 # 2)) by field. rewrite E.
    destruct (StarPass.isScaledDiscs style); nra.
  - intros appMag. unfold billboard.
    assert (Hmax : useDiscs Color sr = true ->
                   maxDiscSize Color sr == 8 * size Color sr).
    { subst sr s. simpl. destruct (StarPass.isScaledDiscs style); [|discriminate].
      intros _. unfold StarPass.MaxScaledDiscStarSize. ring. }
    revert Hsize Hmax. generalize (size Color sr) (maxDiscSize Color sr).
    intros sz mx Hsize Hmax.
    destruct (useDiscs Color sr); [|simpl; lra].
    specialize (Hmax eq_refl).
    generalize ((StarBatcher.faintestMag Color sr - appMag) * brightnessScale Color sr
                + brightnessBias Color sr).
    intros a. destruct (ltb_reflect a 0); simpl; [lra|].
    destruct (ltb_reflect 1 a) as [Ha|Ha]; simpl; [|lra].
    unfold Num.min. destruct (ltb_reflect mx (sz * (2 * a - 1))); simpl; nra.
Qed.

(** X21.  The particle an object is blended with fades out as the disc
    grows: under a clamp into the unit interval its alpha is the clamped
    brightness up to one pixel above the largest disc size, a proper
    opacity below the blend size, and nothing positive from the blend
    size on, where it is only drawn for the sake of its halo. *)
Theorem particle_alpha_fades (style : StarPass.StarStyle)
    (scale bias faintestMag appMag disc : Q) (useHaloes : bool) :
  (forall x, 0 <= clamp x <= 1) ->
  match StarPass.particleAlpha clamp style scale bias faintestMag appMag disc
          useHaloes with
  | Some a =>
    (disc <= StarPass.maxDiscSizeOf style + 1 ->
     a == clamp ((faintestMag - appMag) * scale + bias))
    /\ (disc < StarPass.maxBlendDiscSizeOf style -> 0 <= a <= 1)
    /\ (StarPass.maxBlendDiscSizeOf style <= disc -> a <= 0 /\ useHaloes = true)
  | None => StarPass.maxBlendDiscSizeOf style <= disc /\ useHaloes = false
  end.
Proof.
  intros Hclamp. unfold StarPass.particleAlpha.
  destruct (ltb_reflect disc (StarPass.maxBlendDiscSizeOf style)) as [Hlt|Hge];
    simpl; [|destruct useHaloes; [|split; [lra | reflexivity]]].
  all: specialize (Hclamp ((faintestMag - appMag) * scale + bias));
    revert Hclamp; generalize (clamp ((faintestMag - appMag) * scale + bias));
    intros c Hc.
  all: unfold StarPass.particleFade, StarPass.maxBlendDiscSizeOf in *.
  all: set (m := StarPass.maxDiscSizeOf style) in *.
  all: assert (E : (m + 3 - disc) / (m + 3 - m - 1) == (m + 3 - disc) * (1 # 2))
         by (field; lra).
  all: revert E; generalize ((m + 3 - disc) / (m + 3 - m - 1)); intros f E.
  all: destruct (ltb_reflect m disc); cbv zeta; [destruct (ltb_reflect 1 f)|].
  all: repeat split; intros; try reflexivity; try nra.
Qed.


End StarPassFacts.

Lemma clamp01_range (x : Q) : 0 <= clamp01 x <= 1.
Proof.
  unfold clamp01. destruct (ltb_reflect x 0); [lra|].
  destruct (ltb_reflect 1 x); lra.
Qed.

Lemma renderStars_counts_witness :
  StarBatcher.nProcessed unit exampleRenderStars = 2%Z
  /\ StarBatcher.pending unit (StarBatcher.starVertexBuffer unit exampleRenderStars)
     = [].
Proof.
  destruct (@renderStars_counts ExactMath unit (fun _ => tt) clamp01
              (fun km => km / 9460730472580) (fun ly => ly * 9460730472580)
              (fun absMag _ => absMag) (fun p => p)
              exampleStarSettings zeroPoint (mkVec3 0 0 (-1)) exampleStarCalls []
              (StarBatcher.mkStarVertexBuffer unit 2048 [] []))
    as (Hn & Hp & _).
  - simpl. lia.
  - split; [exact Hn | exact Hp].
Defined.

Lemma billboard_alpha_range_witness :
  0 <= StarBatcher.billboardAlpha unit clamp01 exampleStarRenderer 5 <= 1.
Proof.
  apply (billboard_alpha_range unit clamp01 exampleStarRenderer 5).
  right. exact clamp01_range.
Defined.

Lemma renderStars_setup_witness :
  let sr := StarPass.starRendererOf unit exampleStarSettings zeroPoint
              (mkVec3 0 0 (-1)) [] (StarBatcher.mkStarVertexBuffer unit 2048 [] []) in
  0 < StarBatcher.brightnessScale unit sr
  /\ StarBatcher.brightnessScale unit sr <= StarPass.corrFacOf 45 / 2.
Proof.
  destruct (renderStars_setup unit clamp01 45 (1 # 1000) 0 6 1 1000000
              StarPass.FuzzyPointStars zeroPoint (mkVec3 0 0 (-1)) []
              (StarBatcher.mkStarVertexBuffer unit 2048 [] []))
    as (Hpos & Hle & _).
  - discriminate.
  - split; [exact Hpos | exact Hle].
Defined.

Lemma particle_alpha_fades_witness :
  exists a,
    StarPass.particleAlpha clamp01 StarPass.FuzzyPointStars (1 # 4) 0 6 5 3 false
    = Some a /\ 0 <= a <= 1.
Proof.
  pose proof (particle_alpha_fades clamp01 StarPass.FuzzyPointStars (1 # 4) 0 6 5 3
                false clamp01_range) as Hfade.
  destruct (StarPass.particleAlpha clamp01 StarPass.FuzzyPointStars (1 # 4) 0 6 5 3
              false) as [a|] eqn:Ha.
  - exists a. split; [reflexivity|]. apply Hfade. reflexivity.
  - destruct Hfade as [Hge _]. vm_compute in Hge. destruct Hge. reflexivity.
Defined.

(** ** The render loop and its labels *)

Section LabelFacts.
Variable Color : Type.

Local Abbreviation Label := (Labels.Label Color).
Local Abbreviation zOf := (fun l : Labels.Label Color => p_z (Labels.position Color l)).
Local Abbreviation renderSortedLabels := (Labels.renderSortedLabels Color).
Local Abbreviation renderEntry := (Labels.renderEntry Color).
Local Abbreviation renderLoop := (Labels.renderLoop Color).
Local Abbreviation labelsOf := (Labels.labelsOf Color).
Local Abbreviation objectsOf := (Labels.objectsOf Color).
Local Abbreviation depthSorted := (Labels.depthSorted Color).
Local Abbreviation occlusionOrdered := (Labels.occlusionOrdered Color).
Local Abbreviation DrewLabel := (Labels.DrewLabel Color).

(** One call draws the labels at the front of the iterator that are
    farther than [depth], and stops at the first that is not. *)
Lemma renderSortedLabels_spec font iter depth :
  iter = (renderSortedLabels font iter depth).1 ++ (renderSortedLabels font iter depth).2
  /\ Forall (fun l => depth < zOf l) (renderSortedLabels font iter depth).1
  /\ (font = false -> (renderSortedLabels font iter depth).1 = [])
  /\ (font = true ->
      forall l rest, (renderSortedLabels font iter depth).2 = l :: rest ->
        zOf l <= depth).
Proof.
  induction iter as [|l iter (IH1 & IH2 & IH3 & IH4)]; destruct font; simpl.
  - repeat split; auto; discriminate.
  - repeat split; auto; discriminate.
  - simpl in *. destruct (ltb_reflect depth (zOf l)) as [Hlt|Hge].
    + destruct (renderSortedLabels true iter depth) as [d r]. simpl in *.
      repeat split; [now f_equal | now constructor | discriminate | ].
      intros _. now apply IH4.
    + simpl. split; [reflexivity|]. split; [constructor|]. split; [discriminate|].
      intros _ l' rest [= <- <-]. lra.
  - repeat split; auto; discriminate.
Qed.

Lemma depthSorted_app_r (d r : list Label) : depthSorted (d ++ r) -> depthSorted r.
Proof. induction d as [|l d IH]; simpl; [auto | intros [_ Hs]; auto]. Qed.

Lemma depthSorted_bound (r : list Label) (depth : Q) :
  depthSorted r -> (forall l rest, r = l :: rest -> zOf l <= depth) ->
  Forall (fun l => zOf l <= depth) r.
Proof.
  destruct r as [|l r]; [constructor|]. simpl. intros [Hall _] Hhead.
  specialize (Hhead l r eq_refl). constructor; [exact Hhead|].
  eapply Forall_impl; [exact Hall|]. simpl. intros b Hb. lra.
Qed.

Lemma labelsOf_labels (d : list Label) : labelsOf (DrewLabel <$> d) = d.
Proof. induction d as [|l d IH]; simpl; [reflexivity | now f_equal]. Qed.

Lemma objectsOf_labels (d : list Label) : objectsOf (DrewLabel <$> d) = [].
Proof. induction d as [|l d IH]; simpl; [reflexivity | exact IH]. Qed.

Lemma labelsOf_app (a b : list (Labels.Drawn Color)) :
  labelsOf (a ++ b) = labelsOf a ++ labelsOf b.
Proof. apply omap_app. Qed.

Lemma objectsOf_app (a b : list (Labels.Drawn Color)) :
  objectsOf (a ++ b) = objectsOf a ++ objectsOf b.
Proof. apply omap_app. Qed.

Lemma occlusionOrdered_labels (d : list Label) : occlusionOrdered (DrewLabel <$> d).
Proof. induction d as [|l d IH]; simpl; [exact I | exact IH]. Qed.

Lemma occlusionOrdered_app (a b : list (Labels.Drawn Color)) :
  occlusionOrdered a -> occlusionOrdered b ->
  Forall (fun e => Forall (fun l => zOf l <= - farZ e) (labelsOf b)) (objectsOf a) ->
  occlusionOrdered (a ++ b).
Proof.
  induction a as [|[l|e n f] a IH]; simpl; intros Ha Hb Hcross; [exact Hb| |].
  - apply IH; assumption.
  - destruct Ha as [Hall Ha]. apply Forall_cons in Hcross as [He Hcross].
    split; [|apply IH; assumption].
    rewrite labelsOf_app. apply Forall_app. split; assumption.
Qed.

Lemma occlusionOrdered_split (a b : list (Labels.Drawn Color)) e n f :
  occlusionOrdered (a ++ Labels.DrewObject Color e n f :: b) ->
  Forall (fun l => zOf l <= - farZ e) (labelsOf b).
Proof.
  induction a as [|[l|e' n' f'] a IH]; simpl.
  - intros [Hall _]. exact Hall.
  - exact IH.
  - intros [_ Ha]. now apply IH.
Qed.

(** What holds of the state of the loop after any number of turns. *)
Lemma renderEntries_inv font (es : list RenderListEntry) (labels : list Label)
    (planes0 : Q * Q) :
  let st := foldl (renderEntry font) ([], labels, planes0) es in
  labels = labelsOf st.1.1 ++ st.1.2
  /\ objectsOf st.1.1 = filter Labels.present es
  /\ (font = false -> labelsOf st.1.1 = [])
  /\ (Forall (fun e => farZ e <= 0) es -> Forall (fun l => 0 < zOf l) (labelsOf st.1.1))
  /\ (depthSorted labels -> font = true ->
      Forall (fun e => Forall (fun l => zOf l <= - farZ e) st.1.2) (objectsOf st.1.1))
  /\ (depthSorted labels -> occlusionOrdered st.1.1).
Proof.
  cbv zeta. induction es as [|e es IH] using rev_ind.
  - simpl. repeat split; auto; constructor.
  - rewrite foldl_app. simpl.
    destruct (foldl (renderEntry font) ([], labels, planes0) es)
      as [[drawn label] planes].
    simpl in IH. destruct IH as (I1 & I2 & I3 & I4 & I5 & I6).
    unfold Labels.renderEntry.
    pose proof (renderSortedLabels_spec font label (- farZ e)) as (S1 & S2 & S3 & S4).
    destruct (renderSortedLabels font label (- farZ e)) as [d r]. simpl in *.
    set (planes' := if Num.ltb 1 (discSizeInPixels e) then planeDistances e else planes).
    set (object := match body e, star e with
                   | None, None => []
                   | _, _ => [Labels.DrewObject Color e planes'.1 planes'.2]
                   end).
    assert (Hol : labelsOf object = []).
    { subst object. destruct (body e), (star e); reflexivity. }
    assert (Hoo : objectsOf object = filter Labels.present [e]).
    { subst object. unfold Labels.present.
      destruct (body e) as [b|] eqn:Hb, (star e) as [s|] eqn:Hs; simpl;
        rewrite filter_cons, ?Hb, ?Hs.
      - rewrite decide_True by (left; eauto). reflexivity.
      - rewrite decide_True by (left; eauto). reflexivity.
      - rewrite decide_True by (right; eauto). reflexivity.
      - rewrite decide_False; [reflexivity|].
        intros [[? ?]|[? ?]]; discriminate. }
    assert (Hord_obj : occlusionOrdered object).
    { subst object. destruct (body e), (star e); simpl; auto. }
    assert (Hl' : labelsOf (drawn ++ (DrewLabel <$> d) ++ object) = labelsOf drawn ++ d).
    { now rewrite !labelsOf_app, labelsOf_labels, Hol, app_nil_r. }
    assert (Ho' : objectsOf (drawn ++ (DrewLabel <$> d) ++ object)
                  = objectsOf drawn ++ objectsOf object).
    { now rewrite !objectsOf_app, objectsOf_labels. }
    rewrite Hl', Ho'. split; [|split; [|split; [|split; [|split]]]].
    + rewrite I1, S1 at 1. now rewrite app_assoc.
    + now rewrite filter_app, I2, Hoo.
    + intros Hf. now rewrite I3, S3.
    + intros Hfar. apply Forall_app in Hfar as [Hfar He].
      apply Forall_app. split; [now apply I4|].
      apply Forall_cons in He as [He _].
      eapply Forall_impl; [exact S2|]. simpl. intros l Hl. lra.
    + intros Hs Hfont. apply Forall_app. split.
      * eapply Forall_impl; [exact (I5 Hs Hfont)|]. simpl. intros e0 Hall.
        rewrite S1 in Hall. now apply Forall_app in Hall as [_ Hall].
      * assert (Hr : Forall (fun l => zOf l <= - farZ e) r).
        { apply depthSorted_bound; [|now apply S4].
          rewrite I1, S1 in Hs. now do 2 apply depthSorted_app_r in Hs. }
        subst object. destruct (body e), (star e); simpl; repeat constructor; exact Hr.
    + intros Hs. apply occlusionOrdered_app; [now apply I6| |].
      * apply occlusionOrdered_app; [apply occlusionOrdered_labels | exact Hord_obj|].
        now rewrite objectsOf_labels.
      * assert (Hdl : labelsOf ((DrewLabel <$> d) ++ object) = d).
        { now rewrite labelsOf_app, labelsOf_labels, Hol, app_nil_r. }
        rewrite Hdl. destruct font.
        -- eapply Forall_impl; [exact (I5 Hs eq_refl)|]. simpl. intros e0 Hall.
           rewrite S1 in Hall. now apply Forall_app in Hall as [Hall _].
        -- rewrite S3 by reflexivity. apply Forall_forall. intros; constructor.
Qed.
(** The clip planes in force stay within the ratio, and an object with a
    disc wider than a pixel is drawn between the planes made for it. *)
Lemma renderEntries_planes font (es : list RenderListEntry) (labels : list Label)
    (planes0 : Q * Q) :
  Labels.planesWithinRatio planes0.1 planes0.2 ->
  let st := foldl (renderEntry font) ([], labels, planes0) es in
  Labels.planesWithinRatio st.2.1 st.2.2
  /\ Forall (fun d => match d with
                      | Labels.DrewObject _ e n f =>
                        Labels.planesWithinRatio n f
                        /\ (1 < discSizeInPixels e -> (n, f) = planeDistances e)
                      | Labels.DrewLabel _ _ => True
                      end) st.1.1.
Proof.
  intros H0. cbv zeta. induction es as [|e es IH] using rev_ind.
  - simpl. split; [exact H0 | constructor].
  - rewrite foldl_app. simpl.
    destruct (foldl (renderEntry font) ([], labels, planes0) es)
      as [[drawn label] planes].
    simpl in IH. destruct IH as (Hp & Hall).
    unfold Labels.renderEntry.
    destruct (renderSortedLabels font label (- farZ e)) as [d r]. simpl.
    assert (Hp' : Labels.planesWithinRatio
                    (if Num.ltb 1 (discSizeInPixels e) then planeDistances e
                     else planes).1
                    (if Num.ltb 1 (discSizeInPixels e) then planeDistances e
                     else planes).2).
    { destruct (Num.ltb 1 (discSizeInPixels e)); [|exact Hp].
      destruct (planeDistances_ratio e). split; assumption. }
    split; [exact Hp'|].
    apply Forall_app. split; [exact Hall|]. apply Forall_app. split.
    + apply Forall_fmap, Forall_forall. intros; exact I.
    + destruct (body e), (star e); repeat constructor; try exact Hp';
        try (destruct Hp'; assumption);
        intros Hlarge; destruct (ltb_reflect 1 (discSizeInPixels e));
        try contradiction; symmetry; apply surjective_pairing.
Qed.

Lemma renderLoop_unfold font (rl : list RenderListEntry) (labels : list Label) :
  renderLoop font rl labels
  = (foldl (renderEntry font) ([], labels, (1, 10)) (rev rl)).1.1
    ++ (DrewLabel
          <$> (renderSortedLabels font
                 (foldl (renderEntry font) ([], labels, (1, 10)) (rev rl)).1.2 0).1).
Proof.
  unfold Labels.renderLoop. cbv zeta.
  destruct (foldl (renderEntry font) ([], labels, (1, 10)) (rev rl)) as [[d l] p].
  reflexivity.
Qed.

(** X22.  The render loop draws the entries of the render list that have a
    body or a star, from the last to the first and nothing else; it draws
    the labels in the order of the sorted list, each at most once, and
    none without a font. *)
Theorem renderLoop_draws_in_order (font : bool) (rl : list RenderListEntry)
    (labels : list Label) :
  let drawn := renderLoop font rl labels in
  objectsOf drawn = filter Labels.present (rev rl)
  /\ (exists rest, labels = labelsOf drawn ++ rest)
  /\ (font = false -> labelsOf drawn = []).
Proof.
  cbv zeta. rewrite renderLoop_unfold.
  pose proof (renderEntries_inv font (rev rl) labels (1, 10)) as Hinv.
  cbv zeta in Hinv.
  destruct (foldl (renderEntry font) ([], labels, (1, 10)) (rev rl))
    as [[drawn label] planes].
  simpl in *. destruct Hinv as (I1 & I2 & I3 & _).
  pose proof (renderSortedLabels_spec font label 0) as (S1 & _ & S3 & _).
  rewrite labelsOf_app, objectsOf_app, labelsOf_labels, objectsOf_labels, app_nil_r.
  split; [exact I2|]. split.
  - eexists. rewrite I1, S1 at 1. now rewrite app_assoc.
  - intros Hf. now rewrite I3, S3.
Qed.

(** X23.  With a font, sorted labels and a render list that lies in front
    of the viewer, the labels drawn are those in front of the viewer: the
    sorted list is the labels drawn, all with a positive depth, followed by
    the labels left out, none with a positive depth. *)
Theorem labels_in_front_are_drawn (rl : list RenderListEntry) (labels : list Label) :
  depthSorted labels ->
  Forall (fun e => farZ e <= 0) rl ->
  let drawn := renderLoop true rl labels in
  exists rest, labels = labelsOf drawn ++ rest
    /\ Forall (fun l => 0 < zOf l) (labelsOf drawn)
    /\ Forall (fun l => zOf l <= 0) rest.
Proof.
  intros Hs Hfar. cbv zeta. rewrite renderLoop_unfold.
  pose proof (renderEntries_inv true (rev rl) labels (1, 10)) as Hinv.
  cbv zeta in Hinv.
  destruct (foldl (renderEntry true) ([], labels, (1, 10)) (rev rl))
    as [[drawn label] planes].
  simpl fst in *. simpl snd in *. destruct Hinv as (I1 & _ & _ & I4 & _).
  pose proof (renderSortedLabels_spec true label 0) as (S1 & S2 & _ & S4).
  rewrite labelsOf_app, labelsOf_labels.
  exists (renderSortedLabels true label 0).2.
  split; [|split].
  - rewrite I1, S1 at 1. now rewrite app_assoc.
  - apply Forall_app. split; [|exact S2].
    apply I4. apply Forall_rev. exact Hfar.
  - apply depthSorted_bound; [|now apply S4].
    rewrite I1, S1 in Hs. now do 2 apply depthSorted_app_r in Hs.
Qed.

(** X24.  With sorted labels, a label drawn after an object is never
    beyond the far side of that object: what an object could hide has been
    drawn before it. *)
Theorem labels_after_object_not_behind (font : bool) (rl : list RenderListEntry)
    (labels : list Label) (before after : list (Labels.Drawn Color))
    (e : RenderListEntry) (n f : Q) :
  depthSorted labels ->
  renderLoop font rl labels = before ++ Labels.DrewObject Color e n f :: after ->
  Forall (fun l => zOf l <= - farZ e) (labelsOf after).
Proof.
  intros Hs Hsplit. apply (occlusionOrdered_split before after e n f).
  rewrite <- Hsplit, renderLoop_unfold.
  pose proof (renderEntries_inv font (rev rl) labels (1, 10)) as Hinv.
  cbv zeta in Hinv.
  destruct (foldl (renderEntry font) ([], labels, (1, 10)) (rev rl))
    as [[drawn label] planes].
  simpl fst in *. simpl snd in *. destruct Hinv as (_ & _ & _ & _ & I5 & I6).
  pose proof (renderSortedLabels_spec font label 0) as (S1 & _ & S3 & _).
  apply occlusionOrdered_app; [now apply I6 | apply occlusionOrdered_labels |].
  rewrite labelsOf_labels. destruct font.
  - eapply Forall_impl; [exact (I5 Hs eq_refl)|]. simpl. intros e0 Hall.
    rewrite S1 in Hall. now apply Forall_app in Hall as [Hall _].
  - rewrite S3 by reflexivity. apply Forall_forall. intros; constructor.
Qed.

(** X25.  Every object of the render loop is drawn between clip planes
    within the ratio the depth buffer can take, also an object too small
    for planes of its own, which is drawn between the planes of the last
    larger object or the planes the loop starts with; a larger object is
    drawn between the planes made for it. *)
Theorem objects_drawn_within_ratio (font : bool) (rl : list RenderListEntry)
    (labels : list Label) :
  Forall (fun d => match d with
                   | Labels.DrewObject _ e n f =>
                     Labels.planesWithinRatio n f
                     /\ (1 < discSizeInPixels e -> (n, f) = planeDistances e)
                   | Labels.DrewLabel _ _ => True
                   end) (renderLoop font rl labels).
Proof.
  rewrite renderLoop_unfold.
  pose proof (renderEntries_planes font (rev rl) labels (1, 10)) as Hinv.
  cbv zeta in Hinv.
  destruct Hinv as (_ & Hall).
  { unfold Labels.planesWithinRatio, MinNearPlaneDistance, MaxFarNearRatio. simpl.
    split; [lra|]. apply Qle_shift_div_r; lra. }
  apply Forall_app. split; [exact Hall|].
  apply Forall_fmap, Forall_forall. intros; exact I.
Qed.


End LabelFacts.

Lemma exampleLabels_sorted : Labels.depthSorted unit exampleLabels.
Proof. simpl. repeat (constructor || split); simpl; lra. Qed.

Lemma labels_in_front_are_drawn_witness :
  exists rest,
    exampleLabels
    = Labels.labelsOf unit
        (Labels.renderLoop unit true [exampleEntry (-10) (-20)] exampleLabels)
      ++ rest
    /\ Forall (fun l => 0 < p_z (Labels.position unit l))
         (Labels.labelsOf unit
            (Labels.renderLoop unit true [exampleEntry (-10) (-20)] exampleLabels))
    /\ Forall (fun l => p_z (Labels.position unit l) <= 0) rest.
Proof.
  apply (labels_in_front_are_drawn unit [exampleEntry (-10) (-20)] exampleLabels).
  - exact exampleLabels_sorted.
  - repeat constructor. simpl. lra.
Defined.

Lemma labels_after_object_not_behind_witness :
  Forall (fun l => p_z (Labels.position unit l) <= - farZ (exampleEntry (-10) (-20)))
    (Labels.labelsOf unit [Labels.DrewLabel unit nearLabel]).
Proof.
  apply (labels_after_object_not_behind unit true [exampleEntry (-10) (-20)]
           exampleLabels [Labels.DrewLabel unit farLabel]
           [Labels.DrewLabel unit nearLabel] (exampleEntry (-10) (-20))
           (planeDistances (exampleEntry (-10) (-20))).1
           (planeDistances (exampleEntry (-10) (-20))).2).
  - exact exampleLabels_sorted.
  - vm_compute. reflexivity.
Defined.

(** ** Elliptical orbits *)

Section EllipticalOrbitFacts.
Import EllipticalOrbit.
Context `{MathLib}.
Variables (sin cos : Q -> Q) (PI : Q).
Variable solve_iteration_fixed : (Q -> Q) -> Q -> nat -> Q.
Variable rotate : Q -> Q -> Q -> Point3 -> Point3.

End EllipticalOrbitFacts.


